(** * Semantic analysis of schema documents: [src/reader.ts]

    A shallow embedding of the reader of the dat-schema repository: the
    syntax tree that the GraphQL parser hands over, the directive
    specifications, the symbol maps, and the resolution of tables, columns
    and enumerations, followed by the properties of the resolution. *)

From Stdlib Require Import String List Bool ZArith Lia Permutation.
Import ListNotations.
Open Scope string_scope.
Open Scope list_scope.

Set Implicit Arguments.
Set Warnings "-register-all".

(** ** The syntax tree of the [graphql] package

    Only the parts of a node that the reader looks at are kept.  A node of the
    parser always has its [arguments], [directives], [fields] and [values]
    arrays (they are empty when the text has none), so they are lists here
    and the [?.] and [?? []] of the source have nothing to do. *)
Module AST.

(** [ValueNode]: the reader distinguishes [StringValue], [IntValue] and
    [ListValue]; the other kinds only ever fail a [kind] test.  An
    [IntValue] token is an optional minus sign and decimal digits, and the
    reader only uses [Number(value)], the integer it denotes. *)
Inductive ValueNode : Type :=
| StringValue (value : string)
| IntValue (value : Z)
| FloatValue (value : string)
| BooleanValue (value : bool)
| NullValue
| EnumValue (value : string)
| ListValue (values : list ValueNode)
| ObjectValue.

Record ArgumentNode : Type := mkArgument {
  arg_name : string;
  arg_value : ValueNode
}.

Record DirectiveNode : Type := mkDirective {
  dir_name : string;
  dir_arguments : list ArgumentNode
}.

Inductive TypeNode : Type :=
| NamedType (name : string)
| ListType (type : TypeNode)
| NonNullType (type : TypeNode).

Record FieldDefinitionNode : Type := mkField {
  field_name : string;
  field_description : option string;
  field_type : TypeNode;
  field_directives : list DirectiveNode
}.

Record ObjectTypeDefinitionNode : Type := mkObjectType {
  obj_name : string;
  obj_directives : list DirectiveNode;
  obj_fields : list FieldDefinitionNode
}.

Record EnumTypeDefinitionNode : Type := mkEnumType {
  enum_name : string;
  enum_directives : list DirectiveNode;
  enum_values : list string
}.

(** A top-level definition: the two kinds the reader accepts, and any other
    kind of the grammar, of which only the [kind] tag is kept. *)
Inductive DefinitionNode : Type :=
| EnumTypeDefinition (node : EnumTypeDefinitionNode)
| ObjectTypeDefinition (node : ObjectTypeDefinitionNode)
| OtherDefinition (kind : string).

Record DocumentNode : Type := mkDocument {
  definitions : list DefinitionNode
}.

(** What the [nodes] option of a [GraphQLError] points at. *)
Inductive NodeRef : Type :=
| AtDirective (d : DirectiveNode)
| AtArguments (args : list ArgumentNode)
| AtValue (v : ValueNode)
| AtName (name : string)
| AtType (t : TypeNode)
| AtField (f : FieldDefinitionNode)
| AtEnum (e : EnumTypeDefinitionNode)
| AtDefinition (d : DefinitionNode).

End AST.
Import AST.

(** ** Exceptions

    The reader throws [GraphQLError]s (a message, the offending node and, at
    one place, the error it wraps) and fails [assert.ok] calls.  An
    [AssertionError] is identified by the assertion that threw it. *)
Inductive Assertion : Type :=
| AssertRefTable          (* parseFieldNode: references?.table *)
| AssertRefDefNode        (* parseFieldNode: refDefNode *)
| AssertColumnType        (* parseFieldNode: the closing test of the type *)
| AssertIndexingArgs      (* getIndexingBase: the argument list *)
| AssertIndexingValue     (* getIndexingBase: first === 0 || first === 1 *)
| AssertIndexingDirective (* getIndexingBase: directive *)
| AssertTagsArgs          (* getTags: the argument list *)
| AssertTagsString        (* getTags: listValue.kind === 'StringValue' *)
| AssertRefArgs           (* referencesField: the argument list *)
| AssertFileArgs          (* getFileExtension: the argument list *)
| AssertFilesArgs         (* getFileGroupExtensions: the argument list *)
| AssertFilesString.      (* getFileGroupExtensions: listValue.kind *)

Inductive Error : Type :=
| GraphQLError (message : string) (nodes : option NodeRef)
               (originalError : option Error)
| AssertionError (site : Assertion).

(** The [nodes] and the [originalError] of an error; an [AssertionError]
    has neither. *)
Definition nodesOf (e : Error) : option NodeRef :=
  match e with
  | GraphQLError _ nodes _ => nodes
  | AssertionError _ => None
  end.

Definition originalErrorOf (e : Error) : option Error :=
  match e with
  | GraphQLError _ _ originalError => originalError
  | AssertionError _ => None
  end.

Inductive result (A : Type) : Type :=
| Ok (value : A)
| Throw (e : Error).
Arguments Ok {A} value.
Arguments Throw {A} e.

Definition bind {A B : Type} (m : result A) (k : A -> result B) : result B :=
  match m with
  | Ok a => k a
  | Throw e => Throw e
  end.

Declare Scope result_scope.
Delimit Scope result_scope with result.
Notation "x <- m ;; k" := (bind m (fun x => k))
  (at level 61, m at next level, right associativity) : result_scope.
Notation "m ;;; k" := (bind m (fun _ => k))
  (at level 61, right associativity) : result_scope.
Open Scope result_scope.

(** [throw new GraphQLError(message, { nodes })] *)
Definition throwAt {A : Type} (message : string) (node : NodeRef) : result A :=
  Throw (GraphQLError message (Some node) None).

(** [assert.ok(cond)] *)
Definition assert_ok (site : Assertion) (cond : bool) : result unit :=
  if cond then Ok tt else Throw (AssertionError site).

Definition is_ok {A : Type} (r : result A) : bool :=
  match r with Ok _ => true | Throw _ => false end.

(** A [for (const x of xs)] loop whose body may throw, over a state. *)
Fixpoint forOf {A S : Type} (body : S -> A -> result S) (xs : list A) (s : S)
  : result S :=
  match xs with
  | [] => Ok s
  | x :: xs' => s' <- body s x ;; forOf body xs' s'
  end.

(** [xs.map(f)] with an [f] that may throw. *)
Fixpoint mapM {A B : Type} (f : A -> result B) (xs : list A) : result (list B) :=
  match xs with
  | [] => Ok []
  | x :: xs' => y <- f x ;; ys <- mapM f xs' ;; Ok (y :: ys)
  end.

(** ** The JavaScript [Map] with string keys

    A [Map] iterates in insertion order, and [readSchemaSources] returns the
    tables and enumerations in that order, so the model is an association
    list: [set] of a present key replaces its value in place, [set] of a new
    key appends. *)
Module JsMap.
Section WithValue.
Variable V : Type.

Definition t : Type := list (string * V).

Definition empty : t := [].

Fixpoint get (m : t) (k : string) : option V :=
  match m with
  | [] => None
  | (k', v) :: m' => if String.eqb k' k then Some v else get m' k
  end.

Definition has (m : t) (k : string) : bool :=
  match get m k with Some _ => true | None => false end.

Fixpoint set (m : t) (k : string) (v : V) : t :=
  match m with
  | [] => [(k, v)]
  | (k', v') :: m' =>
      if String.eqb k' k then (k', v) :: m' else (k', v') :: set m' k v
  end.

Definition values (m : t) : list V := map snd m.
Definition keys (m : t) : list string := map fst m.
End WithValue.

Arguments empty {V}.
Arguments get {V} m k.
Arguments has {V} m k.
Arguments set {V} m k v.
Arguments values {V} m.
Arguments keys {V} m.
End JsMap.

(** Nodes that carry directives: the union type of the [node] parameter of
    [validateDirectives] and [findDirective]. *)
Class HasDirectives (N : Type) : Type := directives : N -> list DirectiveNode.
#[global] Instance FieldDefinitionNode_directives
  : HasDirectives FieldDefinitionNode := field_directives.
#[global] Instance EnumTypeDefinitionNode_directives
  : HasDirectives EnumTypeDefinitionNode := enum_directives.
#[global] Instance ObjectTypeDefinitionNode_directives
  : HasDirectives ObjectTypeDefinitionNode := obj_directives.

(** ** The schema model

    The types of [types.ts], which the reader imports, with the fields that
    the reader assigns. *)

(** Modelled from the spec: the [references] of a column in [types.ts],
    which is not among the sources: a table and an optional column. *)
Record References : Type := mkReferences {
  ref_table : string;
  ref_column : option string
}.

(** Modelled from the spec: [TableColumn] of [types.ts]; [col_type] is the
    [ColumnType], a string that the reader computes, and [col_until] is
    always null. *)
Record TableColumn : Type := mkColumn {
  col_name : option string;
  col_description : option string;
  col_array : bool;
  col_type : string;
  col_unique : bool;
  col_localized : bool;
  col_references : option References;
  col_until : option string;
  col_file : option string;
  col_files : option (list string)
}.

(** Modelled from the spec: [SchemaTable] of [types.ts]. *)
Record SchemaTable : Type := mkTable {
  tbl_name : string;
  tbl_columns : list TableColumn;
  tbl_tags : list string
}.

(** Modelled from the spec: [SchemaEnumeration] of [types.ts]; a null
    enumerator is [None]. *)
Record SchemaEnumeration : Type := mkEnumeration {
  enm_name : string;
  enm_indexing : Z;
  enm_enumerators : list (option string)
}.

(** Modelled from the spec: the two parts of [SchemaFile] that the reader
    returns. *)
Record SchemaFile : Type := mkSchemaFile {
  tables : list SchemaTable;
  enumerations : list SchemaEnumeration
}.

(** ** Small pieces of JavaScript *)

(** The double quote that the message templates put around a name. *)
Definition dq : string := String (Ascii.ascii_of_nat 34) EmptyString.

(** A template literal: the concatenation of its parts. *)
Definition template (parts : list string) : string := String.concat EmptyString parts.

Definition quoted (s : string) : string := template [dq; s; dq].

(** Truthiness of a string: only the empty string is falsy. *)
Definition truthy (s : string) : bool := negb (String.eqb s EmptyString).

(** [!xs?.length] *)
Definition no_length {A : Type} (xs : list A) : bool :=
  match xs with [] => true | _ :: _ => false end.

(** A [for (const x of xs)] loop whose body only throws or goes on. *)
Definition forEach {A : Type} (body : A -> result unit) (xs : list A)
  : result unit :=
  forOf (fun _ x => body x) xs tt.

Definition ScalarTypes : list string := ["bool"; "string"; "i16"; "i32"; "f32"].

(** [ScalarTypes.has(name)] *)
Definition ScalarTypes_has (name : string) : bool :=
  existsb (String.eqb name) ScalarTypes.

(** ** Directive specifications *)

Record DirectiveSpec : Type := mkSpec {
  NAME : string;
  validate : DirectiveNode -> result unit
}.

Definition unknownArgument {A : Type} (arg : ArgumentNode) : result A :=
  throwAt (template ["Unknown argument "; quoted (arg_name arg); "."])
          (AtName (arg_name arg)).

Definition DIRECTIVE_REF : DirectiveSpec := {|
  NAME := "ref";
  validate := fun directive =>
    if no_length (dir_arguments directive) then
      throwAt "Missing referenced column name." (AtDirective directive)
    else
      forEach (fun arg =>
        if String.eqb (arg_name arg) "column" then
          match arg_value arg with
          | StringValue _ => Ok tt
          | v => throwAt "String expected." (AtValue v)
          end
        else unknownArgument arg) (dir_arguments directive)
|}.

(** An argument that the validation of [ref] lets through. *)
Definition refArgument (arg : ArgumentNode) : Prop :=
  arg_name arg = "column" /\ exists s, arg_value arg = StringValue s.

Definition DIRECTIVE_UNIQUE : DirectiveSpec := {|
  NAME := "unique";
  validate := fun directive =>
    if negb (no_length (dir_arguments directive)) then
      throwAt "Directive doesn't accept arguments."
              (AtArguments (dir_arguments directive))
    else Ok tt
|}.

Definition DIRECTIVE_LOCALIZED : DirectiveSpec := {|
  NAME := "localized";
  validate := fun directive =>
    if negb (no_length (dir_arguments directive)) then
      throwAt "Directive doesn't accept arguments."
              (AtArguments (dir_arguments directive))
    else Ok tt
|}.

Definition DIRECTIVE_FILE : DirectiveSpec := {|
  NAME := "file";
  validate := fun directive =>
    if no_length (dir_arguments directive) then
      throwAt "Missing file extension." (AtDirective directive)
    else
      forEach (fun arg =>
        if String.eqb (arg_name arg) "ext" then
          match arg_value arg with
          | StringValue _ => Ok tt
          | v => throwAt "String expected." (AtValue v)
          end
        else unknownArgument arg) (dir_arguments directive)
|}.

(** The test of every element of a list value, shared by [files] and
    [tags]. *)
Definition eachString (values : list ValueNode) : result unit :=
  forEach (fun listValue =>
    match listValue with
    | StringValue _ => Ok tt
    | v => throwAt "String expected." (AtValue v)
    end) values.

Definition DIRECTIVE_FILES_GROUP : DirectiveSpec := {|
  NAME := "files";
  validate := fun directive =>
    if no_length (dir_arguments directive) then
      throwAt "Missing file extensions." (AtDirective directive)
    else
      forEach (fun arg =>
        if String.eqb (arg_name arg) "ext" then
          match arg_value arg with
          | ListValue values => eachString values
          | v => throwAt "List of extensions expected." (AtValue v)
          end
        else unknownArgument arg) (dir_arguments directive)
|}.

Definition DIRECTIVE_ENUM_INDEXING : DirectiveSpec := {|
  NAME := "indexing";
  validate := fun directive =>
    if no_length (dir_arguments directive) then
      throwAt "Missing first enumerator index." (AtDirective directive)
    else
      forEach (fun arg =>
        if String.eqb (arg_name arg) "first" then
          match arg_value arg with
          | IntValue n =>
              if negb (Z.eqb n 0) && negb (Z.eqb n 1)
              then throwAt "Integer 0 or 1 expected." (AtValue (IntValue n))
              else Ok tt
          | v => throwAt "Integer 0 or 1 expected." (AtValue v)
          end
        else unknownArgument arg) (dir_arguments directive)
|}.

Definition DIRECTIVE_TABLE_TAGS : DirectiveSpec := {|
  NAME := "tags";
  validate := fun directive =>
    if no_length (dir_arguments directive) then
      throwAt "Missing list of tags." (AtDirective directive)
    else
      forEach (fun arg =>
        if String.eqb (arg_name arg) "list" then
          match arg_value arg with
          | ListValue values =>
              if no_length values then
                throwAt "At least one tag should be in the list."
                        (AtValue (ListValue values))
              else eachString values
          | v => throwAt "List of tags expected." (AtValue v)
          end
        else unknownArgument arg) (dir_arguments directive)
|}.

(** ** Directive lookup and validation *)

Definition validateDirectives {N : Type} `{HasDirectives N}
    (node : N) (specs : list DirectiveSpec) : result unit :=
  forEach (fun directive =>
    match find (fun spec => String.eqb (NAME spec) (dir_name directive)) specs with
    | Some spec => validate spec directive
    | None =>
        throwAt (template ["Unknown directive "; quoted (dir_name directive); "."])
                (AtName (dir_name directive))
    end) (directives node).

Definition findDirective {N : Type} `{HasDirectives N}
    (node : N) (name : string) : option DirectiveNode :=
  find (fun directive => String.eqb (dir_name directive) name) (directives node).

Definition isUnique (field : FieldDefinitionNode) : bool :=
  match findDirective field (NAME DIRECTIVE_UNIQUE) with
  | Some _ => true
  | None => false
  end.

Definition isLocalized (field : FieldDefinitionNode) : bool :=
  match findDirective field (NAME DIRECTIVE_LOCALIZED) with
  | Some _ => true
  | None => false
  end.

(** ** Reading the arguments of validated directives *)

Definition getIndexingBase (node : EnumTypeDefinitionNode) : result Z :=
  match findDirective node (NAME DIRECTIVE_ENUM_INDEXING) with
  | None => Throw (AssertionError AssertIndexingDirective)
  | Some directive =>
      match dir_arguments directive with
      | [arg] =>
          match arg_value arg with
          | IntValue first =>
              assert_ok AssertIndexingArgs (String.eqb (arg_name arg) "first") ;;;
              assert_ok AssertIndexingValue (Z.eqb first 0 || Z.eqb first 1) ;;;
              Ok first
          | _ => Throw (AssertionError AssertIndexingArgs)
          end
      | _ => Throw (AssertionError AssertIndexingArgs)
      end
  end.

Definition getTags (node : ObjectTypeDefinitionNode) : result (list string) :=
  match findDirective node (NAME DIRECTIVE_TABLE_TAGS) with
  | None => Ok []
  | Some directive =>
      match dir_arguments directive with
      | [arg] =>
          match arg_value arg with
          | ListValue values =>
              assert_ok AssertTagsArgs (String.eqb (arg_name arg) "list") ;;;
              mapM (fun listValue =>
                match listValue with
                | StringValue value => Ok value
                | _ => Throw (AssertionError AssertTagsString)
                end) values
          | _ => Throw (AssertionError AssertTagsArgs)
          end
      | _ => Throw (AssertionError AssertTagsArgs)
      end
  end.

(** The result is [undefined] ([None]) when the field has no [ref]
    directive. *)
Definition referencesField (field : FieldDefinitionNode)
  : result (option string) :=
  match findDirective field (NAME DIRECTIVE_REF) with
  | None => Ok None
  | Some directive =>
      match dir_arguments directive with
      | [arg] =>
          match arg_value arg with
          | StringValue value =>
              assert_ok AssertRefArgs (String.eqb (arg_name arg) "column") ;;;
              Ok (Some value)
          | _ => Throw (AssertionError AssertRefArgs)
          end
      | _ => Throw (AssertionError AssertRefArgs)
      end
  end.

Definition MSG_PLACEHOLDER : string :=
  "Unknown type is only allowed inside an array.".

Record FieldType : Type := mkFieldType {
  ft_array : bool;
  ft_name : string
}.

Definition unwrapType (field : FieldDefinitionNode) : result FieldType :=
  let '(array, type) :=
    match field_type field with
    | ListType type => (true, type)
    | type => (false, type)
    end in
  match type with
  | NamedType name =>
      if String.eqb name "_" && negb array then
        throwAt MSG_PLACEHOLDER (AtType (field_type field))
      else Ok {| ft_array := array; ft_name := name |}
  | _ => throwAt "Valid type expected." (AtType (field_type field))
  end.

Definition getFileExtension (field : FieldDefinitionNode)
  : result (option string) :=
  match findDirective field (NAME DIRECTIVE_FILE) with
  | None => Ok None
  | Some directive =>
      match dir_arguments directive with
      | [arg] =>
          match arg_value arg with
          | StringValue value =>
              assert_ok AssertFileArgs (String.eqb (arg_name arg) "ext") ;;;
              Ok (Some value)
          | _ => Throw (AssertionError AssertFileArgs)
          end
      | _ => Throw (AssertionError AssertFileArgs)
      end
  end.

Definition getFileGroupExtensions (field : FieldDefinitionNode)
  : result (option (list string)) :=
  match findDirective field (NAME DIRECTIVE_FILES_GROUP) with
  | None => Ok None
  | Some directive =>
      match dir_arguments directive with
      | [arg] =>
          match arg_value arg with
          | ListValue values =>
              assert_ok AssertFilesArgs (String.eqb (arg_name arg) "ext") ;;;
              exts <- mapM (fun listValue =>
                match listValue with
                | StringValue value => Ok value
                | _ => Throw (AssertionError AssertFilesString)
                end) values ;;
              Ok (Some exts)
          | _ => Throw (AssertionError AssertFilesArgs)
          end
      | _ => Throw (AssertionError AssertFilesArgs)
      end
  end.

(** ** Referenced columns *)

(** The three failures of a referenced column.  The first letter of two of
    the messages is the Cyrillic capital Es of the source. *)
Definition MSG_REF_ARRAY : string :=
  "Сannot refer to a column with an array type.".
Definition MSG_REF_NOT_UNIQUE : string :=
  "Values in the referenced column must be unique.".
Definition MSG_REF_NON_SCALAR : string :=
  "Сannot refer to a column with a non-scalar type.".

(** The result is [undefined] ([None]) when the table has no field of that
    name. *)
Definition findReferencedField (typeNode : ObjectTypeDefinitionNode)
    (name : string) : result (option string) :=
  match find (fun field => String.eqb (field_name field) name)
             (obj_fields typeNode) with
  | Some fieldNode =>
      typeInfo <- unwrapType fieldNode ;;
      if ft_array typeInfo then
        throwAt MSG_REF_ARRAY (AtType (field_type fieldNode))
      else if negb (isUnique fieldNode) then
        throwAt MSG_REF_NOT_UNIQUE (AtField fieldNode)
      else if negb (ScalarTypes_has (ft_name typeInfo)) then
        throwAt MSG_REF_NON_SCALAR (AtType (field_type fieldNode))
      else Ok (Some (ft_name typeInfo))
  | None => Ok None
  end.

(** ** Columns *)

Record Context : Type := mkContext {
  typeDefsMap : JsMap.t ObjectTypeDefinitionNode;
  enumDefsMap : JsMap.t EnumTypeDefinitionNode
}.

(** The state of [parseFieldNode] between its steps: the type name, which
    the source keeps in [fieldType.name] and reassigns, and [references]. *)
Definition Classified : Type := (string * option References)%type.

(** [parseFieldNode], the classification of the base name (the chain of
    tests on [fieldType.name]). *)
Definition parseFieldNode_classify (ctx : Context) (tableName : string)
    (fieldNode : FieldDefinitionNode) (fieldType : FieldType)
  : result Classified :=
  if String.eqb (ft_name fieldType) tableName then
    Ok ("row", Some {| ref_table := tableName; ref_column := None |})
  else if String.eqb (ft_name fieldType) "rid" then
    Ok ("foreignrow", None)
  else if String.eqb (ft_name fieldType) "_" && ft_array fieldType then
    Ok ("array", None)
  else if negb (ScalarTypes_has (ft_name fieldType)) then
    if JsMap.has (typeDefsMap ctx) (ft_name fieldType) then
      Ok ("foreignrow",
          Some {| ref_table := ft_name fieldType; ref_column := None |})
    else if JsMap.has (enumDefsMap ctx) (ft_name fieldType) then
      Ok ("enumrow",
          Some {| ref_table := ft_name fieldType; ref_column := None |})
    else
      throwAt (template ["Can't find referenced table/enum ";
                         quoted (ft_name fieldType); "."])
              (AtType (field_type fieldNode))
  else Ok (ft_name fieldType, None).

Definition MSG_REF_WRAPPED : string :=
  "An error occurred while validating the referenced column.".

(** [parseFieldNode], the block guarded by [if (refFieldName)]. *)
Definition parseFieldNode_ref (ctx : Context) (fieldNode : FieldDefinitionNode)
    (refFieldName : option string) (classified : Classified)
  : result Classified :=
  match refFieldName with
  | None => Ok classified
  | Some refFieldName =>
      if truthy refFieldName then
        table <- match snd classified with
                 | Some references =>
                     assert_ok AssertRefTable (truthy (ref_table references)) ;;;
                     Ok (ref_table references)
                 | None => Throw (AssertionError AssertRefTable)
                 end ;;
        let references :=
          Some {| ref_table := table; ref_column := Some refFieldName |} in
        refDefNode <- match JsMap.get (typeDefsMap ctx) table with
                      | Some node => Ok node
                      | None => Throw (AssertionError AssertRefDefNode)
                      end ;;
        refFieldType <-
          match findReferencedField refDefNode refFieldName with
          | Ok found => Ok found
          | Throw e =>
              Throw (GraphQLError MSG_REF_WRAPPED
                       (option_map AtDirective
                          (findDirective fieldNode (NAME DIRECTIVE_REF)))
                       (Some e))
          end ;;
        match refFieldType with
        | Some type =>
            if truthy type then Ok (type, references)
            else
              Throw (GraphQLError
                (template ["Can't find column "; quoted refFieldName;
                           " in table "; quoted table; "."])
                (option_map AtDirective
                   (findDirective fieldNode (NAME DIRECTIVE_REF)))
                None)
        | None =>
            Throw (GraphQLError
              (template ["Can't find column "; quoted refFieldName;
                         " in table "; quoted table; "."])
              (option_map AtDirective
                 (findDirective fieldNode (NAME DIRECTIVE_REF)))
              None)
        end
      else Ok classified
  end.

Definition FIELD_DIRECTIVES : list DirectiveSpec :=
  [DIRECTIVE_REF; DIRECTIVE_UNIQUE; DIRECTIVE_LOCALIZED; DIRECTIVE_FILE;
   DIRECTIVE_FILES_GROUP].

(** The test of the closing [assert.ok] of [parseFieldNode]. *)
Definition isColumnType (name : string) : bool :=
  ScalarTypes_has name || String.eqb name "array" || String.eqb name "row"
  || String.eqb name "foreignrow" || String.eqb name "enumrow".

Definition parseFieldNode (ctx : Context) (tableName : string)
    (fieldNode : FieldDefinitionNode) : result TableColumn :=
  validateDirectives fieldNode FIELD_DIRECTIVES ;;;
  let unique := isUnique fieldNode in
  let localized := isLocalized fieldNode in
  refFieldName <- referencesField fieldNode ;;
  fieldType <- unwrapType fieldNode ;;
  classified <- parseFieldNode_classify ctx tableName fieldNode fieldType ;;
  resolved <- parseFieldNode_ref ctx fieldNode refFieldName classified ;;
  assert_ok AssertColumnType (isColumnType (fst resolved)) ;;;
  file <- getFileExtension fieldNode ;;
  files <- getFileGroupExtensions fieldNode ;;
  Ok {| col_name := if String.eqb (field_name fieldNode) "_" then None
                    else Some (field_name fieldNode);
        col_description := field_description fieldNode;
        col_array := ft_array fieldType;
        col_type := fst resolved;
        col_unique := unique;
        col_localized := localized;
        col_references := snd resolved;
        col_until := None;
        col_file := file;
        col_files := files |}.

(** The two errors that the block of the [ref] directive throws itself. *)
Definition refWrapped (fieldNode : FieldDefinitionNode) (cause : Error) : Error :=
  GraphQLError MSG_REF_WRAPPED
    (option_map AtDirective (findDirective fieldNode (NAME DIRECTIVE_REF)))
    (Some cause).

Definition refNotFound (fieldNode : FieldDefinitionNode)
    (refFieldName table : string) : Error :=
  GraphQLError
    (template ["Can't find column "; quoted refFieldName;
               " in table "; quoted table; "."])
    (option_map AtDirective (findDirective fieldNode (NAME DIRECTIVE_REF)))
    None.

(** ** The column of a settled field

    Names for the end of [parseFieldNode], used to state what it returns. *)

(** The column that [parseFieldNode] builds at its end. *)
Definition makeColumn (fieldNode : FieldDefinitionNode) (array : bool)
    (type : string) (references : option References)
    (file : option string) (files : option (list string)) : TableColumn :=
  {| col_name := if String.eqb (field_name fieldNode) "_" then None
                 else Some (field_name fieldNode);
     col_description := field_description fieldNode;
     col_array := array;
     col_type := type;
     col_unique := isUnique fieldNode;
     col_localized := isLocalized fieldNode;
     col_references := references;
     col_until := None;
     col_file := file;
     col_files := files |}.

(** The last two steps of [parseFieldNode], once the type is settled. *)
Definition finishColumn (fieldNode : FieldDefinitionNode) (array : bool)
    (type : string) (references : option References) : result TableColumn :=
  file <- getFileExtension fieldNode ;;
  files <- getFileGroupExtensions fieldNode ;;
  Ok (makeColumn fieldNode array type references file files).

(** ** Enumerations *)

(** [enumerators.includes(name)] for a name, which is never [null]. *)
Definition includes (enumerators : list (option string)) (name : string) : bool :=
  existsb (fun e => match e with
                    | Some s => String.eqb s name
                    | None => false
                    end) enumerators.

(** The body of the loop over [enumNode.values]; [push] appends. *)
Definition pushEnumerator (enumerators : list (option string))
    (valueName : string) : result (list (option string)) :=
  if String.eqb valueName "_" then Ok (enumerators ++ [None])
  else if includes enumerators valueName then
    throwAt (template ["Duplicate enumerator "; quoted valueName; "."])
            (AtName valueName)
  else Ok (enumerators ++ [Some valueName]).

(** The test after the loop: a single [null] becomes no enumerator. *)
Definition collapseEnumerators (enumerators : list (option string))
  : list (option string) :=
  match enumerators with
  | [None] => []
  | _ => enumerators
  end.

Definition parseEnumNode (enumNode : EnumTypeDefinitionNode)
  : result SchemaEnumeration :=
  validateDirectives enumNode [DIRECTIVE_ENUM_INDEXING] ;;;
  match findDirective enumNode (NAME DIRECTIVE_ENUM_INDEXING) with
  | None =>
      throwAt "`indexing` directive is required for enums." (AtEnum enumNode)
  | Some _ =>
      indexing <- getIndexingBase enumNode ;;
      enumerators <- forOf pushEnumerator (enum_values enumNode) [] ;;
      Ok {| enm_name := enum_name enumNode;
            enm_indexing := indexing;
            enm_enumerators := collapseEnumerators enumerators |}
  end.

(** The enumerators in the words of the specification: the name [_] is a
    null slot that keeps its place, any other name is kept. *)
Definition enumeratorOf (valueName : string) : option string :=
  if String.eqb valueName "_" then None else Some valueName.

(** The names of a list that are not the placeholder. *)
Definition namedValues (names : list string) : list string :=
  filter (fun n => negb (String.eqb n "_")) names.

(** ** Tables and the whole reader *)

(** The body of the loop over the definitions of a document. *)
Definition addDefinition (maps : Context) (typeNode : DefinitionNode)
  : result Context :=
  match typeNode with
  | EnumTypeDefinition node =>
      if JsMap.has (enumDefsMap maps) (enum_name node) then
        throwAt "Enum with this name has already been defined."
                (AtName (enum_name node))
      else Ok {| typeDefsMap := typeDefsMap maps;
                 enumDefsMap := JsMap.set (enumDefsMap maps) (enum_name node) node |}
  | ObjectTypeDefinition node =>
      if JsMap.has (typeDefsMap maps) (obj_name node) then
        throwAt "Table with this name has already been defined."
                (AtName (obj_name node))
      else Ok {| typeDefsMap := JsMap.set (typeDefsMap maps) (obj_name node) node;
                 enumDefsMap := enumDefsMap maps |}
  | OtherDefinition _ => throwAt "Unsupported definition." (AtDefinition typeNode)
  end.

(** The body of the loop over the fields of a table. *)
Definition pushColumn (ctx : Context) (tableName : string)
    (columns : list TableColumn) (fieldNode : FieldDefinitionNode)
  : result (list TableColumn) :=
  column <- parseFieldNode ctx tableName fieldNode ;;
  match col_name column with
  | Some name =>
      if existsb (fun col => match col_name col with
                             | Some n => String.eqb n name
                             | None => false
                             end) columns
      then throwAt (template ["Duplicate column name "; quoted name; "."])
                   (AtName (field_name fieldNode))
      else Ok (columns ++ [column])
  | None => Ok (columns ++ [column])
  end.

(** The body of the loop over [typeDefsMap.values()]. *)
Definition readTable (ctx : Context) (typeNode : ObjectTypeDefinitionNode)
  : result SchemaTable :=
  validateDirectives typeNode [DIRECTIVE_TABLE_TAGS] ;;;
  tags <- getTags typeNode ;;
  columns <- forOf (pushColumn ctx (obj_name typeNode)) (obj_fields typeNode) [] ;;
  Ok {| tbl_name := obj_name typeNode; tbl_columns := columns; tbl_tags := tags |}.

Section Reader.

(** The parser of the [graphql] package: a source either is a document or
    has a syntax error, thrown by [parse] with its message. *)
Variable Source : Type.
Variable parse : Source -> string + DocumentNode.

(** The body of the loop over [sources]. *)
Definition readSource (maps : Context) (source : Source) : result Context :=
  match parse source with
  | inl syntaxError => Throw (GraphQLError syntaxError None None)
  | inr doc => forOf addDefinition (definitions doc) maps
  end.

Definition readSchemaSources (sources : list Source) : result SchemaFile :=
  ctx <- forOf readSource sources
           {| typeDefsMap := JsMap.empty; enumDefsMap := JsMap.empty |} ;;
  tables <- forOf (fun tables typeNode =>
                     table <- readTable ctx typeNode ;;
                     Ok (tables ++ [table]))
                  (JsMap.values (typeDefsMap ctx)) [] ;;
  enumerations <- forOf (fun enumerations enumNode =>
                           schemaEnum <- parseEnumNode enumNode ;;
                           Ok (enumerations ++ [schemaEnum]))
                        (JsMap.values (enumDefsMap ctx)) [] ;;
  Ok {| tables := tables; enumerations := enumerations |}.

End Reader.

(** ** Names for the statements about a run *)

(** The nine values of [ColumnType]. *)
Definition ColumnTypes : list string :=
  ["bool"; "string"; "i16"; "i32"; "f32"; "row"; "foreignrow"; "enumrow"; "array"].

(** Whether a declared type is list-wrapped. *)
Definition isListType (type : TypeNode) : bool :=
  match type with
  | ListType _ => true
  | _ => false
  end.

(** The two maps before the first source is read. *)
Definition emptyContext : Context :=
  {| typeDefsMap := JsMap.empty; enumDefsMap := JsMap.empty |}.

(** The table definitions and the enumeration definitions of a list of
    definitions, in order, and whether a definition is of a kind that the
    reader accepts. *)
Fixpoint tableNodes (defs : list DefinitionNode) : list ObjectTypeDefinitionNode :=
  match defs with
  | [] => []
  | ObjectTypeDefinition node :: defs' => node :: tableNodes defs'
  | _ :: defs' => tableNodes defs'
  end.

Fixpoint enumNodes (defs : list DefinitionNode) : list EnumTypeDefinitionNode :=
  match defs with
  | [] => []
  | EnumTypeDefinition node :: defs' => node :: enumNodes defs'
  | _ :: defs' => enumNodes defs'
  end.

Definition supported (def : DefinitionNode) : bool :=
  match def with
  | OtherDefinition _ => false
  | _ => true
  end.

(** The entries of a map in which every node is stored under its name. *)
Definition entriesBy {V : Type} (name : V -> string) (nodes : list V)
  : JsMap.t V :=
  map (fun node => (name node, node)) nodes.

Definition tableEntries (nodes : list ObjectTypeDefinitionNode)
  : JsMap.t ObjectTypeDefinitionNode := entriesBy obj_name nodes.

Definition enumEntries (nodes : list EnumTypeDefinitionNode)
  : JsMap.t EnumTypeDefinitionNode := entriesBy enum_name nodes.

(** Names that can be added to a map one after the other: none is in the
    map and none comes twice. *)
Definition insertable {V : Type} (m : JsMap.t V) (names : list string) : Prop :=
  NoDup names /\ Forall (fun k => JsMap.has m k = false) names.

(** Two contexts in which every lookup gives the same definition. *)
Definition sameLookups (ctx ctx' : Context) : Prop :=
  (forall k, JsMap.get (typeDefsMap ctx) k = JsMap.get (typeDefsMap ctx') k)
  /\ (forall k, JsMap.get (enumDefsMap ctx) k = JsMap.get (enumDefsMap ctx') k).

(** An error other than the failure of a given assertion. *)
Definition avoids {A : Type} (site : Assertion) (r : result A) : Prop :=
  r <> Throw (AssertionError site).

(** Sources that are given parsed. *)
Definition parsed (doc : DocumentNode) : string + DocumentNode := inr doc.

Module Examples.

Definition plain (name : string) (type : TypeNode) : FieldDefinitionNode :=
  {| field_name := name; field_description := None; field_type := type;
     field_directives := [] |}.

Definition annotated (name : string) (type : TypeNode)
    (ds : list DirectiveNode) : FieldDefinitionNode :=
  {| field_name := name; field_description := None; field_type := type;
     field_directives := ds |}.

Definition ref (column : string) : DirectiveNode :=
  {| dir_name := "ref";
     dir_arguments := [ {| arg_name := "column"; arg_value := StringValue column |} ] |}.

Definition unique : DirectiveNode := {| dir_name := "unique"; dir_arguments := [] |}.

Definition indexing (first : Z) : DirectiveNode :=
  {| dir_name := "indexing";
     dir_arguments := [ {| arg_name := "first"; arg_value := IntValue first |} ] |}.

Definition table (name : string) (fields : list FieldDefinitionNode)
  : DefinitionNode :=
  ObjectTypeDefinition
    {| obj_name := name; obj_directives := []; obj_fields := fields |}.

Definition enum (name : string) (values : list string) : DefinitionNode :=
  EnumTypeDefinition
    {| enum_name := name; enum_directives := [indexing 0]; enum_values := values |}.

Definition doc (defs : list DefinitionNode) : DocumentNode :=
  {| definitions := defs |}.

(** A directive with the same argument name given twice, which the parser
    accepts: [@name(arg: first, arg: second)]. *)
Definition twice (name arg : string) (first second : ValueNode) : DirectiveNode :=
  {| dir_name := name;
     dir_arguments := [ {| arg_name := arg; arg_value := first |};
                        {| arg_name := arg; arg_value := second |} ] |}.

(** Two tables: [Item] refers to [Base], whose [Id] is a unique [i32]. *)
Definition Base : ObjectTypeDefinitionNode :=
  {| obj_name := "Base"; obj_directives := [];
     obj_fields := [annotated "Id" (NamedType "i32") [unique];
                    annotated "Tags" (ListType (NamedType "string")) [unique];
                    plain "Name" (NamedType "string");
                    annotated "Parent" (NamedType "Base") [unique]] |}.

Definition Item : ObjectTypeDefinitionNode :=
  {| obj_name := "Item"; obj_directives := [];
     obj_fields := [annotated "BaseId" (ListType (NamedType "Base")) [ref "Id"]] |}.

Definition Rarity : EnumTypeDefinitionNode :=
  {| enum_name := "Rarity"; enum_directives := [indexing 0];
     enum_values := ["Normal"; "Magic"] |}.

Definition itemContext : Context :=
  {| typeDefsMap := [("Item", Item); ("Base", Base)];
     enumDefsMap := [("Rarity", Rarity)] |}.

(** A table and an enumeration of the same name [Kind], and a table
    [Thing] with a field of that type. *)
Definition kindDocs : list DocumentNode :=
  [doc [table "Kind" [plain "Next" (NamedType "Kind")];
        enum "Kind" ["Small"; "Large"]];
   doc [table "Thing" [plain "Kind" (NamedType "Kind")]]].

Definition kindContext : Context :=
  {| typeDefsMap :=
       tableEntries
         [mkObjectType "Kind" [] [plain "Next" (NamedType "Kind")];
          mkObjectType "Thing" [] [plain "Kind" (NamedType "Kind")]];
     enumDefsMap :=
       enumEntries [mkEnumType "Kind" [indexing 0] ["Small"; "Large"]] |}.

(** The two tables and the enumeration above as two documents. *)
Definition itemDoc : DocumentNode := doc [ObjectTypeDefinition Item].
Definition baseDoc : DocumentNode :=
  doc [ObjectTypeDefinition Base; EnumTypeDefinition Rarity].

(** A table that is named like a scalar type, and a table with a field of
    that type. *)
Definition levelDoc : DocumentNode :=
  doc [table "Item" [plain "Level" (NamedType "i32")]].
Definition i32Doc : DocumentNode :=
  doc [table "i32" [plain "Value" (NamedType "bool")]].

Definition noContext : Context := {| typeDefsMap := []; enumDefsMap := [] |}.

End Examples.


(** ** Names for the statements about the rest of the reader *)

(** A directive that [validateDirectives] lets through: the first
    specification of its name validates it. *)
Definition accepted (specs : list DirectiveSpec) (d : DirectiveNode) : Prop :=
  exists spec,
    find (fun spec => String.eqb (NAME spec) (dir_name d)) specs = Some spec
    /\ validate spec d = Ok tt.

(** The string values [StringValue s] of a list of strings. *)
Definition stringValues (strings : list string) : list ValueNode :=
  map StringValue strings.

(** The arguments that the validation of [file], [files], [indexing] and
    [tags] lets through. *)
Definition fileArgument (arg : ArgumentNode) : Prop :=
  arg_name arg = "ext" /\ exists s, arg_value arg = StringValue s.

Definition filesArgument (arg : ArgumentNode) : Prop :=
  arg_name arg = "ext"
  /\ exists exts, arg_value arg = ListValue (stringValues exts).

Definition indexingArgument (arg : ArgumentNode) : Prop :=
  arg_name arg = "first"
  /\ (arg_value arg = IntValue 0 \/ arg_value arg = IntValue 1).

Definition tagsArgument (arg : ArgumentNode) : Prop :=
  arg_name arg = "list"
  /\ exists tags, tags <> [] /\ arg_value arg = ListValue (stringValues tags).

(** The name of a column: null for the placeholder name. *)
Definition columnName (fieldName : string) : option string :=
  if String.eqb fieldName "_" then None else Some fieldName.

(** The entries of a list that are not null. *)
Fixpoint named (entries : list (option string)) : list string :=
  match entries with
  | [] => []
  | Some name :: entries' => name :: named entries'
  | None :: entries' => named entries'
  end.

(** The definitions of a list of documents, in order. *)
Definition allDefinitions (docs : list DocumentNode) : list DefinitionNode :=
  flat_map definitions docs.

(** The definitions of the sources that parse, in order. *)
Definition definitionsOf {Source : Type}
    (parse : Source -> string + DocumentNode) (sources : list Source)
  : list DefinitionNode :=
  flat_map (fun source =>
              match parse source with
              | inr doc => definitions doc
              | inl _ => []
              end) sources.

Module MoreExamples.
Import Examples.

Definition file (ext : string) : DirectiveNode :=
  {| dir_name := "file";
     dir_arguments := [ {| arg_name := "ext"; arg_value := StringValue ext |} ] |}.

Definition files (exts : list string) : DirectiveNode :=
  {| dir_name := "files";
     dir_arguments :=
       [ {| arg_name := "ext"; arg_value := ListValue (stringValues exts) |} ] |}.

Definition tags (list : list string) : DirectiveNode :=
  {| dir_name := "tags";
     dir_arguments :=
       [ {| arg_name := "list"; arg_value := ListValue (stringValues list) |} ] |}.

Definition localized : DirectiveNode :=
  {| dir_name := "localized"; dir_arguments := [] |}.

(** A field with a file, a group of files and a reference. *)
Definition Icon : FieldDefinitionNode :=
  annotated "Icon" (NamedType "string") [file "dds"; files ["png"; "jpg"]].

(** A table with tags, a placeholder column and two named columns. *)
Definition Tagged : ObjectTypeDefinitionNode :=
  {| obj_name := "Tagged"; obj_directives := [tags ["core"; "item"]];
     obj_fields := [plain "_" (NamedType "i32");
                    plain "Id" (NamedType "i32");
                    plain "_" (ListType (NamedType "_"));
                    annotated "Name" (NamedType "string") [localized]] |}.

(** Sources of which some have a syntax error. *)
Definition parsedOrError (source : option DocumentNode)
  : string + DocumentNode :=
  match source with
  | Some doc => inr doc
  | None => inl "Syntax Error: Unexpected <EOF>."
  end.





(** A placeholder array with a file extension given twice. *)
Definition TwoFiles : FieldDefinitionNode :=
  annotated "_" (ListType (NamedType "_"))
    [twice "file" "ext" (StringValue "a") (StringValue "b")].

(** A table with a field of the type [Base] and a field of a type that no
    document defines. *)
Definition ownedDoc : DocumentNode :=
  doc [table "Item" [plain "Base" (NamedType "Base");
                     plain "Owner" (NamedType "Player")]].

(** A table with a field of the type [Base], and the maps of its document
    read after the document of [Base]. *)
Definition Holder : ObjectTypeDefinitionNode :=
  {| obj_name := "Holder"; obj_directives := [];
     obj_fields := [plain "Base" (NamedType "Base")] |}.

Definition holderDoc : DocumentNode := doc [ObjectTypeDefinition Holder].

Definition holderContext : Context :=
  {| typeDefsMap := tableEntries [Base; Holder];
     enumDefsMap := enumEntries [Rarity] |}.

End MoreExamples.
(** * Properties *)

Unset Implicit Arguments.

(** ** The result monad and the loops *)

Lemma bind_Ok {A B : Type} (m : result A) (k : A -> result B) (b : B) :
  bind m k = Ok b <-> exists a, m = Ok a /\ k a = Ok b.
Proof.
  split.
  - destruct m as [a|e]; simpl; intros H; [exists a; auto | discriminate].
  - intros [a [-> H]]. exact H.
Qed.

Lemma bind_Throw {A B : Type} (m : result A) (k : A -> result B) (e : Error) :
  bind m k = Throw e <-> m = Throw e \/ exists a, m = Ok a /\ k a = Throw e.
Proof.
  split.
  - destruct m as [a|e']; simpl; intros H.
    + right. exists a. auto.
    + left. congruence.
  - intros [-> | [a [-> H]]]; auto.
Qed.

Lemma forOf_app {A S : Type} (body : S -> A -> result S) (xs ys : list A) (s : S) :
  forOf body (xs ++ ys) s = (s' <- forOf body xs s ;; forOf body ys s').
Proof.
  revert s. induction xs as [|x xs IH]; intros s; simpl; [reflexivity|].
  destruct (body s x); simpl; auto.
Qed.

(** A loop that pushes the result of its body is a [map]. *)
Lemma forOf_push {A B : Type} (f : A -> result B) (xs : list A) (acc : list B) :
  forOf (fun acc x => y <- f x ;; Ok (acc ++ [y])) xs acc
  = (ys <- mapM f xs ;; Ok (acc ++ ys)).
Proof.
  revert acc. induction xs as [|x xs IH]; intros acc; simpl.
  - now rewrite app_nil_r.
  - destruct (f x) as [y|e]; simpl; [|reflexivity].
    rewrite IH. destruct (mapM f xs); simpl; [|reflexivity].
    now rewrite <- app_assoc.
Qed.

Lemma mapM_Ok {A B : Type} (f : A -> result B) (xs : list A) (ys : list B) :
  mapM f xs = Ok ys <-> Forall2 (fun x y => f x = Ok y) xs ys.
Proof.
  revert ys. induction xs as [|x xs IH]; intros ys; simpl.
  - split.
    + intros H. injection H as <-. constructor.
    + intros H. inversion H. reflexivity.
  - split.
    + intros H. apply bind_Ok in H as [y [Hy H]].
      apply bind_Ok in H as [ys' [Hys H]]. injection H as <-.
      constructor; [exact Hy | now apply IH].
    + intros H. inversion H as [|x' y xs' ys' Hy Hys]; subst.
      rewrite Hy. simpl. apply IH in Hys. now rewrite Hys.
Qed.

Lemma Forall2_In_l {A B : Type} (R : A -> B -> Prop) (l : list A) (l' : list B) x :
  Forall2 R l l' -> In x l -> exists y, In y l' /\ R x y.
Proof.
  induction 1 as [|a b l l' Hab _ IH]; simpl; [contradiction|].
  intros [->|Hin].
  - exists b. auto.
  - destruct (IH Hin) as [y [Hy Hxy]]. exists y. auto.
Qed.

Lemma mapM_app {A B : Type} (f : A -> result B) (xs xs' : list A) :
  mapM f (xs ++ xs')
  = (ys <- mapM f xs ;; ys' <- mapM f xs' ;; Ok (ys ++ ys')).
Proof.
  induction xs as [|x xs IH]; simpl.
  - destruct (mapM f xs'); reflexivity.
  - destruct (f x); simpl; [|reflexivity]. rewrite IH.
    destruct (mapM f xs); simpl; [|reflexivity].
    destruct (mapM f xs'); reflexivity.
Qed.

Lemma mapM_ext {A B : Type} (f g : A -> result B) (xs : list A) :
  (forall x, In x xs -> f x = g x) -> mapM f xs = mapM g xs.
Proof.
  induction xs as [|x xs IH]; intros H; simpl; [reflexivity|].
  rewrite (H x (or_introl eq_refl)). rewrite IH; [reflexivity|].
  intros y Hy. apply H. now right.
Qed.

Lemma forOf_ext {A S : Type} (f g : S -> A -> result S) (xs : list A) (s : S) :
  (forall s x, In x xs -> f s x = g s x) -> forOf f xs s = forOf g xs s.
Proof.
  revert s. induction xs as [|x xs IH]; intros s H; simpl; [reflexivity|].
  rewrite (H s x (or_introl eq_refl)). destruct (g s x); simpl; [|reflexivity].
  apply IH. intros s' y Hy. apply H. now right.
Qed.

(** ** Strings *)

Lemma truthy_true (s : string) : truthy s = true <-> s <> EmptyString.
Proof.
  unfold truthy. destruct (String.eqb_spec s EmptyString); simpl; split; congruence.
Qed.

Lemma ScalarTypes_has_true (name : string) :
  ScalarTypes_has name = true <-> In name ScalarTypes.
Proof.
  unfold ScalarTypes_has. rewrite existsb_exists. split.
  - intros [s [Hs He]]. apply String.eqb_eq in He. now subst.
  - intros H. exists name. split; [exact H | apply String.eqb_refl].
Qed.

Lemma ScalarTypes_has_truthy (name : string) :
  ScalarTypes_has name = true -> truthy name = true.
Proof.
  intros H. apply ScalarTypes_has_true in H. simpl in H.
  destruct H as [<-|[<-|[<-|[<-|[<-|[]]]]]]; reflexivity.
Qed.

(** ** Columns: what [parseFieldNode] returns *)



Lemma finishColumn_Ok f array type references c :
  finishColumn f array type references = Ok c ->
  col_type c = type /\ col_array c = array /\ col_references c = references.
Proof.
  unfold finishColumn. intros H.
  apply bind_Ok in H as [file [_ H]]. apply bind_Ok in H as [files [_ H]].
  injection H as <-. auto.
Qed.

(** [parseFieldNode] as its steps, with the closing assertion passed. *)
Lemma parseFieldNode_steps ctx T f refFieldName ft classified type references :
  validateDirectives f FIELD_DIRECTIVES = Ok tt ->
  referencesField f = Ok refFieldName ->
  unwrapType f = Ok ft ->
  parseFieldNode_classify ctx T f ft = Ok classified ->
  parseFieldNode_ref ctx f refFieldName classified = Ok (type, references) ->
  isColumnType type = true ->
  parseFieldNode ctx T f = finishColumn f (ft_array ft) type references.
Proof.
  intros Hv Hr Hu Hc Hf Ht. unfold parseFieldNode, finishColumn.
  rewrite Hv, Hr, Hu. simpl. rewrite Hc. simpl. rewrite Hf. simpl.
  rewrite Ht. reflexivity.
Qed.

(** A field without a [ref] directive has no referenced column. *)
Lemma referencesField_None f :
  findDirective f (NAME DIRECTIVE_REF) = None -> referencesField f = Ok None.
Proof. unfold referencesField. now intros ->. Qed.

(** ** Self references (C5) *)

(** C5. A field of table [T] whose unwrapped base name is [T] and that has
    no [ref] directive resolves, whenever the rest of the field is accepted,
    to a column of type [row] whose references name [T] and no column; this
    holds for every name [T], the scalar names and [rid] included, because
    the test against the table name is the first of the classification. *)
Theorem C5_self_reference (ctx : Context) (T : string)
    (f : FieldDefinitionNode) (ft : FieldType) :
  unwrapType f = Ok ft ->
  ft_name ft = T ->
  findDirective f (NAME DIRECTIVE_REF) = None ->
  parseFieldNode ctx T f
  = (validateDirectives f FIELD_DIRECTIVES ;;;
     finishColumn f (ft_array ft) "row"
       (Some {| ref_table := T; ref_column := None |}))
  /\ forall c, parseFieldNode ctx T f = Ok c ->
       col_type c = "row"
       /\ col_references c = Some {| ref_table := T; ref_column := None |}.
Proof.
  intros Hu Hn Hd.
  assert (E : parseFieldNode ctx T f
    = (validateDirectives f FIELD_DIRECTIVES ;;;
       finishColumn f (ft_array ft) "row"
         (Some {| ref_table := T; ref_column := None |}))).
  { unfold parseFieldNode, finishColumn.
    destruct (validateDirectives f FIELD_DIRECTIVES) as [[]|e]; simpl; [|reflexivity].
    rewrite (referencesField_None f Hd), Hu. simpl.
    unfold parseFieldNode_classify. rewrite Hn, String.eqb_refl. reflexivity. }
  split; [exact E|].
  intros c Hc. rewrite E in Hc. apply bind_Ok in Hc as [[] [_ Hc]].
  apply finishColumn_Ok in Hc. tauto.
Qed.

Lemma C5_self_reference_witness :
  parseFieldNode Examples.noContext "i32"
    (Examples.plain "parent" (ListType (NamedType "i32")))
  = Ok (makeColumn (Examples.plain "parent" (ListType (NamedType "i32")))
          true "row" (Some {| ref_table := "i32"; ref_column := None |})
          None None).
Proof.
  exact (proj1 (C5_self_reference Examples.noContext "i32"
                  (Examples.plain "parent" (ListType (NamedType "i32")))
                  {| ft_array := true; ft_name := "i32" |}
                  eq_refl eq_refl eq_refl)).
Defined.

(** ** Declared types with the placeholder *)

Lemma unwrapType_list_placeholder f :
  field_type f = ListType (NamedType "_") ->
  unwrapType f = Ok {| ft_array := true; ft_name := "_" |}.
Proof. unfold unwrapType. now intros ->. Qed.

Lemma unwrapType_bare_placeholder f :
  field_type f = NamedType "_" ->
  unwrapType f = throwAt MSG_PLACEHOLDER (AtType (NamedType "_")).
Proof. unfold unwrapType. now intros ->. Qed.

(** The block of the [ref] directive keeps a classification without
    references only when it is skipped. *)
Lemma parseFieldNode_ref_no_references ctx f refFieldName type resolved :
  parseFieldNode_ref ctx f refFieldName (type, None) = Ok resolved ->
  resolved = (type, None).
Proof.
  unfold parseFieldNode_ref. destruct refFieldName as [x|]; [|congruence].
  destruct (truthy x); simpl; congruence.
Qed.

(** ** Enumerators (C8) *)

Lemma includes_app enumerators enumerators' name :
  includes (enumerators ++ enumerators') name
  = includes enumerators name || includes enumerators' name.
Proof. unfold includes. apply existsb_app. Qed.

Lemma includes_enumerators names name :
  name <> "_" ->
  includes (map enumeratorOf names) name = true <-> In name names.
Proof.
  intros Hn. unfold includes. rewrite existsb_exists. split.
  - intros [e [He Hs]]. apply in_map_iff in He as [m [<- Hm]].
    unfold enumeratorOf in Hs. destruct (String.eqb m "_"); [discriminate|].
    apply String.eqb_eq in Hs. now subst.
  - intros H. exists (Some name). split.
    + apply in_map_iff. exists name. split; [|exact H].
      unfold enumeratorOf. now destruct (String.eqb_spec name "_").
    + apply String.eqb_refl.
Qed.

(** The loop over the values collects one enumerator for each name as long
    as no name other than the placeholder comes twice. *)
Lemma forOf_pushEnumerator names : forall enumerators,
  NoDup (namedValues names) ->
  (forall n, In n (namedValues names) -> includes enumerators n = false) ->
  forOf pushEnumerator names enumerators
  = Ok (enumerators ++ map enumeratorOf names).
Proof.
  induction names as [|n names IH]; intros acc Hnd Hfresh; simpl.
  - now rewrite app_nil_r.
  - unfold pushEnumerator at 1, enumeratorOf at 1. simpl in Hnd, Hfresh.
    destruct (String.eqb n "_") eqn:En; simpl in *.
    + rewrite IH; [now rewrite <- app_assoc | exact Hnd |].
      intros m Hm. rewrite includes_app, (Hfresh m Hm). reflexivity.
    + rewrite (Hfresh n (or_introl eq_refl)). simpl.
      inversion Hnd as [|? ? Hnotin Hnd']; subst.
      rewrite IH; [now rewrite <- app_assoc | exact Hnd' |].
      intros m Hm. rewrite includes_app, (Hfresh m (or_intror Hm)). simpl.
      destruct (String.eqb_spec n m) as [->|_]; [contradiction | reflexivity].
Qed.

Lemma parseEnumNode_steps e indexing :
  validateDirectives e [DIRECTIVE_ENUM_INDEXING] = Ok tt ->
  getIndexingBase e = Ok indexing ->
  parseEnumNode e
  = (enumerators <- forOf pushEnumerator (enum_values e) [] ;;
     Ok {| enm_name := enum_name e;
           enm_indexing := indexing;
           enm_enumerators := collapseEnumerators enumerators |}).
Proof.
  intros Hv Hi. unfold parseEnumNode. rewrite Hv. cbn [bind]. rewrite Hi.
  destruct (findDirective e (NAME DIRECTIVE_ENUM_INDEXING)) eqn:Hd; [reflexivity|].
  unfold getIndexingBase in Hi. rewrite Hd in Hi. discriminate.
Qed.

(** C8. Once the [indexing] directive of an enumeration is accepted: when no
    name other than [_] comes twice, the enumerators are the names in
    order, with a null slot for each [_], and a sequence of exactly one
    null slot becomes the empty sequence while any other sequence is kept;
    when a name other than [_] equals a name collected before it, the
    enumeration fails at that first repeated name with the error of the
    duplicate enumerator. *)
Theorem C8_enumerators (e : EnumTypeDefinitionNode) (indexing : Z) :
  validateDirectives e [DIRECTIVE_ENUM_INDEXING] = Ok tt ->
  getIndexingBase e = Ok indexing ->
  (NoDup (namedValues (enum_values e)) ->
     parseEnumNode e
     = Ok {| enm_name := enum_name e;
             enm_indexing := indexing;
             enm_enumerators :=
               collapseEnumerators (map enumeratorOf (enum_values e)) |})
  /\ (forall pre n post,
        enum_values e = pre ++ n :: post ->
        NoDup (namedValues pre) -> n <> "_" -> In n pre ->
        parseEnumNode e
        = throwAt (template ["Duplicate enumerator "; quoted n; "."]) (AtName n))
  /\ collapseEnumerators [None] = []
  /\ (forall enumerators,
        enumerators <> [None] -> collapseEnumerators enumerators = enumerators).
Proof.
  intros Hv Hi. rewrite (parseEnumNode_steps e indexing Hv Hi).
  split; [|split; [|split]].
  - intros Hnd. rewrite forOf_pushEnumerator; [reflexivity | exact Hnd |].
    intros n _. reflexivity.
  - intros pre n post Hvals Hnd Hn Hin. rewrite Hvals, forOf_app.
    rewrite forOf_pushEnumerator; [|exact Hnd | intros m _; reflexivity].
    simpl. unfold pushEnumerator at 1.
    destruct (String.eqb_spec n "_") as [E|_]; [contradiction|].
    apply (includes_enumerators pre n Hn) in Hin. rewrite Hin. reflexivity.
  - reflexivity.
  - intros l Hl. destruct l as [|[s|] [|x l]]; try reflexivity. congruence.
Qed.

Lemma C8_enumerators_witness :
  parseEnumNode (mkEnumType "E" [Examples.indexing 0] ["_"; "A"; "A"])
  = throwAt (template ["Duplicate enumerator "; quoted "A"; "."]) (AtName "A")
  /\ parseEnumNode (mkEnumType "E" [Examples.indexing 1] ["_"])
     = Ok {| enm_name := "E"; enm_indexing := 1; enm_enumerators := [] |}
  /\ parseEnumNode (mkEnumType "E" [Examples.indexing 0] ["_"; "A"; "_"; "B"])
     = Ok {| enm_name := "E"; enm_indexing := 0;
             enm_enumerators := [None; Some "A"; None; Some "B"] |}.
Proof.
  split; [|split].
  - apply (proj1 (proj2 (C8_enumerators
             (mkEnumType "E" [Examples.indexing 0] ["_"; "A"; "A"]) 0
             eq_refl eq_refl)) ["_"; "A"] "A" []).
    + reflexivity.
    + simpl. constructor; [intros [] | constructor].
    + discriminate.
    + simpl. auto.
  - apply (proj1 (C8_enumerators
             (mkEnumType "E" [Examples.indexing 1] ["_"]) 1
             eq_refl eq_refl)).
    simpl. constructor.
  - apply (proj1 (C8_enumerators
             (mkEnumType "E" [Examples.indexing 0] ["_"; "A"; "_"; "B"]) 0
             eq_refl eq_refl)).
    simpl. constructor; [|constructor; [intros [] | constructor]].
    simpl. intros [H|[]]. discriminate H.
Defined.

(** ** More than one argument of the right name (C9) *)

Lemma refArguments_loop (args : list ArgumentNode) :
  forEach (fun arg =>
    if String.eqb (arg_name arg) "column" then
      match arg_value arg with
      | StringValue _ => Ok tt
      | v => throwAt "String expected." (AtValue v)
      end
    else unknownArgument arg) args = Ok tt
  <-> Forall refArgument args.
Proof.
  unfold forEach, refArgument. induction args as [|b l IH]; simpl.
  - split; auto.
  - destruct (String.eqb_spec (arg_name b) "column") as [Hb|Hb].
    + destruct (arg_value b) eqn:Ev; simpl.
      2-8: split; [discriminate|];
           intros HF; inversion HF as [|? ? [_ [s Hs]] _]; congruence.
      rewrite IH. split.
      * intros HF. constructor; [split; [exact Hb | eauto] | exact HF].
      * intros HF. now inversion HF.
    + simpl. split; [discriminate|].
      intros HF. inversion HF as [|? ? [Hn _] _]. contradiction.
Qed.

(** What the validation of [ref] accepts: any argument list that is not
    empty and whose every argument is named [column] and is a string. *)
Lemma DIRECTIVE_REF_validate_Ok (d : DirectiveNode) :
  validate DIRECTIVE_REF d = Ok tt
  <-> dir_arguments d <> [] /\ Forall refArgument (dir_arguments d).
Proof.
  unfold DIRECTIVE_REF, validate.
  destruct (dir_arguments d) as [|a args] eqn:E.
  - simpl. split; [discriminate | intros [H _]; congruence].
  - cbn [no_length]. rewrite refArguments_loop. split.
    + intros H. split; [discriminate | exact H].
    + tauto.
Qed.

(** C9. The validation of [ref] lets an argument list with two [column]
    arguments through, and the field then fails the assertion of
    [referencesField] instead of a schema error; [file], [files],
    [indexing] and [tags] do the same with their argument. *)
Theorem C9_repeated_argument :
  validate DIRECTIVE_REF
    (Examples.twice "ref" "column" (StringValue "a") (StringValue "b")) = Ok tt
  /\ (forall ctx T,
        parseFieldNode ctx T
          (Examples.annotated "f" (NamedType "B")
             [Examples.twice "ref" "column" (StringValue "a") (StringValue "b")])
        = Throw (AssertionError AssertRefArgs))
  /\ readSchemaSources parsed
       [Examples.doc
          [Examples.table "A"
             [Examples.annotated "f" (NamedType "B")
                [Examples.twice "ref" "column" (StringValue "a") (StringValue "b")]];
           Examples.table "B"
             [Examples.annotated "a" (NamedType "i32") [Examples.unique];
              Examples.annotated "b" (NamedType "i32") [Examples.unique]]]]
     = Throw (AssertionError AssertRefArgs)
  /\ (validate DIRECTIVE_FILE
        (Examples.twice "file" "ext" (StringValue "a") (StringValue "b")) = Ok tt
      /\ getFileExtension
           (Examples.annotated "f" (NamedType "string")
              [Examples.twice "file" "ext" (StringValue "a") (StringValue "b")])
         = Throw (AssertionError AssertFileArgs))
  /\ (validate DIRECTIVE_FILES_GROUP
        (Examples.twice "files" "ext" (ListValue []) (ListValue [])) = Ok tt
      /\ getFileGroupExtensions
           (Examples.annotated "f" (NamedType "string")
              [Examples.twice "files" "ext" (ListValue []) (ListValue [])])
         = Throw (AssertionError AssertFilesArgs))
  /\ (validate DIRECTIVE_ENUM_INDEXING
        (Examples.twice "indexing" "first" (IntValue 0) (IntValue 1)) = Ok tt
      /\ parseEnumNode
           (mkEnumType "E"
              [Examples.twice "indexing" "first" (IntValue 0) (IntValue 1)] ["A"])
         = Throw (AssertionError AssertIndexingArgs))
  /\ (validate DIRECTIVE_TABLE_TAGS
        (Examples.twice "tags" "list" (ListValue [StringValue "x"])
           (ListValue [StringValue "y"])) = Ok tt
      /\ getTags
           (mkObjectType "A"
              [Examples.twice "tags" "list" (ListValue [StringValue "x"])
                 (ListValue [StringValue "y"])] [])
         = Throw (AssertionError AssertTagsArgs)).
Proof.
  repeat split; try reflexivity.
Qed.

(** ** Referenced columns (C2, C3) *)

Lemma unwrapType_Ok f ft :
  unwrapType f = Ok ft ->
  field_type f = (if ft_array ft then ListType (NamedType (ft_name ft))
                  else NamedType (ft_name ft)).
Proof.
  unfold unwrapType.
  destruct (field_type f) as [n|[n|t|t]|t]; simpl; try discriminate.
  - destruct (String.eqb n "_"); simpl; [discriminate|].
    intros H. injection H as <-. reflexivity.
  - rewrite andb_false_r. intros H. injection H as <-. reflexivity.
Qed.

(** The validation of the column that a [ref] directive names, case by
    case, for a target whose declared type is accepted. *)
Lemma findReferencedField_found def x g gt :
  find (fun field => String.eqb (field_name field) x) (obj_fields def) = Some g ->
  unwrapType g = Ok gt ->
  findReferencedField def x
  = if ft_array gt then throwAt MSG_REF_ARRAY (AtType (field_type g))
    else if negb (isUnique g) then throwAt MSG_REF_NOT_UNIQUE (AtField g)
    else if negb (ScalarTypes_has (ft_name gt))
         then throwAt MSG_REF_NON_SCALAR (AtType (field_type g))
         else Ok (Some (ft_name gt)).
Proof. intros Hf Hu. unfold findReferencedField. now rewrite Hf, Hu. Qed.

Lemma findReferencedField_missing def x :
  find (fun field => String.eqb (field_name field) x) (obj_fields def) = None ->
  findReferencedField def x = Ok None.
Proof. intros Hf. unfold findReferencedField. now rewrite Hf. Qed.

(** What [findReferencedField] returns is [undefined] or a scalar name. *)
Lemma findReferencedField_Ok def x found :
  findReferencedField def x = Ok found ->
  match found with
  | Some type =>
      ScalarTypes_has type = true
      /\ exists g, find (fun field => String.eqb (field_name field) x)
                       (obj_fields def) = Some g
  | None => find (fun field => String.eqb (field_name field) x)
                 (obj_fields def) = None
  end.
Proof.
  unfold findReferencedField.
  destruct (find _ (obj_fields def)) as [g|] eqn:Hf.
  - destruct (unwrapType g) as [gt|e]; simpl; [|discriminate].
    destruct (ft_array gt); [discriminate|].
    destruct (isUnique g); simpl; [|discriminate].
    destruct (ScalarTypes_has (ft_name gt)) eqn:Hs; simpl; [|discriminate].
    intros H. injection H as <-. split; [exact Hs | now exists g].
  - intros H. injection H as <-. reflexivity.
Qed.

(** The block of the [ref] directive once its two assertions hold: the
    column is looked up in the field list of the referenced table. *)
Lemma parseFieldNode_ref_lookup ctx f x type references def :
  x <> EmptyString ->
  ref_table references <> EmptyString ->
  JsMap.get (typeDefsMap ctx) (ref_table references) = Some def ->
  parseFieldNode_ref ctx f (Some x) (type, Some references)
  = match findReferencedField def x with
    | Ok (Some found) =>
        Ok (found, Some {| ref_table := ref_table references;
                           ref_column := Some x |})
    | Ok None => Throw (refNotFound f x (ref_table references))
    | Throw cause => Throw (refWrapped f cause)
    end.
Proof.
  intros Hx Ht Hg. unfold parseFieldNode_ref.
  apply truthy_true in Hx. apply truthy_true in Ht.
  rewrite Hx. cbn [snd]. rewrite Ht. cbn [assert_ok bind]. rewrite Hg.
  cbn [bind].
  destruct (findReferencedField def x) as [[found|]|cause] eqn:Hf;
    cbn [bind]; try reflexivity.
  apply findReferencedField_Ok in Hf as [Hs _].
  now rewrite (ScalarTypes_has_truthy _ Hs).
Qed.

Lemma isColumnType_scalar name : ScalarTypes_has name = true -> isColumnType name = true.
Proof. intros H. unfold isColumnType. now rewrite H. Qed.

(** The field of a [ref] directive with the one argument that
    [referencesField] reads. *)
Lemma referencesField_column f d x :
  findDirective f (NAME DIRECTIVE_REF) = Some d ->
  dir_arguments d = [ {| arg_name := "column"; arg_value := StringValue x |} ] ->
  referencesField f = Ok (Some x).
Proof. intros Hd Ha. unfold referencesField. now rewrite Hd, Ha. Qed.

(** [parseFieldNode] up to the block of the [ref] directive. *)
Lemma parseFieldNode_to_ref ctx T f refFieldName ft classified :
  validateDirectives f FIELD_DIRECTIVES = Ok tt ->
  referencesField f = Ok refFieldName ->
  unwrapType f = Ok ft ->
  parseFieldNode_classify ctx T f ft = Ok classified ->
  parseFieldNode ctx T f
  = (resolved <- parseFieldNode_ref ctx f refFieldName classified ;;
     assert_ok AssertColumnType (isColumnType (fst resolved)) ;;;
     finishColumn f (ft_array ft) (fst resolved) (snd resolved)).
Proof.
  intros Hv Hr Hu Hc. unfold parseFieldNode, finishColumn.
  rewrite Hv, Hr, Hu. cbn [bind]. rewrite Hc. reflexivity.
Qed.

(** What the classification leaves in [references]: the table of a self
    reference, a table of the table map, or an enumeration that is in the
    enumeration map and not in the table map. *)
Lemma parseFieldNode_classify_references ctx T f ft type r :
  parseFieldNode_classify ctx T f ft = Ok (type, Some r) ->
  (type = "row" /\ ref_table r = T /\ ft_name ft = T)
  \/ (type = "foreignrow" /\ ref_table r = ft_name ft
      /\ JsMap.has (typeDefsMap ctx) (ft_name ft) = true)
  \/ (type = "enumrow" /\ ref_table r = ft_name ft
      /\ JsMap.has (typeDefsMap ctx) (ft_name ft) = false
      /\ JsMap.has (enumDefsMap ctx) (ft_name ft) = true).
Proof.
  unfold parseFieldNode_classify.
  destruct (String.eqb_spec (ft_name ft) T) as [E|_].
  { intros H. injection H as <- <-. left. auto. }
  destruct (String.eqb (ft_name ft) "rid"); [discriminate|].
  destruct (String.eqb (ft_name ft) "_" && ft_array ft); [discriminate|].
  destruct (negb (ScalarTypes_has (ft_name ft))); [|discriminate].
  destruct (JsMap.has (typeDefsMap ctx) (ft_name ft)) eqn:Ht.
  { intros H. injection H as <- <-. right. left. auto. }
  destruct (JsMap.has (enumDefsMap ctx) (ft_name ft)) eqn:He; [|discriminate].
  intros H. injection H as <- <-. right. right. auto.
Qed.

Lemma parseFieldNode_classify_no_references ctx T f ft type :
  parseFieldNode_classify ctx T f ft = Ok (type, None) ->
  (type = "foreignrow" /\ ft_name ft = "rid")
  \/ (type = "array" /\ ft_name ft = "_" /\ ft_array ft = true)
  \/ (type = ft_name ft /\ ScalarTypes_has type = true).
Proof.
  unfold parseFieldNode_classify.
  destruct (String.eqb (ft_name ft) T); [discriminate|].
  destruct (String.eqb_spec (ft_name ft) "rid") as [E|_].
  { intros H. injection H as <-. auto. }
  destruct (String.eqb_spec (ft_name ft) "_") as [E|_]; cbn [andb].
  - destruct (ft_array ft) eqn:Ha.
    { intros H. injection H as <-. auto. }
    rewrite E. simpl. destruct (JsMap.has (typeDefsMap ctx) "_"); [discriminate|].
    destruct (JsMap.has (enumDefsMap ctx) "_"); discriminate.
  - destruct (ScalarTypes_has (ft_name ft)) eqn:Hs; cbn [negb].
    { intros H. injection H as <-. auto. }
    destruct (JsMap.has (typeDefsMap ctx) (ft_name ft)); [discriminate|].
    destruct (JsMap.has (enumDefsMap ctx) (ft_name ft)); discriminate.
Qed.

Lemma JsMap_has_get {V : Type} (m : JsMap.t V) (k : string) :
  JsMap.has m k = true <-> exists v, JsMap.get m k = Some v.
Proof.
  unfold JsMap.has. destruct (JsMap.get m k) as [v|].
  - split; eauto.
  - split; [discriminate | intros [v H]; discriminate].
Qed.

Lemma JsMap_has_false {V : Type} (m : JsMap.t V) (k : string) :
  JsMap.has m k = false <-> JsMap.get m k = None.
Proof.
  unfold JsMap.has. destruct (JsMap.get m k) as [v|]; split; congruence.
Qed.

(** The assertions that the end of [parseFieldNode] can fail are those of
    the [file] and [files] directives. *)
Lemma finishColumn_assertion f array type references site :
  finishColumn f array type references = Throw (AssertionError site) ->
  site = AssertFileArgs \/ site = AssertFilesArgs \/ site = AssertFilesString.
Proof.
  unfold finishColumn. intros H. apply bind_Throw in H as [H|[file [_ H]]].
  - unfold getFileExtension in H.
    destruct (findDirective f (NAME DIRECTIVE_FILE)) as [d|]; [|discriminate].
    destruct (dir_arguments d) as [|a [|b l]]; try (injection H as <-; auto).
    destruct (arg_value a); try (injection H as <-; auto).
    destruct (String.eqb (arg_name a) "ext"); simpl in H;
      [discriminate | injection H as <-; auto].
  - apply bind_Throw in H as [H|[files [_ H]]]; [|discriminate].
    unfold getFileGroupExtensions in H.
    destruct (findDirective f (NAME DIRECTIVE_FILES_GROUP)) as [d|]; [|discriminate].
    destruct (dir_arguments d) as [|a [|b l]]; try (injection H as <-; auto).
    destruct (arg_value a) as [| | | | | |values|]; try (injection H as <-; auto).
    destruct (String.eqb (arg_name a) "ext"); simpl in H;
      [|injection H as <-; auto].
    apply bind_Throw in H as [H|[exts [_ H]]]; [|discriminate].
    right. right. clear -H. induction values as [|v values IH]; simpl in H.
    + discriminate.
    + destruct v; try (injection H as <-; reflexivity).
      simpl in H. apply bind_Throw in H as [H|[ys [_ H]]]; [auto | discriminate].
Qed.

(** C2, as the code has it.  For a field with a [ref] directive that names
    a column: when the classification left in [references] the name of a
    table (a self reference or a [foreignrow] reference to a named table),
    neither assertion of the resolution fails, the column is looked up in
    the field list of that table, and every failure of the resolution is a
    schema error; when the classification left the name of an enumeration
    ([enumrow]), the assertion on the referenced definition fails; when it
    left no references, the assertion on [references.table] fails. *)
Theorem C2_ref_assertions (ctx : Context) (T : string)
    (f : FieldDefinitionNode) (x : string) (ft : FieldType)
    (type : string) (references : option References) :
  validateDirectives f FIELD_DIRECTIVES = Ok tt ->
  referencesField f = Ok (Some x) ->
  x <> EmptyString ->
  unwrapType f = Ok ft ->
  parseFieldNode_classify ctx T f ft = Ok (type, references) ->
  JsMap.has (typeDefsMap ctx) T = true ->
  T <> EmptyString ->
  ft_name ft <> EmptyString ->
  (forall r, references = Some r -> type = "row" \/ type = "foreignrow" ->
     exists def,
       JsMap.get (typeDefsMap ctx) (ref_table r) = Some def
       /\ parseFieldNode_ref ctx f (Some x) (type, references)
          = match findReferencedField def x with
            | Ok (Some found) =>
                Ok (found, Some {| ref_table := ref_table r; ref_column := Some x |})
            | Ok None => Throw (refNotFound f x (ref_table r))
            | Throw cause => Throw (refWrapped f cause)
            end
       /\ (forall site, parseFieldNode_ref ctx f (Some x) (type, references)
                        <> Throw (AssertionError site))
       /\ parseFieldNode ctx T f <> Throw (AssertionError AssertRefTable)
       /\ parseFieldNode ctx T f <> Throw (AssertionError AssertRefDefNode))
  /\ (type = "enumrow" ->
        parseFieldNode ctx T f = Throw (AssertionError AssertRefDefNode))
  /\ (references = None ->
        parseFieldNode ctx T f = Throw (AssertionError AssertRefTable)).
Proof.
  intros Hv Hr Hx Hu Hc HT HTne Hne.
  pose proof (parseFieldNode_to_ref ctx T f _ _ _ Hv Hr Hu Hc) as E.
  split; [|split].
  - intros r -> Hty.
    assert (Hhas : JsMap.has (typeDefsMap ctx) (ref_table r) = true
                   /\ ref_table r <> EmptyString).
    { destruct (parseFieldNode_classify_references ctx T f ft type r Hc)
        as [[_ [-> _]]|[[_ [-> H]]|[-> _]]]; auto.
      destruct Hty; discriminate. }
    destruct Hhas as [Hhas Htne].
    apply JsMap_has_get in Hhas as [def Hdef]. exists def.
    pose proof (parseFieldNode_ref_lookup ctx f x type r def Hx Htne Hdef) as L.
    split; [exact Hdef|]. split; [exact L|].
    assert (Hblock : forall site,
              parseFieldNode_ref ctx f (Some x) (type, Some r)
              <> Throw (AssertionError site)).
    { intros site. rewrite L.
      destruct (findReferencedField def x) as [[found|]|cause]; discriminate. }
    split; [exact Hblock|].
    assert (Hrun : forall site, site = AssertRefTable \/ site = AssertRefDefNode ->
              parseFieldNode ctx T f <> Throw (AssertionError site)).
    { intros site Hsite Hthrow. rewrite E in Hthrow.
      apply bind_Throw in Hthrow as [Hthrow|[resolved [_ Hthrow]]].
      - exact (Hblock site Hthrow).
      - apply bind_Throw in Hthrow as [Hthrow|[[] [_ Hthrow]]].
        + unfold assert_ok in Hthrow.
          destruct (isColumnType (fst resolved)); [discriminate|].
          injection Hthrow as <-. destruct Hsite; discriminate.
        + apply finishColumn_assertion in Hthrow.
          destruct Hsite; subst site; destruct Hthrow as [?|[?|?]]; discriminate. }
    split; apply Hrun; auto.
  - intros ->. destruct references as [r|].
    + destruct (parseFieldNode_classify_references ctx T f ft "enumrow" r Hc)
        as [[Hty _]|[[Hty _]|[_ [Htab [Hhas _]]]]]; try discriminate.
      rewrite E. unfold parseFieldNode_ref.
      apply truthy_true in Hx. rewrite Hx. cbn [snd]. rewrite Htab.
      apply truthy_true in Hne. rewrite Hne. cbn [assert_ok bind].
      apply JsMap_has_false in Hhas. rewrite Hhas. reflexivity.
    + destruct (parseFieldNode_classify_no_references ctx T f ft "enumrow" Hc)
        as [[Hty _]|[[Hty _]|[_ Hty]]]; discriminate.
  - intros ->. rewrite E. unfold parseFieldNode_ref.
    apply truthy_true in Hx. rewrite Hx. reflexivity.
Qed.

Lemma C2_ref_assertions_witness :
  parseFieldNode Examples.itemContext "Item"
    (Examples.annotated "BaseId" (ListType (NamedType "Base")) [Examples.ref "Id"])
  <> Throw (AssertionError AssertRefDefNode)
  /\ parseFieldNode Examples.itemContext "Item"
       (Examples.annotated "Kind" (NamedType "Rarity") [Examples.ref "Normal"])
     = Throw (AssertionError AssertRefDefNode)
  /\ parseFieldNode Examples.itemContext "Item"
       (Examples.annotated "Count" (NamedType "i32") [Examples.ref "Id"])
     = Throw (AssertionError AssertRefTable).
Proof.
  split; [|split].
  - destruct (proj1 (C2_ref_assertions Examples.itemContext "Item"
        (Examples.annotated "BaseId" (ListType (NamedType "Base")) [Examples.ref "Id"])
        "Id" {| ft_array := true; ft_name := "Base" |} "foreignrow"
        (Some {| ref_table := "Base"; ref_column := None |})
        eq_refl eq_refl ltac:(discriminate) eq_refl eq_refl eq_refl
        ltac:(discriminate) ltac:(discriminate))
        {| ref_table := "Base"; ref_column := None |} eq_refl (or_intror eq_refl))
      as [def [_ [_ [_ [_ H]]]]].
    exact H.
  - exact (proj1 (proj2 (C2_ref_assertions Examples.itemContext "Item"
        (Examples.annotated "Kind" (NamedType "Rarity") [Examples.ref "Normal"])
        "Normal" {| ft_array := false; ft_name := "Rarity" |} "enumrow"
        (Some {| ref_table := "Rarity"; ref_column := None |})
        eq_refl eq_refl ltac:(discriminate) eq_refl eq_refl eq_refl
        ltac:(discriminate) ltac:(discriminate))) eq_refl).
  - exact (proj2 (proj2 (C2_ref_assertions Examples.itemContext "Item"
        (Examples.annotated "Count" (NamedType "i32") [Examples.ref "Id"])
        "Id" {| ft_array := false; ft_name := "i32" |} "i32" None
        eq_refl eq_refl ltac:(discriminate) eq_refl eq_refl eq_refl
        ltac:(discriminate) ltac:(discriminate))) eq_refl).
Defined.

(** The claim C2 as stated fails for a field whose type is an enumeration:
    its [references.table] is not null, and the resolution of its [ref]
    directive fails an assertion. *)
Lemma C2_counterexample :
  parseFieldNode_classify Examples.itemContext "Item"
    (Examples.annotated "Kind" (NamedType "Rarity") [Examples.ref "Normal"])
    {| ft_array := false; ft_name := "Rarity" |}
  = Ok ("enumrow", Some {| ref_table := "Rarity"; ref_column := None |})
  /\ parseFieldNode_ref Examples.itemContext
       (Examples.annotated "Kind" (NamedType "Rarity") [Examples.ref "Normal"])
       (Some "Normal")
       ("enumrow", Some {| ref_table := "Rarity"; ref_column := None |})
     = Throw (AssertionError AssertRefDefNode)
  /\ readSchemaSources parsed
       [Examples.doc
          [Examples.table "Item"
             [Examples.annotated "Kind" (NamedType "Rarity")
                [Examples.ref "Normal"]];
           EnumTypeDefinition Examples.Rarity]]
     = Throw (AssertionError AssertRefDefNode).
Proof. repeat split. Qed.

(** C3, as the code has it.  For a field whose [ref] directive names a
    column and whose reference target is a table: every failure of the
    resolution is an error attributed to the [ref] directive; a failure
    raised while the target column is validated is carried as the wrapped
    original error; when the table has no column of that name, the error is
    the one of the missing column and wraps nothing. *)
Theorem C3_ref_errors (ctx : Context) (T : string) (f : FieldDefinitionNode)
    (d : DirectiveNode) (x : string) (ft : FieldType) (type : string)
    (r : References) (def : ObjectTypeDefinitionNode) :
  validateDirectives f FIELD_DIRECTIVES = Ok tt ->
  findDirective f (NAME DIRECTIVE_REF) = Some d ->
  dir_arguments d = [ {| arg_name := "column"; arg_value := StringValue x |} ] ->
  x <> EmptyString ->
  unwrapType f = Ok ft ->
  parseFieldNode_classify ctx T f ft = Ok (type, Some r) ->
  ref_table r <> EmptyString ->
  JsMap.get (typeDefsMap ctx) (ref_table r) = Some def ->
  (forall cause, findReferencedField def x = Throw cause ->
     parseFieldNode ctx T f
     = Throw (GraphQLError MSG_REF_WRAPPED (Some (AtDirective d)) (Some cause)))
  /\ (find (fun field => String.eqb (field_name field) x) (obj_fields def) = None ->
      parseFieldNode ctx T f
      = Throw (GraphQLError
                 (template ["Can't find column "; quoted x;
                            " in table "; quoted (ref_table r); "."])
                 (Some (AtDirective d)) None))
  /\ (forall e, parseFieldNode_ref ctx f (Some x) (type, Some r) = Throw e ->
        parseFieldNode ctx T f = Throw e
        /\ nodesOf e = Some (AtDirective d)
        /\ (originalErrorOf e = None
            <-> find (fun field => String.eqb (field_name field) x)
                     (obj_fields def) = None)).
Proof.
  intros Hv Hd Ha Hx Hu Hc Ht Hg.
  pose proof (parseFieldNode_to_ref ctx T f _ _ _ Hv
                (referencesField_column f d x Hd Ha) Hu Hc) as E.
  pose proof (parseFieldNode_ref_lookup ctx f x type r def Hx Ht Hg) as L.
  unfold refWrapped, refNotFound in L. rewrite Hd in L. cbn [option_map] in L.
  split; [|split].
  - intros cause Hcause. rewrite E, L, Hcause. reflexivity.
  - intros Hnone. rewrite E, L, (findReferencedField_missing def x Hnone).
    reflexivity.
  - intros e He. split; [now rewrite E, He|].
    rewrite L in He.
    destruct (findReferencedField def x) as [[found|]|cause] eqn:Hf.
    + discriminate.
    + injection He as <-. apply findReferencedField_Ok in Hf.
      simpl. split; [reflexivity | tauto].
    + injection He as <-. simpl. split; [reflexivity|].
      split; [discriminate|]. intros Hnone.
      rewrite (findReferencedField_missing def x Hnone) in Hf. discriminate.
Qed.

Lemma C3_ref_errors_witness :
  parseFieldNode Examples.itemContext "Item"
    (Examples.annotated "BaseName" (NamedType "Base") [Examples.ref "Name"])
  = Throw (GraphQLError MSG_REF_WRAPPED
             (Some (AtDirective (Examples.ref "Name")))
             (Some (GraphQLError MSG_REF_NOT_UNIQUE
                      (Some (AtField (Examples.plain "Name" (NamedType "string"))))
                      None)))
  /\ parseFieldNode Examples.itemContext "Item"
       (Examples.annotated "BaseKey" (NamedType "Base") [Examples.ref "Key"])
     = Throw (GraphQLError
                (template ["Can't find column "; quoted "Key";
                           " in table "; quoted "Base"; "."])
                (Some (AtDirective (Examples.ref "Key"))) None).
Proof.
  split.
  - apply (proj1 (C3_ref_errors Examples.itemContext "Item"
        (Examples.annotated "BaseName" (NamedType "Base") [Examples.ref "Name"])
        (Examples.ref "Name") "Name" {| ft_array := false; ft_name := "Base" |}
        "foreignrow" {| ref_table := "Base"; ref_column := None |} Examples.Base
        eq_refl eq_refl eq_refl ltac:(discriminate) eq_refl eq_refl
        ltac:(discriminate) eq_refl)).
    reflexivity.
  - apply (proj1 (proj2 (C3_ref_errors Examples.itemContext "Item"
        (Examples.annotated "BaseKey" (NamedType "Base") [Examples.ref "Key"])
        (Examples.ref "Key") "Key" {| ft_array := false; ft_name := "Base" |}
        "foreignrow" {| ref_table := "Base"; ref_column := None |} Examples.Base
        eq_refl eq_refl eq_refl ltac:(discriminate) eq_refl eq_refl
        ltac:(discriminate) eq_refl))).
    reflexivity.
Defined.

(** The claim C3 as stated fails when the referenced table has no column of
    the given name: the error is attributed to the [ref] directive but
    wraps no original error. *)
Lemma C3_counterexample :
  parseFieldNode Examples.itemContext "Item"
    (Examples.annotated "BaseKey" (NamedType "Base") [Examples.ref "Key"])
  = Throw (GraphQLError
             (template ["Can't find column "; quoted "Key";
                        " in table "; quoted "Base"; "."])
             (Some (AtDirective (Examples.ref "Key"))) None)
  /\ ~ (forall ctx T f e,
          parseFieldNode ctx T f = Throw e ->
          nodesOf e = option_map AtDirective (findDirective f (NAME DIRECTIVE_REF)) ->
          findDirective f (NAME DIRECTIVE_REF) <> None ->
          exists cause, originalErrorOf e = Some cause).
Proof.
  split; [reflexivity|].
  intros H.
  destruct (H Examples.itemContext "Item"
              (Examples.annotated "BaseKey" (NamedType "Base") [Examples.ref "Key"])
              _ eq_refl eq_refl ltac:(discriminate)) as [cause Hcause].
  discriminate Hcause.
Qed.

(** ** The closed set of column types (C4) *)

Lemma isColumnType_In name : isColumnType name = true <-> In name ColumnTypes.
Proof.
  unfold isColumnType, ColumnTypes. rewrite !orb_true_iff, ScalarTypes_has_true.
  rewrite !String.eqb_eq. simpl. intuition congruence.
Qed.

Lemma parseFieldNode_classify_type ctx T f ft type references :
  parseFieldNode_classify ctx T f ft = Ok (type, references) ->
  isColumnType type = true.
Proof.
  intros H. destruct references as [r|].
  - destruct (parseFieldNode_classify_references ctx T f ft type r H)
      as [[-> _]|[[-> _]|[-> _]]]; reflexivity.
  - destruct (parseFieldNode_classify_no_references ctx T f ft type H)
      as [[-> _]|[[-> _]|[_ Hs]]]; try reflexivity.
    now apply isColumnType_scalar.
Qed.

(** The block of the [ref] directive either leaves the classification as it
    is or replaces the type by a scalar name and names the column. *)
Lemma parseFieldNode_ref_Ok ctx f refFieldName type references resolved :
  parseFieldNode_ref ctx f refFieldName (type, references) = Ok resolved ->
  resolved = (type, references)
  \/ exists x r, refFieldName = Some x /\ references = Some r
       /\ ScalarTypes_has (fst resolved) = true
       /\ snd resolved = Some {| ref_table := ref_table r; ref_column := Some x |}.
Proof.
  unfold parseFieldNode_ref. destruct refFieldName as [x|]; [|left; congruence].
  destruct (truthy x); [|left; congruence]. cbn [snd].
  destruct references as [r|]; [|discriminate].
  destruct (truthy (ref_table r)); [|discriminate]. cbn [assert_ok bind].
  destruct (JsMap.get (typeDefsMap ctx) (ref_table r)) as [def|]; [|discriminate].
  cbn [bind].
  destruct (findReferencedField def x) as [[found|]|cause] eqn:Hf;
    cbn [bind]; try discriminate.
  apply findReferencedField_Ok in Hf as [Hs _].
  rewrite (ScalarTypes_has_truthy _ Hs). intros H. injection H as <-.
  right. exists x, r. auto.
Qed.

Lemma parseFieldNode_ref_type ctx f refFieldName type references resolved :
  parseFieldNode_ref ctx f refFieldName (type, references) = Ok resolved ->
  isColumnType type = true ->
  isColumnType (fst resolved) = true.
Proof.
  intros H Ht. apply parseFieldNode_ref_Ok in H as [->|[x [r [_ [_ [Hs _]]]]]].
  - exact Ht.
  - now apply isColumnType_scalar.
Qed.

Lemma unwrapType_array f ft :
  unwrapType f = Ok ft -> ft_array ft = isListType (field_type f).
Proof.
  intros H. apply unwrapType_Ok in H. rewrite H. now destruct (ft_array ft).
Qed.

(** What a resolved column keeps of its field. *)
Lemma parseFieldNode_Ok ctx T f c :
  parseFieldNode ctx T f = Ok c ->
  In (col_type c) ColumnTypes /\ col_array c = isListType (field_type f).
Proof.
  unfold parseFieldNode. intros H.
  apply bind_Ok in H as [[] [_ H]].
  apply bind_Ok in H as [refFieldName [_ H]].
  apply bind_Ok in H as [ft [Hu H]].
  apply bind_Ok in H as [[type references] [Hc H]].
  apply bind_Ok in H as [resolved [Hr H]].
  apply bind_Ok in H as [[] [Ha H]].
  apply (finishColumn_Ok f) in H. destruct H as [-> [-> _]].
  split; [|now apply unwrapType_array].
  apply isColumnType_In.
  apply (parseFieldNode_ref_type ctx f refFieldName type references resolved Hr).
  exact (parseFieldNode_classify_type ctx T f ft type references Hc).
Qed.

(** *** Which assertions can fail *)

Lemma avoids_Ok {A : Type} site (a : A) : avoids site (Ok a).
Proof. discriminate. Qed.

Lemma avoids_throwAt {A : Type} site message node :
  avoids site (throwAt (A := A) message node).
Proof. discriminate. Qed.

Lemma avoids_GraphQLError {A : Type} site message nodes cause :
  avoids site (Throw (A := A) (GraphQLError message nodes cause)).
Proof. discriminate. Qed.

Lemma avoids_other {A : Type} site site' :
  site' <> site -> avoids site (Throw (A := A) (AssertionError site')).
Proof. intros H E. injection E as E. contradiction. Qed.

Lemma avoids_assert_ok site site' cond :
  site' <> site -> avoids site (assert_ok site' cond).
Proof. intros H. unfold assert_ok. destruct cond; [discriminate | now apply avoids_other]. Qed.

Lemma avoids_bind {A B : Type} site (m : result A) (k : A -> result B) :
  avoids site m -> (forall a, m = Ok a -> avoids site (k a)) ->
  avoids site (bind m k).
Proof.
  unfold avoids. intros Hm Hk H. apply bind_Throw in H as [H|[a [Ha H]]].
  - contradiction.
  - exact (Hk a Ha H).
Qed.

Lemma avoids_forOf {A S : Type} site (body : S -> A -> result S) xs :
  (forall s x, In x xs -> avoids site (body s x)) ->
  forall s, avoids site (forOf body xs s).
Proof.
  induction xs as [|x xs IH]; intros Hb s; simpl.
  - apply avoids_Ok.
  - apply avoids_bind; [apply Hb; now left|].
    intros s' _. apply IH. intros s'' y Hy. apply Hb. now right.
Qed.

Lemma avoids_forEach {A : Type} site (body : A -> result unit) xs :
  (forall x, In x xs -> avoids site (body x)) -> avoids site (forEach body xs).
Proof. intros H. unfold forEach. apply avoids_forOf. intros _ x. apply H. Qed.

Lemma avoids_mapM {A B : Type} site (f : A -> result B) xs :
  (forall x, In x xs -> avoids site (f x)) -> avoids site (mapM f xs).
Proof.
  induction xs as [|x xs IH]; intros Hf; simpl.
  - apply avoids_Ok.
  - apply avoids_bind; [apply Hf; now left|]. intros y _.
    apply avoids_bind; [apply IH; intros z Hz; apply Hf; now right|].
    intros ys _. apply avoids_Ok.
Qed.

(** Breaks a goal [avoids site e] down along the shape of [e]. *)
Ltac avoid :=
  repeat first
    [ apply avoids_Ok
    | apply avoids_throwAt
    | apply avoids_GraphQLError
    | apply avoids_other; discriminate
    | apply avoids_assert_ok; discriminate
    | apply avoids_bind; [|intros ? ?]
    | apply avoids_forEach; intros ? ?
    | apply avoids_mapM; intros ? ?
    | match goal with
      | |- avoids _ (if ?b then _ else _) => destruct b
      | |- avoids _ (match ?x with _ => _ end) => destruct x
      end ].

(** The validation of a directive throws schema errors only. *)
Lemma validate_avoids site spec d :
  In spec [DIRECTIVE_REF; DIRECTIVE_UNIQUE; DIRECTIVE_LOCALIZED; DIRECTIVE_FILE;
           DIRECTIVE_FILES_GROUP; DIRECTIVE_ENUM_INDEXING; DIRECTIVE_TABLE_TAGS] ->
  avoids site (validate spec d).
Proof.
  simpl. intros [<-|[<-|[<-|[<-|[<-|[<-|[<-|[]]]]]]]];
    cbn [validate DIRECTIVE_REF DIRECTIVE_UNIQUE DIRECTIVE_LOCALIZED
         DIRECTIVE_FILE DIRECTIVE_FILES_GROUP DIRECTIVE_ENUM_INDEXING
         DIRECTIVE_TABLE_TAGS]; unfold unknownArgument, eachString; avoid.
Qed.

Lemma validateDirectives_avoids {N : Type} `{HasDirectives N} site (node : N) specs :
  incl specs [DIRECTIVE_REF; DIRECTIVE_UNIQUE; DIRECTIVE_LOCALIZED; DIRECTIVE_FILE;
              DIRECTIVE_FILES_GROUP; DIRECTIVE_ENUM_INDEXING; DIRECTIVE_TABLE_TAGS] ->
  avoids site (validateDirectives node specs).
Proof.
  intros Hs. unfold validateDirectives. apply avoids_forEach. intros d _.
  destruct (find _ specs) as [spec|] eqn:Hf; [|apply avoids_throwAt].
  apply validate_avoids. apply Hs. now apply find_some in Hf.
Qed.

(** The closing assertion of [parseFieldNode] never fails. *)
Lemma parseFieldNode_avoids ctx T f :
  avoids AssertColumnType (parseFieldNode ctx T f).
Proof.
  unfold parseFieldNode.
  apply avoids_bind.
  { apply validateDirectives_avoids. unfold FIELD_DIRECTIVES.
    intros s Hs. simpl in *. tauto. }
  intros [] _. apply avoids_bind; [unfold referencesField; avoid|].
  intros refFieldName _. apply avoids_bind; [unfold unwrapType; avoid|].
  intros ft _. apply avoids_bind; [unfold parseFieldNode_classify; avoid|].
  intros [type references] Hc. apply avoids_bind.
  { unfold parseFieldNode_ref. avoid. }
  intros resolved Hr. apply avoids_bind.
  - rewrite (parseFieldNode_ref_type ctx f refFieldName type references resolved Hr
               (parseFieldNode_classify_type ctx T f ft type references Hc)).
    apply avoids_Ok.
  - intros [] _. unfold getFileExtension, getFileGroupExtensions. avoid.
Qed.

Lemma readTable_avoids ctx typeNode :
  avoids AssertColumnType (readTable ctx typeNode).
Proof.
  unfold readTable. apply avoids_bind.
  { apply validateDirectives_avoids. intros s Hs. simpl in *. tauto. }
  intros [] _. apply avoids_bind; [unfold getTags; avoid|].
  intros tags _. apply avoids_bind; [|intros; apply avoids_Ok].
  apply avoids_forOf. intros columns f _. unfold pushColumn.
  apply avoids_bind; [apply parseFieldNode_avoids|]. intros c _. avoid.
Qed.

Lemma parseEnumNode_avoids enumNode :
  avoids AssertColumnType (parseEnumNode enumNode).
Proof.
  unfold parseEnumNode. apply avoids_bind.
  { apply validateDirectives_avoids. intros s Hs. simpl in *. tauto. }
  intros [] _.
  destruct (findDirective enumNode (NAME DIRECTIVE_ENUM_INDEXING)) eqn:Hd;
    [|apply avoids_throwAt].
  apply avoids_bind.
  { unfold getIndexingBase. rewrite Hd. avoid. }
  intros indexing _. apply avoids_bind; [|intros; apply avoids_Ok].
  apply avoids_forOf. intros enumerators name _. unfold pushEnumerator. avoid.
Qed.

Lemma readSource_avoids {Source : Type} (parse : Source -> string + DocumentNode)
    site maps source :
  avoids site (readSource parse maps source).
Proof.
  unfold readSource. destruct (parse source) as [message|doc].
  - apply avoids_GraphQLError.
  - apply avoids_forOf. intros maps' def _. unfold addDefinition. avoid.
Qed.

(** *** The reader as two maps *)

(** The two loops of [readSchemaSources] that push are maps. *)
Lemma readSchemaSources_mapM {Source : Type}
    (parse : Source -> string + DocumentNode) (sources : list Source) :
  readSchemaSources parse sources
  = (ctx <- forOf (readSource parse) sources emptyContext ;;
     tables <- mapM (readTable ctx) (JsMap.values (typeDefsMap ctx)) ;;
     enumerations <- mapM parseEnumNode (JsMap.values (enumDefsMap ctx)) ;;
     Ok {| tables := tables; enumerations := enumerations |}).
Proof.
  unfold readSchemaSources, emptyContext.
  destruct (forOf (readSource parse) sources _) as [ctx|e]; [|reflexivity].
  cbn [bind]. rewrite !forOf_push. cbn [app].
  destruct (mapM (readTable ctx) _); [|reflexivity]. cbn [bind].
  destruct (mapM parseEnumNode _); reflexivity.
Qed.

Lemma pushColumn_Ok ctx T columns f columns' :
  pushColumn ctx T columns f = Ok columns' ->
  exists c, parseFieldNode ctx T f = Ok c /\ columns' = columns ++ [c].
Proof.
  unfold pushColumn. intros H. apply bind_Ok in H as [c [Hc H]].
  exists c. split; [exact Hc|].
  destruct (col_name c) as [name|]; [|congruence].
  destruct (existsb _ columns); [discriminate | congruence].
Qed.

Lemma forOf_pushColumn_Ok ctx T fields : forall columns columns',
  forOf (pushColumn ctx T) fields columns = Ok columns' ->
  exists cs, columns' = columns ++ cs
             /\ Forall2 (fun f c => parseFieldNode ctx T f = Ok c) fields cs.
Proof.
  induction fields as [|f fields IH]; intros columns columns' H; simpl in H.
  - injection H as <-. exists []. split; [now rewrite app_nil_r | constructor].
  - apply bind_Ok in H as [columns1 [H1 H]].
    apply pushColumn_Ok in H1 as [c [Hc ->]].
    apply IH in H as [cs [-> Hcs]].
    exists (c :: cs). split; [now rewrite <- app_assoc | now constructor].
Qed.

(** A table that is read has the name of its definition and one column for
    each field, in order. *)
Lemma readTable_Ok ctx typeNode t :
  readTable ctx typeNode = Ok t ->
  tbl_name t = obj_name typeNode
  /\ Forall2 (fun f c => parseFieldNode ctx (obj_name typeNode) f = Ok c)
             (obj_fields typeNode) (tbl_columns t).
Proof.
  unfold readTable. intros H.
  apply bind_Ok in H as [[] [_ H]]. apply bind_Ok in H as [tags [_ H]].
  apply bind_Ok in H as [columns [Hc H]]. injection H as <-.
  apply forOf_pushColumn_Ok in Hc as [cs [-> Hcs]]. auto.
Qed.

(** A run that succeeds has built the two maps and read every table of the
    table map, in the order of the map. *)
Lemma readSchemaSources_Ok {Source : Type}
    (parse : Source -> string + DocumentNode) (sources : list Source) r :
  readSchemaSources parse sources = Ok r ->
  exists ctx,
    forOf (readSource parse) sources emptyContext = Ok ctx
    /\ Forall2 (fun typeNode t => readTable ctx typeNode = Ok t)
               (JsMap.values (typeDefsMap ctx)) (tables r)
    /\ Forall2 (fun enumNode e => parseEnumNode enumNode = Ok e)
               (JsMap.values (enumDefsMap ctx)) (enumerations r).
Proof.
  rewrite readSchemaSources_mapM. intros H.
  apply bind_Ok in H as [ctx [Hctx H]]. apply bind_Ok in H as [ts [Hts H]].
  apply bind_Ok in H as [es [Hes H]]. injection H as <-.
  exists ctx. split; [exact Hctx|]. split; now apply mapM_Ok.
Qed.

Lemma readSchemaSources_avoids {Source : Type}
    (parse : Source -> string + DocumentNode) (sources : list Source) :
  avoids AssertColumnType (readSchemaSources parse sources).
Proof.
  rewrite readSchemaSources_mapM.
  apply avoids_bind; [apply avoids_forOf; intros; apply readSource_avoids|].
  intros ctx _. apply avoids_bind.
  { apply avoids_mapM. intros; apply readTable_avoids. }
  intros ts _. apply avoids_bind.
  { apply avoids_mapM. intros; apply parseEnumNode_avoids. }
  intros; apply avoids_Ok.
Qed.

(** A run that succeeds has one table for each definition of the table map
    and, in it, one column for each field: the column that
    [parseFieldNode] returns for the field under the maps of the run. *)
Lemma readSchemaSources_columns {Source : Type}
    (parse : Source -> string + DocumentNode) (sources : list Source) r :
  readSchemaSources parse sources = Ok r ->
  exists ctx,
    forOf (readSource parse) sources emptyContext = Ok ctx
    /\ Forall2 (fun typeNode t =>
                  tbl_name t = obj_name typeNode
                  /\ Forall2 (fun f c =>
                                parseFieldNode ctx (obj_name typeNode) f = Ok c)
                             (obj_fields typeNode) (tbl_columns t))
               (JsMap.values (typeDefsMap ctx)) (tables r).
Proof.
  intros Hr. apply readSchemaSources_Ok in Hr as [ctx [Hctx [Hts _]]].
  exists ctx. split; [exact Hctx|].
  induction Hts as [|typeNode t nodes ts Ht _ IH]; constructor; [|exact IH].
  now apply readTable_Ok.
Qed.

(** Every field of every table of the table map is resolved by a run
    that succeeds, under the maps of the run and the name of its table;
    so a field that [parseFieldNode] rejects makes the run fail. *)
Lemma readSchemaSources_field {Source : Type}
    (parse : Source -> string + DocumentNode) (sources : list Source)
    r ctx typeNode f :
  readSchemaSources parse sources = Ok r ->
  forOf (readSource parse) sources emptyContext = Ok ctx ->
  In typeNode (JsMap.values (typeDefsMap ctx)) ->
  In f (obj_fields typeNode) ->
  exists t c,
    In t (tables r) /\ tbl_name t = obj_name typeNode
    /\ In c (tbl_columns t)
    /\ parseFieldNode ctx (obj_name typeNode) f = Ok c.
Proof.
  intros Hr Hctx Hnode Hf.
  apply readSchemaSources_columns in Hr as [ctx' [Hctx' Hts]].
  rewrite Hctx in Hctx'. injection Hctx' as <-.
  destruct (Forall2_In_l _ _ _ typeNode Hts Hnode) as [t [Ht [Hname Hcols]]].
  destruct (Forall2_In_l _ _ _ f Hcols Hf) as [c [Hc Hparse]].
  exists t, c. auto.
Qed.

(** The classification looks at the array flag for the base name [_]
    only. *)
Lemma parseFieldNode_classify_flag ctx T f name array array' :
  name <> "_" ->
  parseFieldNode_classify ctx T f {| ft_array := array; ft_name := name |}
  = parseFieldNode_classify ctx T f {| ft_array := array'; ft_name := name |}.
Proof.
  intros Hn. unfold parseFieldNode_classify. cbn [ft_name ft_array].
  destruct (String.eqb_spec name "_") as [?|_]; [contradiction | reflexivity].
Qed.

(** C4. On every run: the closing assertion on the type of a column never
    fails; and when the run succeeds, the type of every column of every
    table is one of the nine values of [ColumnTypes], while the array flag
    of a column is set when, and only when, the declared type of its field
    is list-wrapped, whatever the type of the column.  The type in turn is
    computed without the flag, except for the base name [_]. *)
Theorem C4_column_types {Source : Type}
    (parse : Source -> string + DocumentNode) (sources : list Source) :
  readSchemaSources parse sources <> Throw (AssertionError AssertColumnType)
  /\ (length ColumnTypes = 9 /\ NoDup ColumnTypes)
  /\ (forall r, readSchemaSources parse sources = Ok r ->
        Forall (fun t => Forall (fun c => In (col_type c) ColumnTypes)
                                (tbl_columns t)) (tables r)
        /\ exists ctx,
             forOf (readSource parse) sources emptyContext = Ok ctx
             /\ Forall2 (fun typeNode t =>
                           Forall2 (fun f c =>
                                      col_array c = isListType (field_type f))
                                   (obj_fields typeNode) (tbl_columns t))
                        (JsMap.values (typeDefsMap ctx)) (tables r))
  /\ (forall ctx T f name array array',
        name <> "_" ->
        parseFieldNode_classify ctx T f {| ft_array := array; ft_name := name |}
        = parseFieldNode_classify ctx T f {| ft_array := array'; ft_name := name |}).
Proof.
  split; [apply readSchemaSources_avoids|]. split.
  { split; [reflexivity|].
    unfold ColumnTypes. repeat constructor; simpl; intuition discriminate. }
  split; [|apply parseFieldNode_classify_flag].
  intros r Hr. apply readSchemaSources_columns in Hr as [ctx [Hctx Hts]].
  split.
  - clear Hctx. induction Hts as [|typeNode t nodes ts [_ Hcs] _ IH];
      constructor; [|exact IH].
    induction Hcs as [|f c fs cs Hc _ IHc]; constructor; [|exact IHc].
    now apply parseFieldNode_Ok in Hc.
  - exists ctx. split; [exact Hctx|].
    induction Hts as [|typeNode t nodes ts [_ Hcs] _ IH]; constructor; [|exact IH].
    induction Hcs as [|f c fs cs Hc _ IHc]; constructor; [|exact IHc].
    now apply parseFieldNode_Ok in Hc.
Qed.

Lemma C4_column_types_witness :
  exists r,
    readSchemaSources parsed [Examples.itemDoc; Examples.baseDoc] = Ok r
    /\ Forall (fun t => Forall (fun c => In (col_type c) ColumnTypes)
                               (tbl_columns t)) (tables r).
Proof.
  eexists. split; [reflexivity|].
  exact (proj1 (proj1 (proj2 (proj2 (C4_column_types parsed
           [Examples.itemDoc; Examples.baseDoc]))) _ eq_refl)).
Defined.

(** ** The two symbol maps *)

Lemma JsMap_get_app {V : Type} (m m' : JsMap.t V) (k : string) :
  JsMap.get (m ++ m') k
  = match JsMap.get m k with
    | Some v => Some v
    | None => JsMap.get m' k
    end.
Proof.
  induction m as [|[k' v'] m IH]; simpl; [reflexivity|].
  destruct (String.eqb k' k); [reflexivity | exact IH].
Qed.

Lemma JsMap_has_app {V : Type} (m m' : JsMap.t V) (k : string) :
  JsMap.has (m ++ m') k = JsMap.has m k || JsMap.has m' k.
Proof.
  unfold JsMap.has. rewrite JsMap_get_app. now destruct (JsMap.get m k).
Qed.

(** [set] of a key that the map does not have appends the entry. *)
Lemma JsMap_set_fresh {V : Type} (m : JsMap.t V) (k : string) (v : V) :
  JsMap.has m k = false -> JsMap.set m k v = m ++ [(k, v)].
Proof.
  unfold JsMap.has. induction m as [|[k' v'] m IH]; simpl; [reflexivity|].
  destruct (String.eqb k' k); [discriminate|].
  intros H. now rewrite IH.
Qed.

Lemma JsMap_get_keys {V : Type} (m : JsMap.t V) (k : string) (v : V) :
  JsMap.get m k = Some v -> In k (JsMap.keys m) /\ In v (JsMap.values m).
Proof.
  induction m as [|[k' v'] m IH]; simpl; [discriminate|].
  destruct (String.eqb_spec k' k) as [->|_].
  - intros H. injection H as ->. auto.
  - intros H. apply IH in H. tauto.
Qed.

Lemma JsMap_keys_get {V : Type} (m : JsMap.t V) (k : string) :
  In k (JsMap.keys m) -> JsMap.has m k = true.
Proof.
  unfold JsMap.has. induction m as [|[k' v'] m IH]; simpl; [contradiction|].
  destruct (String.eqb_spec k' k) as [->|Hne]; [reflexivity|].
  intros [H|H]; [contradiction | auto].
Qed.

Lemma JsMap_has_keys {V : Type} (m : JsMap.t V) (k : string) :
  JsMap.has m k = true <-> In k (JsMap.keys m).
Proof.
  split; [|apply JsMap_keys_get].
  intros H. apply JsMap_has_get in H as [v Hv].
  now apply JsMap_get_keys in Hv.
Qed.

Lemma keys_entriesBy {V : Type} (name : V -> string) (nodes : list V) :
  JsMap.keys (entriesBy name nodes) = map name nodes.
Proof. unfold JsMap.keys, entriesBy. rewrite map_map. reflexivity. Qed.

Lemma values_entriesBy {V : Type} (name : V -> string) (nodes : list V) :
  JsMap.values (entriesBy name nodes) = nodes.
Proof. unfold JsMap.values, entriesBy. rewrite map_map. apply map_id. Qed.

Lemma entriesBy_app {V : Type} (name : V -> string) (nodes nodes' : list V) :
  entriesBy name (nodes ++ nodes') = entriesBy name nodes ++ entriesBy name nodes'.
Proof. apply map_app. Qed.

(** In a map without a repeated name, a node is found under its name. *)
Lemma get_entriesBy {V : Type} (name : V -> string) (nodes : list V) (node : V) :
  NoDup (map name nodes) -> In node nodes ->
  JsMap.get (entriesBy name nodes) (name node) = Some node.
Proof.
  induction nodes as [|n nodes IH]; simpl; [contradiction|].
  intros Hnd Hin. inversion Hnd as [|? ? Hnotin Hnd']; subst.
  destruct (String.eqb_spec (name n) (name node)) as [E|Hne].
  - destruct Hin as [->|Hin]; [reflexivity|].
    exfalso. apply Hnotin. rewrite E. now apply in_map.
  - destruct Hin as [->|Hin]; [contradiction | auto].
Qed.

Lemma NoDup_app_disjoint {A : Type} (l l' : list A) (x : A) :
  NoDup (l ++ l') -> In x l -> In x l' -> False.
Proof.
  induction l as [|a l IH]; simpl; [contradiction|].
  intros Hnd [->|Hin] Hin'.
  - inversion Hnd as [|? ? Hnotin _]; subst. apply Hnotin, in_or_app. now right.
  - inversion Hnd; subst. auto.
Qed.

(** Lookups do not depend on the order in which two lists of entries
    without a common name were inserted. *)
Lemma JsMap_get_app_comm {V : Type} (m m' : JsMap.t V) (k : string) :
  NoDup (JsMap.keys (m ++ m')) ->
  JsMap.get (m ++ m') k = JsMap.get (m' ++ m) k.
Proof.
  intros Hnd. rewrite !JsMap_get_app.
  destruct (JsMap.get m k) as [v|] eqn:E, (JsMap.get m' k) as [v'|] eqn:E';
    try reflexivity.
  exfalso. apply JsMap_get_keys in E as [E _]. apply JsMap_get_keys in E' as [E' _].
  unfold JsMap.keys in Hnd. rewrite map_app in Hnd.
  exact (NoDup_app_disjoint _ _ k Hnd E E').
Qed.

Lemma tableNodes_app defs defs' :
  tableNodes (defs ++ defs') = tableNodes defs ++ tableNodes defs'.
Proof.
  induction defs as [|[e|o|k] defs IH]; simpl; rewrite ?IH; reflexivity.
Qed.

Lemma enumNodes_app defs defs' :
  enumNodes (defs ++ defs') = enumNodes defs ++ enumNodes defs'.
Proof.
  induction defs as [|[e|o|k] defs IH]; simpl; rewrite ?IH; reflexivity.
Qed.

Lemma tableNodes_In defs node :
  In node (tableNodes defs) <-> In (ObjectTypeDefinition node) defs.
Proof.
  induction defs as [|[e|o|k] defs IH]; simpl; [tauto| | |];
    rewrite IH; intuition congruence.
Qed.

Lemma enumNodes_In defs node :
  In node (enumNodes defs) <-> In (EnumTypeDefinition node) defs.
Proof.
  induction defs as [|[e|o|k] defs IH]; simpl; [tauto| | |];
    rewrite IH; intuition congruence.
Qed.

Lemma insertable_cons {V : Type} (m : JsMap.t V) (k : string) (v : V) names :
  insertable m (k :: names)
  <-> JsMap.has m k = false /\ insertable (m ++ [(k, v)]) names.
Proof.
  unfold insertable. split.
  - intros [Hnd HF]. inversion Hnd as [|? ? Hnotin Hnd']; subst.
    inversion HF as [|? ? Hk HF']; subst.
    split; [exact Hk|]. split; [exact Hnd'|].
    rewrite Forall_forall in *. intros k' Hk'. rewrite JsMap_has_app, (HF' k' Hk').
    unfold JsMap.has. simpl.
    destruct (String.eqb_spec k k') as [->|_]; [contradiction | reflexivity].
  - intros [Hk [Hnd HF]]. rewrite Forall_forall in HF. split.
    + constructor; [|exact Hnd]. intros Hin. specialize (HF k Hin).
      rewrite JsMap_has_app in HF. apply orb_false_elim in HF as [_ HF].
      unfold JsMap.has in HF. simpl in HF. now rewrite String.eqb_refl in HF.
    + constructor; [exact Hk|]. rewrite Forall_forall. intros k' Hk'.
      specialize (HF k' Hk'). rewrite JsMap_has_app in HF.
      now apply orb_false_elim in HF.
Qed.

(** The loop over definitions succeeds exactly when every definition is a
    table or an enumeration, no table name is in the table map or comes
    twice, and no enumeration name is in the enumeration map or comes
    twice; the two conditions do not look at the other map.  The loop then
    appends the definitions to the maps in order. *)
Lemma forOf_addDefinition defs : forall tm em ctx',
  forOf addDefinition defs {| typeDefsMap := tm; enumDefsMap := em |} = Ok ctx'
  <-> forallb supported defs = true
      /\ insertable tm (map obj_name (tableNodes defs))
      /\ insertable em (map enum_name (enumNodes defs))
      /\ ctx' = {| typeDefsMap := tm ++ tableEntries (tableNodes defs);
                   enumDefsMap := em ++ enumEntries (enumNodes defs) |}.
Proof.
  induction defs as [|[e|o|k] defs IH]; intros tm em ctx'.
  - simpl. rewrite !app_nil_r. unfold insertable. split.
    + intros H. injection H as <-. repeat split; constructor.
    + intros [_ [_ [_ ->]]]. reflexivity.
  - cbn [forOf addDefinition typeDefsMap enumDefsMap tableNodes enumNodes
         forallb supported map andb].
    rewrite (insertable_cons em (enum_name e) e).
    destruct (JsMap.has em (enum_name e)) eqn:Hhas.
    + split; [discriminate | intros [_ [_ [[H _] _]]]; discriminate].
    + cbn [bind]. rewrite (JsMap_set_fresh em _ e Hhas), IH.
      unfold enumEntries. cbn [entriesBy map]. rewrite <- app_assoc. simpl.
      tauto.
  - cbn [forOf addDefinition typeDefsMap enumDefsMap tableNodes enumNodes
         forallb supported map andb].
    rewrite (insertable_cons tm (obj_name o) o).
    destruct (JsMap.has tm (obj_name o)) eqn:Hhas.
    + split; [discriminate | intros [_ [[H _] _]]; discriminate].
    + cbn [bind]. rewrite (JsMap_set_fresh tm _ o Hhas), IH.
      unfold tableEntries. cbn [entriesBy map]. rewrite <- app_assoc. simpl.
      tauto.
  - simpl. split; [discriminate | intros [H _]; discriminate].
Qed.

(** Sources that all parse are read as the definitions of their documents,
    one document after the other. *)
Lemma forOf_readSource {Source : Type} (parse : Source -> string + DocumentNode)
    sources docs :
  Forall2 (fun source doc => parse source = inr doc) sources docs ->
  forall maps,
    forOf (readSource parse) sources maps
    = forOf addDefinition (flat_map definitions docs) maps.
Proof.
  induction 1 as [|source doc sources docs Hp _ IH]; intros maps; simpl.
  - reflexivity.
  - rewrite forOf_app. unfold readSource at 1. rewrite Hp.
    destruct (forOf addDefinition (definitions doc) maps); simpl; auto.
Qed.

Lemma insertable_empty {V : Type} (names : list string) :
  insertable (JsMap.empty (V := V)) names <-> NoDup names.
Proof.
  unfold insertable. split; [tauto|]. intros H. split; [exact H|].
  apply Forall_forall. reflexivity.
Qed.

(** The maps that the sources build, when they all parse. *)
Lemma readSource_maps {Source : Type} (parse : Source -> string + DocumentNode)
    sources docs ctx :
  Forall2 (fun source doc => parse source = inr doc) sources docs ->
  forOf (readSource parse) sources emptyContext = Ok ctx
  <-> forallb supported (flat_map definitions docs) = true
      /\ NoDup (map obj_name (tableNodes (flat_map definitions docs)))
      /\ NoDup (map enum_name (enumNodes (flat_map definitions docs)))
      /\ ctx = {| typeDefsMap := tableEntries (tableNodes (flat_map definitions docs));
                  enumDefsMap := enumEntries (enumNodes (flat_map definitions docs)) |}.
Proof.
  intros Hp. rewrite (forOf_readSource parse sources docs Hp).
  unfold emptyContext. rewrite forOf_addDefinition, !insertable_empty.
  reflexivity.
Qed.

(** ** A name shared by a table and an enumeration (C10) *)

(** C10, as the code has it.  The sources build the two maps exactly when
    every definition is a table or an enumeration, no two tables share a
    name and no two enumerations share a name: a table and an enumeration
    of the same name raise no error.  A field whose base type is a name
    that both maps have is never an [enumrow]: it is a [row] self reference
    in the table of that name, and in any other table a [foreignrow]
    reference to the table, unless the name is [rid], [_] or a scalar
    name. *)
Theorem C10_shared_name {Source : Type}
    (parse : Source -> string + DocumentNode)
    (sources : list Source) (docs : list DocumentNode) :
  Forall2 (fun source doc => parse source = inr doc) sources docs ->
  ((exists ctx, forOf (readSource parse) sources emptyContext = Ok ctx)
   <-> forallb supported (flat_map definitions docs) = true
       /\ NoDup (map obj_name (tableNodes (flat_map definitions docs)))
       /\ NoDup (map enum_name (enumNodes (flat_map definitions docs))))
  /\ forall ctx N T f ft,
       forOf (readSource parse) sources emptyContext = Ok ctx ->
       In N (map obj_name (tableNodes (flat_map definitions docs))) ->
       In N (map enum_name (enumNodes (flat_map definitions docs))) ->
       ft_name ft = N ->
       (N = T ->
          parseFieldNode_classify ctx T f ft
          = Ok ("row", Some {| ref_table := T; ref_column := None |}))
       /\ (N <> T -> N <> "rid" -> N <> "_" -> ScalarTypes_has N = false ->
           parseFieldNode_classify ctx T f ft
           = Ok ("foreignrow", Some {| ref_table := N; ref_column := None |}))
       /\ (forall type references,
             parseFieldNode_classify ctx T f ft = Ok (type, references) ->
             type <> "enumrow").
Proof.
  intros Hp. split.
  - split.
    + intros [ctx H]. apply (readSource_maps parse sources docs ctx Hp) in H. tauto.
    + intros [H1 [H2 H3]]. eexists.
      apply (readSource_maps parse sources docs _ Hp). eauto.
  - intros ctx N T f ft Hctx HNt HNe HN.
    apply (readSource_maps parse sources docs ctx Hp) in Hctx as [_ [_ [_ ->]]].
    assert (Hhas : JsMap.has (tableEntries (tableNodes (flat_map definitions docs))) N
                   = true).
    { apply JsMap_has_keys. unfold tableEntries. now rewrite keys_entriesBy. }
    split; [|split].
    + intros <-. unfold parseFieldNode_classify. rewrite HN, String.eqb_refl.
      reflexivity.
    + intros HT Hrid Hph Hsc. unfold parseFieldNode_classify.
      rewrite HN. cbn [typeDefsMap].
      destruct (String.eqb_spec N T) as [?|_]; [contradiction|].
      destruct (String.eqb_spec N "rid") as [?|_]; [contradiction|].
      destruct (String.eqb_spec N "_") as [?|_]; [contradiction|].
      cbn [andb]. rewrite Hsc. cbn [negb]. rewrite Hhas. reflexivity.
    + intros type references Hc ->. destruct references as [r|].
      * destruct (parseFieldNode_classify_references _ T f ft "enumrow" r Hc)
          as [[E _]|[[E _]|[_ [_ [Hno _]]]]]; try discriminate.
        cbn [typeDefsMap] in Hno. rewrite HN in Hno. congruence.
      * destruct (parseFieldNode_classify_no_references _ T f ft "enumrow" Hc)
          as [[E _]|[[E _]|[_ E]]]; discriminate.
Qed.

Lemma C10_shared_name_witness :
  forOf (readSource parsed) Examples.kindDocs emptyContext = Ok Examples.kindContext
  /\ parseFieldNode_classify Examples.kindContext "Thing"
       (Examples.plain "Kind" (NamedType "Kind"))
       {| ft_array := false; ft_name := "Kind" |}
     = Ok ("foreignrow", Some {| ref_table := "Kind"; ref_column := None |}).
Proof.
  split; [reflexivity|].
  refine (proj1 (proj2 (proj2 (C10_shared_name parsed Examples.kindDocs
            Examples.kindDocs _) Examples.kindContext "Kind" "Thing"
            (Examples.plain "Kind" (NamedType "Kind"))
            {| ft_array := false; ft_name := "Kind" |} eq_refl _ _ eq_refl))
          _ _ _ eq_refl).
  - repeat constructor.
  - simpl. auto.
  - simpl. auto.
  - discriminate.
  - discriminate.
  - discriminate.
Defined.

(** The claim C10 as stated fails for a field of the table that has the
    shared name: it is a [row] self reference, not a [foreignrow]. *)
Lemma C10_counterexample :
  readSchemaSources parsed Examples.kindDocs
  = Ok {| tables :=
            [ {| tbl_name := "Kind";
                 tbl_columns :=
                   [makeColumn (Examples.plain "Next" (NamedType "Kind")) false
                      "row" (Some {| ref_table := "Kind"; ref_column := None |})
                      None None];
                 tbl_tags := [] |};
              {| tbl_name := "Thing";
                 tbl_columns :=
                   [makeColumn (Examples.plain "Kind" (NamedType "Kind")) false
                      "foreignrow"
                      (Some {| ref_table := "Kind"; ref_column := None |})
                      None None];
                 tbl_tags := [] |} ];
          enumerations :=
            [ {| enm_name := "Kind"; enm_indexing := 0;
                 enm_enumerators := [Some "Small"; Some "Large"] |} ] |}
  /\ ~ (forall ctx N T f ft type references,
          JsMap.has (typeDefsMap ctx) N = true ->
          JsMap.has (enumDefsMap ctx) N = true ->
          ft_name ft = N ->
          parseFieldNode_classify ctx T f ft = Ok (type, references) ->
          type = "foreignrow").
Proof.
  split; [reflexivity|].
  intros H.
  specialize (H Examples.kindContext "Kind" "Kind"
                (Examples.plain "Next" (NamedType "Kind"))
                {| ft_array := false; ft_name := "Kind" |} "row"
                (Some {| ref_table := "Kind"; ref_column := None |})
                eq_refl eq_refl eq_refl eq_refl).
  discriminate H.
Qed.

(** ** Documents in the other order *)

Lemma JsMap_has_sameLookups {V : Type} (m m' : JsMap.t V) :
  (forall k, JsMap.get m k = JsMap.get m' k) ->
  forall k, JsMap.has m k = JsMap.has m' k.
Proof. intros H k. unfold JsMap.has. now rewrite H. Qed.

(** The resolution of a field reads the two maps through lookups only. *)
Lemma parseFieldNode_sameLookups ctx ctx' T f :
  sameLookups ctx ctx' -> parseFieldNode ctx T f = parseFieldNode ctx' T f.
Proof.
  intros [Ht He].
  pose proof (JsMap_has_sameLookups _ _ Ht) as Hht.
  pose proof (JsMap_has_sameLookups _ _ He) as Hhe.
  unfold parseFieldNode, parseFieldNode_classify, parseFieldNode_ref.
  destruct (validateDirectives f FIELD_DIRECTIVES); [|reflexivity]. cbn [bind].
  destruct (referencesField f) as [refFieldName|]; [|reflexivity]. cbn [bind].
  destruct (unwrapType f) as [ft|]; [|reflexivity]. cbn [bind].
  rewrite (Hht (ft_name ft)), (Hhe (ft_name ft)).
  match goal with
  | |- bind ?c _ = bind ?c _ => destruct c as [[type references]|]; [|reflexivity]
  end.
  cbn [bind snd]. destruct refFieldName as [x|]; [|reflexivity].
  destruct (truthy x); [|reflexivity].
  destruct references as [r|]; [|reflexivity].
  destruct (truthy (ref_table r)); [|reflexivity]. cbn [assert_ok bind].
  now rewrite (Ht (ref_table r)).
Qed.

Lemma readTable_sameLookups ctx ctx' typeNode :
  sameLookups ctx ctx' -> readTable ctx typeNode = readTable ctx' typeNode.
Proof.
  intros H. unfold readTable.
  destruct (validateDirectives typeNode [DIRECTIVE_TABLE_TAGS]); [|reflexivity].
  cbn [bind]. destruct (getTags typeNode); [|reflexivity]. cbn [bind].
  rewrite (forOf_ext (pushColumn ctx (obj_name typeNode))
                     (pushColumn ctx' (obj_name typeNode))); [reflexivity|].
  intros columns f _. unfold pushColumn.
  now rewrite (parseFieldNode_sameLookups ctx ctx' _ f H).
Qed.

Lemma NoDup_map_app_comm {A B : Type} (g : A -> B) (l l' : list A) :
  NoDup (map g (l ++ l')) -> NoDup (map g (l' ++ l)).
Proof.
  apply Permutation_NoDup, Permutation_map, Permutation_app_comm.
Qed.

Lemma forallb_app_comm {A : Type} (p : A -> bool) (l l' : list A) :
  forallb p (l ++ l') = forallb p (l' ++ l).
Proof. rewrite !forallb_app. apply andb_comm. Qed.

Lemma sameLookups_entries_comm {V : Type} (name : V -> string) (l l' : list V) :
  NoDup (map name (l ++ l')) ->
  forall k, JsMap.get (entriesBy name (l ++ l')) k
            = JsMap.get (entriesBy name (l' ++ l)) k.
Proof.
  intros Hnd k. rewrite !entriesBy_app. apply JsMap_get_app_comm.
  rewrite <- entriesBy_app, keys_entriesBy. exact Hnd.
Qed.

Lemma two_documents (d1 d2 : DocumentNode) :
  flat_map definitions [d1; d2] = definitions d1 ++ definitions d2.
Proof. simpl. now rewrite app_nil_r. Qed.

(** Two sources given in the other order build maps with the same lookups
    and with the same tables and enumerations, in the other order. *)
Lemma readSource_swap {Source : Type} (parse : Source -> string + DocumentNode)
    s1 s2 d1 d2 ctx :
  parse s1 = inr d1 -> parse s2 = inr d2 ->
  forOf (readSource parse) [s1; s2] emptyContext = Ok ctx ->
  let t1 := tableNodes (definitions d1) in
  let t2 := tableNodes (definitions d2) in
  let e1 := enumNodes (definitions d1) in
  let e2 := enumNodes (definitions d2) in
  ctx = {| typeDefsMap := tableEntries (t1 ++ t2);
           enumDefsMap := enumEntries (e1 ++ e2) |}
  /\ NoDup (map obj_name (t1 ++ t2))
  /\ forOf (readSource parse) [s2; s1] emptyContext
     = Ok {| typeDefsMap := tableEntries (t2 ++ t1);
             enumDefsMap := enumEntries (e2 ++ e1) |}
  /\ sameLookups ctx {| typeDefsMap := tableEntries (t2 ++ t1);
                        enumDefsMap := enumEntries (e2 ++ e1) |}.
Proof.
  intros H1 H2 Hctx t1 t2 e1 e2.
  assert (P12 : Forall2 (fun s d => parse s = inr d) [s1; s2] [d1; d2])
    by (repeat constructor; assumption).
  assert (P21 : Forall2 (fun s d => parse s = inr d) [s2; s1] [d2; d1])
    by (repeat constructor; assumption).
  apply (readSource_maps parse _ _ ctx P12) in Hctx.
  rewrite two_documents, tableNodes_app, enumNodes_app in Hctx.
  destruct Hctx as [Hs [Ht [He ->]]]. fold t1 t2 e1 e2 in Ht, He |- *.
  split; [reflexivity|]. split; [exact Ht|]. split.
  - apply (readSource_maps parse _ _ _ P21).
    rewrite two_documents, tableNodes_app, enumNodes_app. fold t1 t2 e1 e2.
    split; [now rewrite forallb_app_comm|].
    split; [now apply NoDup_map_app_comm|].
    split; [now apply NoDup_map_app_comm | reflexivity].
  - split; intros k; cbn [typeDefsMap enumDefsMap].
    + now apply sameLookups_entries_comm.
    + now apply sameLookups_entries_comm.
Qed.

(** A run on two sources that succeeds also succeeds on the sources in the
    other order, with the same tables and enumerations up to their
    order. *)
Lemma readSchemaSources_swap {Source : Type}
    (parse : Source -> string + DocumentNode) s1 s2 d1 d2 r :
  parse s1 = inr d1 -> parse s2 = inr d2 ->
  readSchemaSources parse [s1; s2] = Ok r ->
  exists r', readSchemaSources parse [s2; s1] = Ok r'
             /\ Permutation (tables r) (tables r')
             /\ Permutation (enumerations r) (enumerations r').
Proof.
  intros H1 H2. rewrite !readSchemaSources_mapM. intros H.
  apply bind_Ok in H as [ctx [Hctx H]].
  destruct (readSource_swap parse s1 s2 d1 d2 ctx H1 H2 Hctx)
    as [-> [_ [Hctx' Hsame]]].
  rewrite Hctx'. cbn [bind typeDefsMap enumDefsMap] in H |- *.
  unfold tableEntries, enumEntries in *. rewrite !values_entriesBy in *.
  apply bind_Ok in H as [ts [Hts H]]. apply bind_Ok in H as [es [Hes H]].
  injection H as <-.
  rewrite mapM_app in Hts. apply bind_Ok in Hts as [ts1 [Hts1 Hts]].
  apply bind_Ok in Hts as [ts2 [Hts2 Hts]]. injection Hts as <-.
  rewrite mapM_app in Hes. apply bind_Ok in Hes as [es1 [Hes1 Hes]].
  apply bind_Ok in Hes as [es2 [Hes2 Hes]]. injection Hes as <-.
  exists {| tables := ts2 ++ ts1; enumerations := es2 ++ es1 |}.
  split; [|split; apply Permutation_app_comm].
  rewrite (mapM_ext _ (readTable _)
             (tableNodes (definitions d2) ++ tableNodes (definitions d1))
             (fun x _ => eq_sym (readTable_sameLookups _ _ x Hsame))).
  rewrite !mapM_app, Hts1, Hts2, Hes1, Hes2. reflexivity.
Qed.

(** The steps behind a column. *)
Lemma parseFieldNode_Ok_steps ctx T f c :
  parseFieldNode ctx T f = Ok c ->
  exists refFieldName ft classified resolved,
    referencesField f = Ok refFieldName
    /\ unwrapType f = Ok ft
    /\ parseFieldNode_classify ctx T f ft = Ok classified
    /\ parseFieldNode_ref ctx f refFieldName classified = Ok resolved
    /\ col_type c = fst resolved
    /\ col_references c = snd resolved.
Proof.
  unfold parseFieldNode. intros H.
  apply bind_Ok in H as [[] [_ H]].
  apply bind_Ok in H as [refFieldName [Hr H]].
  apply bind_Ok in H as [ft [Hu H]].
  apply bind_Ok in H as [classified [Hc H]].
  apply bind_Ok in H as [resolved [Hres H]].
  apply bind_Ok in H as [[] [_ H]].
  apply (finishColumn_Ok f) in H. destruct H as [Ht [_ Hrefs]].
  exists refFieldName, ft, classified, resolved. repeat split; assumption.
Qed.

(** In a run that succeeds, a field of a table whose base type is the name
    of another table, and not a reserved name, is a [foreignrow] reference
    to that table. *)
Lemma foreign_reference_in_run {Source : Type}
    (parse : Source -> string + DocumentNode) sources docs r defA f ft defB :
  Forall2 (fun source doc => parse source = inr doc) sources docs ->
  readSchemaSources parse sources = Ok r ->
  In defA (tableNodes (flat_map definitions docs)) ->
  In f (obj_fields defA) ->
  unwrapType f = Ok ft ->
  In defB (tableNodes (flat_map definitions docs)) ->
  obj_name defB = ft_name ft ->
  obj_name defA <> obj_name defB ->
  ft_name ft <> "rid" -> ft_name ft <> "_" -> ScalarTypes_has (ft_name ft) = false ->
  exists ctx t c,
    forOf (readSource parse) sources emptyContext = Ok ctx
    /\ parseFieldNode_classify ctx (obj_name defA) f ft
       = Ok ("foreignrow", Some {| ref_table := ft_name ft; ref_column := None |})
    /\ In t (tables r) /\ tbl_name t = obj_name defA
    /\ In c (tbl_columns t)
    /\ parseFieldNode ctx (obj_name defA) f = Ok c
    /\ option_map ref_table (col_references c) = Some (ft_name ft)
    /\ (findDirective f (NAME DIRECTIVE_REF) = None -> col_type c = "foreignrow").
Proof.
  intros Hp Hr HA Hf Hu HB HBn Hne Hrid Hph Hsc.
  apply readSchemaSources_Ok in Hr as [ctx [Hctx [Hts _]]].
  pose proof Hctx as Hmaps.
  apply (readSource_maps parse sources docs ctx Hp) in Hmaps as [_ [Hnd [_ Hmaps]]].
  assert (Hvalues : JsMap.values (typeDefsMap ctx)
                    = tableNodes (flat_map definitions docs)).
  { rewrite Hmaps. apply values_entriesBy. }
  assert (Hhas : JsMap.has (typeDefsMap ctx) (ft_name ft) = true).
  { apply JsMap_has_keys. rewrite Hmaps. cbn [typeDefsMap]. unfold tableEntries.
    rewrite keys_entriesBy, <- HBn. now apply in_map. }
  assert (Hcl : parseFieldNode_classify ctx (obj_name defA) f ft
                = Ok ("foreignrow",
                      Some {| ref_table := ft_name ft; ref_column := None |})).
  { unfold parseFieldNode_classify.
    destruct (String.eqb_spec (ft_name ft) (obj_name defA)) as [E|_];
      [congruence|].
    destruct (String.eqb_spec (ft_name ft) "rid") as [?|_]; [contradiction|].
    destruct (String.eqb_spec (ft_name ft) "_") as [?|_]; [contradiction|].
    cbn [andb]. rewrite Hsc. cbn [negb]. now rewrite Hhas. }
  rewrite Hvalues in Hts.
  destruct (Forall2_In_l _ _ _ defA Hts HA) as [t [Ht Hread]].
  apply readTable_Ok in Hread as [Hname Hcols].
  destruct (Forall2_In_l _ _ _ f Hcols Hf) as [c [Hc Hparse]].
  exists ctx, t, c. repeat (split; [assumption|]).
  destruct (parseFieldNode_Ok_steps _ _ _ _ Hparse)
    as [refFieldName [ft' [classified [resolved [Hrf [Hu' [Hcl' [Hres [Hty Hrefs]]]]]]]]].
  rewrite Hu in Hu'. injection Hu' as <-. rewrite Hcl in Hcl'. injection Hcl' as <-.
  split.
  - rewrite Hrefs.
    apply parseFieldNode_ref_Ok in Hres as [->|[x [r0 [_ [Hr0 [_ ->]]]]]].
    + reflexivity.
    + injection Hr0 as <-. reflexivity.
  - intros Hnone. rewrite (referencesField_None f Hnone) in Hrf.
    injection Hrf as <-. simpl in Hres. injection Hres as <-. exact Hty.
Qed.

Lemma names_differ {V : Type} (name : V -> string) (l l' : list V) a b :
  NoDup (map name (l ++ l')) -> In a l -> In b l' -> name a <> name b.
Proof.
  rewrite map_app. intros Hnd Ha Hb E.
  apply (NoDup_app_disjoint _ _ (name a) Hnd).
  - now apply in_map.
  - rewrite E. now apply in_map.
Qed.

(** * Further properties of the reader *)

(** ** Declared types *)

(** X1. [unwrapType] accepts exactly a named type other than the bare
    placeholder, with the array flag unset, and a list of one named type,
    with the array flag set; the bare [_] fails with the error of the
    placeholder type, and a non-null type or a list of anything but a
    named type fails with the error of the invalid type, at the declared
    type of the field. *)
Theorem X1_unwrapType_cases (f : FieldDefinitionNode) :
  (forall ft,
     unwrapType f = Ok ft
     <-> (field_type f = NamedType (ft_name ft) /\ ft_array ft = false
          /\ ft_name ft <> "_")
         \/ (field_type f = ListType (NamedType (ft_name ft))
             /\ ft_array ft = true))
  /\ (field_type f = NamedType "_" ->
      unwrapType f = throwAt MSG_PLACEHOLDER (AtType (field_type f)))
  /\ (forall t,
        field_type f = NonNullType t
        \/ field_type f = ListType (ListType t)
        \/ field_type f = ListType (NonNullType t) ->
        unwrapType f = throwAt "Valid type expected." (AtType (field_type f))).
Proof.
  split; [|split].
  - intros [array name]. cbn [ft_name ft_array]. unfold unwrapType. split.
    + destruct (field_type f) as [n|[n|t|t]|t]; simpl; try discriminate.
      * destruct (String.eqb_spec n "_"); simpl; [discriminate|].
        intros H. injection H as <- <-. left. auto.
      * rewrite andb_false_r. intros H. injection H as <- <-. right. auto.
    + intros [[-> [-> Hn]]|[-> ->]]; simpl.
      * destruct (String.eqb_spec name "_"); [contradiction | reflexivity].
      * now rewrite andb_false_r.
  - intros H. unfold unwrapType. rewrite H. reflexivity.
  - intros t [H|[H|H]]; unfold unwrapType; rewrite H; reflexivity.
Qed.

Lemma X1_unwrapType_cases_witness :
  unwrapType (Examples.plain "Tags" (ListType (NamedType "string")))
  = Ok {| ft_array := true; ft_name := "string" |}
  /\ unwrapType (Examples.plain "Deep" (ListType (ListType (NamedType "i32"))))
     = throwAt "Valid type expected."
               (AtType (ListType (ListType (NamedType "i32")))).
Proof.
  split.
  - apply (proj1 (X1_unwrapType_cases
                    (Examples.plain "Tags" (ListType (NamedType "string"))))
                 {| ft_array := true; ft_name := "string" |}).
    right. split; reflexivity.
  - apply (proj2 (proj2 (X1_unwrapType_cases
                    (Examples.plain "Deep" (ListType (ListType (NamedType "i32"))))))
                 (NamedType "i32")).
    right. left. reflexivity.
Defined.

(** ** Loops that only check *)

Lemma forEach_cons {A : Type} (body : A -> result unit) x xs :
  forEach body (x :: xs) = (body x ;;; forEach body xs).
Proof.
  unfold forEach. simpl. destruct (body x) as [[]|e]; reflexivity.
Qed.

Lemma forEach_Ok {A : Type} (body : A -> result unit) xs :
  forEach body xs = Ok tt <-> Forall (fun x => body x = Ok tt) xs.
Proof.
  induction xs as [|x xs IH].
  - split; [constructor | reflexivity].
  - rewrite forEach_cons. split.
    + intros H. apply bind_Ok in H as [[] [Hx H]].
      constructor; [exact Hx | now apply IH].
    + intros H. inversion H as [|? ? Hx Hxs]; subst.
      rewrite Hx. simpl. now apply IH.
Qed.

(** The error of a checking loop is the error of the first element that
    fails. *)
Lemma forEach_first {A : Type} (body : A -> result unit) pre x post e :
  Forall (fun y => body y = Ok tt) pre ->
  body x = Throw e ->
  forEach body (pre ++ x :: post) = Throw e.
Proof.
  intros Hpre Hx. induction Hpre as [|y pre Hy _ IH]; simpl app.
  - rewrite forEach_cons, Hx. reflexivity.
  - rewrite forEach_cons, Hy. exact IH.
Qed.

Lemma mapM_first {A B : Type} (f : A -> result B) pre x post e :
  is_ok (mapM f pre) = true ->
  f x = Throw e ->
  mapM f (pre ++ x :: post) = Throw e.
Proof.
  intros Hpre Hx. rewrite mapM_app.
  destruct (mapM f pre) as [ys|]; [|discriminate]. simpl. now rewrite Hx.
Qed.

(** ** Validation of the directives of a node *)

(** X2. [validateDirectives] succeeds exactly when every directive of the
    node is validated by the first specification that has its name; a
    directive whose name no specification has fails with the error of the
    unknown directive, at the name of the directive, once the directives
    before it are validated. *)
Theorem X2_validateDirectives_cases {N : Type} `{HasDirectives N}
    (node : N) (specs : list DirectiveSpec) :
  (validateDirectives node specs = Ok tt
   <-> Forall (accepted specs) (directives node))
  /\ (forall pre d post,
        directives node = pre ++ d :: post ->
        Forall (accepted specs) pre ->
        (find (fun spec => String.eqb (NAME spec) (dir_name d)) specs = None ->
         validateDirectives node specs
         = throwAt (template ["Unknown directive "; quoted (dir_name d); "."])
                   (AtName (dir_name d)))
        /\ (forall spec e,
              find (fun spec => String.eqb (NAME spec) (dir_name d)) specs
              = Some spec ->
              validate spec d = Throw e ->
              validateDirectives node specs = Throw e)).
Proof.
  assert (Hbody : forall d,
    match find (fun spec => String.eqb (NAME spec) (dir_name d)) specs with
    | Some spec => validate spec d
    | None => throwAt (template ["Unknown directive "; quoted (dir_name d); "."])
                      (AtName (dir_name d))
    end = Ok tt <-> accepted specs d).
  { intros d. unfold accepted.
    destruct (find _ specs) as [spec|].
    - split; [intros Hv; exists spec; auto | intros [s [Hs Hv]]; congruence].
    - split; [discriminate | intros [s [Hs _]]; discriminate]. }
  split.
  - unfold validateDirectives. rewrite forEach_Ok.
    split; intros HF; (eapply Forall_impl; [|exact HF]); intros d; apply Hbody.
  - intros pre d post Hd Hpre.
    assert (Hpre' : Forall (fun d =>
      match find (fun spec => String.eqb (NAME spec) (dir_name d)) specs with
      | Some spec => validate spec d
      | None => throwAt (template ["Unknown directive "; quoted (dir_name d); "."])
                        (AtName (dir_name d))
      end = Ok tt) pre).
    { eapply Forall_impl; [|exact Hpre]. intros d'. apply Hbody. }
    split.
    + intros Hnone. unfold validateDirectives. rewrite Hd.
      apply forEach_first; [exact Hpre'|]. now rewrite Hnone.
    + intros spec e Hspec Hv. unfold validateDirectives. rewrite Hd.
      apply forEach_first; [exact Hpre'|]. now rewrite Hspec.
Qed.

Lemma X2_validateDirectives_cases_witness :
  validateDirectives
    (Examples.annotated "Id" (NamedType "i32")
       [Examples.unique; {| dir_name := "key"; dir_arguments := [] |}])
    FIELD_DIRECTIVES
  = throwAt (template ["Unknown directive "; quoted "key"; "."]) (AtName "key").
Proof.
  refine (proj1 (proj2 (X2_validateDirectives_cases
            (Examples.annotated "Id" (NamedType "i32")
               [Examples.unique; {| dir_name := "key"; dir_arguments := [] |}])
            FIELD_DIRECTIVES)
            [Examples.unique] {| dir_name := "key"; dir_arguments := [] |} []
            eq_refl _) eq_refl).
  constructor; [|constructor].
  exists DIRECTIVE_UNIQUE. split; reflexivity.
Defined.

(** ** The argument lists that the specifications accept *)

Lemma eachString_Ok (values : list ValueNode) :
  eachString values = Ok tt <-> exists strings, values = stringValues strings.
Proof.
  unfold eachString. rewrite forEach_Ok. split.
  - induction 1 as [|v values Hv _ [strings ->]].
    + now exists [].
    + destruct v; try discriminate. now exists (value :: strings).
  - intros [strings ->]. unfold stringValues. apply Forall_forall.
    intros v Hv. apply in_map_iff in Hv as [s [<- _]]. reflexivity.
Qed.

Lemma stringValues_nil strings : stringValues strings = [] <-> strings = [].
Proof. destruct strings; simpl; split; congruence. Qed.

Lemma stringValues_inj strings strings' :
  stringValues strings = stringValues strings' -> strings = strings'.
Proof.
  revert strings'. induction strings as [|s l IH]; intros [|s' l']; simpl;
    try congruence.
  intros H. injection H as -> H. f_equal. auto.
Qed.

(** A specification whose validation is the loop over a list of arguments
    that must not be empty. *)
Lemma arguments_loop_Ok {A : Type} (args : list A)
    (missing : result unit) (body : A -> result unit) (P : A -> Prop) :
  missing <> Ok tt ->
  (forall a, body a = Ok tt <-> P a) ->
  (if no_length args then missing else forEach body args) = Ok tt
  <-> args <> [] /\ Forall P args.
Proof.
  intros Hm Hb. destruct args as [|a args]; cbn [no_length].
  - split; [contradiction | intros [H _]; congruence].
  - rewrite forEach_Ok. split.
    + intros HF. split; [discriminate|].
      eapply Forall_impl; [|exact HF]. intros b. apply Hb.
    + intros [_ HF]. eapply Forall_impl; [|exact HF]. intros b. apply Hb.
Qed.

Lemma DIRECTIVE_UNIQUE_validate_Ok (d : DirectiveNode) :
  validate DIRECTIVE_UNIQUE d = Ok tt <-> dir_arguments d = [].
Proof.
  cbn [validate DIRECTIVE_UNIQUE]. unfold throwAt.
  destruct (dir_arguments d); simpl; split; congruence.
Qed.

Lemma DIRECTIVE_LOCALIZED_validate_Ok (d : DirectiveNode) :
  validate DIRECTIVE_LOCALIZED d = Ok tt <-> dir_arguments d = [].
Proof.
  cbn [validate DIRECTIVE_LOCALIZED]. unfold throwAt.
  destruct (dir_arguments d); simpl; split; congruence.
Qed.

Lemma DIRECTIVE_FILE_validate_Ok (d : DirectiveNode) :
  validate DIRECTIVE_FILE d = Ok tt
  <-> dir_arguments d <> [] /\ Forall fileArgument (dir_arguments d).
Proof.
  cbn [validate DIRECTIVE_FILE]. apply arguments_loop_Ok; [discriminate|].
  intros a. unfold fileArgument, unknownArgument.
  destruct (String.eqb_spec (arg_name a) "ext") as [E|E].
  - destruct (arg_value a); split;
      try discriminate; try (intros [_ [s Hs]]; discriminate);
      intros; eauto.
  - split; [discriminate | intros [Hn _]; contradiction].
Qed.

Lemma DIRECTIVE_FILES_GROUP_validate_Ok (d : DirectiveNode) :
  validate DIRECTIVE_FILES_GROUP d = Ok tt
  <-> dir_arguments d <> [] /\ Forall filesArgument (dir_arguments d).
Proof.
  cbn [validate DIRECTIVE_FILES_GROUP]. apply arguments_loop_Ok; [discriminate|].
  intros a. unfold filesArgument, unknownArgument.
  destruct (String.eqb_spec (arg_name a) "ext") as [E|E].
  - destruct (arg_value a) as [| | | | | |values|]; split;
      try discriminate; try (intros [_ [s Hs]]; discriminate).
    + intros Hv. apply eachString_Ok in Hv as [exts ->]. eauto.
    + intros [_ [exts Hs]]. injection Hs as ->. apply eachString_Ok. eauto.
  - split; [discriminate | intros [Hn _]; contradiction].
Qed.

(** X3. What the validation of the field directives accepts: [unique] and
    [localized] exactly the empty argument list; [file] exactly the lists
    that are not empty and hold only arguments [ext] with a string value;
    [files] exactly the lists that are not empty and hold only arguments
    [ext] with a list of strings, the empty list included. *)
Theorem X3_field_directive_arguments (d : DirectiveNode) :
  (validate DIRECTIVE_UNIQUE d = Ok tt <-> dir_arguments d = [])
  /\ (validate DIRECTIVE_LOCALIZED d = Ok tt <-> dir_arguments d = [])
  /\ (validate DIRECTIVE_FILE d = Ok tt
      <-> dir_arguments d <> [] /\ Forall fileArgument (dir_arguments d))
  /\ (validate DIRECTIVE_FILES_GROUP d = Ok tt
      <-> dir_arguments d <> [] /\ Forall filesArgument (dir_arguments d)).
Proof.
  split; [apply DIRECTIVE_UNIQUE_validate_Ok|].
  split; [apply DIRECTIVE_LOCALIZED_validate_Ok|].
  split; [apply DIRECTIVE_FILE_validate_Ok | apply DIRECTIVE_FILES_GROUP_validate_Ok].
Qed.

Lemma X3_field_directive_arguments_witness :
  validate DIRECTIVE_FILES_GROUP (MoreExamples.files []) = Ok tt
  /\ validate DIRECTIVE_FILE (MoreExamples.file "dds") = Ok tt.
Proof.
  split.
  - apply (proj2 (proj2 (proj2 (proj2
             (X3_field_directive_arguments (MoreExamples.files [])))))).
    split; [discriminate|]. constructor; [|constructor].
    split; [reflexivity | now exists []].
  - apply (proj2 (proj1 (proj2 (proj2
             (X3_field_directive_arguments (MoreExamples.file "dds")))))).
    split; [discriminate|]. constructor; [|constructor].
    split; [reflexivity | now exists "dds"].
Defined.

Lemma DIRECTIVE_ENUM_INDEXING_validate_Ok (d : DirectiveNode) :
  validate DIRECTIVE_ENUM_INDEXING d = Ok tt
  <-> dir_arguments d <> [] /\ Forall indexingArgument (dir_arguments d).
Proof.
  cbn [validate DIRECTIVE_ENUM_INDEXING]. apply arguments_loop_Ok; [discriminate|].
  intros a. unfold indexingArgument, unknownArgument.
  destruct (String.eqb_spec (arg_name a) "first") as [E|E].
  - destruct (arg_value a) as [|n| | | | | |]; split;
      try discriminate; try (intros [_ [Hs|Hs]]; discriminate).
    + destruct (Z.eqb_spec n 0) as [->|H0]; [auto|].
      destruct (Z.eqb_spec n 1) as [->|H1]; [auto | discriminate].
    + intros [_ [Hs|Hs]]; injection Hs as ->; reflexivity.
  - split; [discriminate | intros [Hn _]; contradiction].
Qed.

Lemma DIRECTIVE_TABLE_TAGS_validate_Ok (d : DirectiveNode) :
  validate DIRECTIVE_TABLE_TAGS d = Ok tt
  <-> dir_arguments d <> [] /\ Forall tagsArgument (dir_arguments d).
Proof.
  cbn [validate DIRECTIVE_TABLE_TAGS]. apply arguments_loop_Ok; [discriminate|].
  intros a. unfold tagsArgument, unknownArgument.
  destruct (String.eqb_spec (arg_name a) "list") as [E|E].
  - destruct (arg_value a) as [| | | | | |values|]; split;
      try discriminate; try (intros [_ [s [_ Hs]]]; discriminate).
    + destruct values as [|v values]; [discriminate|]. cbn [no_length].
      intros Hv. apply eachString_Ok in Hv as [tags Ht].
      split; [exact E|]. exists tags. split; [|now rewrite Ht].
      intros ->. discriminate.
    + intros [_ [tags [Hne Hs]]]. injection Hs as ->.
      destruct tags as [|s tags]; [contradiction|]. cbn [stringValues map no_length].
      apply (eachString_Ok (stringValues (s :: tags))). eauto.
  - split; [discriminate | intros [Hn _]; contradiction].
Qed.

(** X4. What the validation of [indexing] and [tags] accepts: [indexing]
    exactly the lists that are not empty and hold only arguments [first]
    with the integer 0 or 1; [tags] exactly the lists that are not empty
    and hold only arguments [list] with a list of strings that is not
    empty. *)
Theorem X4_definition_directive_arguments (d : DirectiveNode) :
  (validate DIRECTIVE_ENUM_INDEXING d = Ok tt
   <-> dir_arguments d <> [] /\ Forall indexingArgument (dir_arguments d))
  /\ (validate DIRECTIVE_TABLE_TAGS d = Ok tt
      <-> dir_arguments d <> [] /\ Forall tagsArgument (dir_arguments d)).
Proof.
  split; [apply DIRECTIVE_ENUM_INDEXING_validate_Ok
         | apply DIRECTIVE_TABLE_TAGS_validate_Ok].
Qed.

Lemma X4_definition_directive_arguments_witness :
  validate DIRECTIVE_ENUM_INDEXING (Examples.indexing 1) = Ok tt
  /\ validate DIRECTIVE_TABLE_TAGS (MoreExamples.tags ["core"; "item"]) = Ok tt.
Proof.
  split.
  - apply (proj2 (proj1 (X4_definition_directive_arguments (Examples.indexing 1)))).
    split; [discriminate|]. constructor; [|constructor].
    split; [reflexivity | now right].
  - apply (proj2 (proj2 (X4_definition_directive_arguments
                           (MoreExamples.tags ["core"; "item"])))).
    split; [discriminate|]. constructor; [|constructor].
    split; [reflexivity|]. exists ["core"; "item"]. split; [discriminate | reflexivity].
Defined.

(** ** Reading a validated directive *)

(** The directive that [findDirective] finds on a validated node is
    accepted and has the name looked for. *)
Lemma validated_directive {N : Type} `{HasDirectives N}
    (node : N) (specs : list DirectiveSpec) (name : string) (d : DirectiveNode) :
  validateDirectives node specs = Ok tt ->
  findDirective node name = Some d ->
  accepted specs d /\ dir_name d = name.
Proof.
  intros Hv Hd. unfold validateDirectives in Hv. rewrite forEach_Ok in Hv.
  unfold findDirective in Hd. apply find_some in Hd as [Hin Hname].
  apply String.eqb_eq in Hname. split; [|exact Hname].
  rewrite Forall_forall in Hv. specialize (Hv d Hin). unfold accepted.
  destruct (find _ specs) as [spec|]; [eauto | discriminate].
Qed.

Lemma validated_field_directive (f : FieldDefinitionNode) spec d :
  In spec FIELD_DIRECTIVES ->
  validateDirectives f FIELD_DIRECTIVES = Ok tt ->
  findDirective f (NAME spec) = Some d ->
  validate spec d = Ok tt.
Proof.
  intros Hs Hv Hd.
  destruct (validated_directive f FIELD_DIRECTIVES (NAME spec) d Hv Hd)
    as [[spec' [Hfind Hok]] Hname].
  rewrite Hname in Hfind.
  simpl in Hs. destruct Hs as [<-|[<-|[<-|[<-|[<-|[]]]]]];
    simpl in Hfind; injection Hfind as <-; exact Hok.
Qed.

Lemma mapM_stringValues (site : Assertion) (strings : list string) :
  mapM (fun listValue =>
          match listValue with
          | StringValue value => Ok value
          | _ => Throw (AssertionError site)
          end) (stringValues strings) = Ok strings.
Proof.
  unfold stringValues.
  induction strings as [|s strings IH]; cbn [map mapM bind]; [reflexivity|].
  now rewrite IH.
Qed.

Lemma length_not_one {A : Type} (l : list A) :
  l <> [] -> length l <> 1 -> exists a b l', l = a :: b :: l'.
Proof.
  destruct l as [|a [|b l']]; simpl; intros H1 H2;
    [contradiction | contradiction | eauto].
Qed.

Lemma length_one {A : Type} (l : list A) :
  length l = 1 -> exists a, l = [a].
Proof. destruct l as [|a [|b l']]; simpl; intros H; try discriminate; eauto. Qed.

(** X5. On a field whose directives are validated, the argument of the
    first [ref], [file] and [files] directive is read back as it was
    written when the directive has one argument, and the reading fails its
    assertion exactly when the directive has more than one argument. *)
Theorem X5_field_directive_values (f : FieldDefinitionNode) :
  validateDirectives f FIELD_DIRECTIVES = Ok tt ->
  (forall d, findDirective f (NAME DIRECTIVE_REF) = Some d ->
     (length (dir_arguments d) = 1 ->
        exists s,
          dir_arguments d = [ {| arg_name := "column"; arg_value := StringValue s |} ]
          /\ referencesField f = Ok (Some s))
     /\ (length (dir_arguments d) <> 1 ->
         referencesField f = Throw (AssertionError AssertRefArgs)))
  /\ (forall d, findDirective f (NAME DIRECTIVE_FILE) = Some d ->
        (length (dir_arguments d) = 1 ->
           exists s,
             dir_arguments d = [ {| arg_name := "ext"; arg_value := StringValue s |} ]
             /\ getFileExtension f = Ok (Some s))
        /\ (length (dir_arguments d) <> 1 ->
            getFileExtension f = Throw (AssertionError AssertFileArgs)))
  /\ (forall d, findDirective f (NAME DIRECTIVE_FILES_GROUP) = Some d ->
        (length (dir_arguments d) = 1 ->
           exists exts,
             dir_arguments d
             = [ {| arg_name := "ext"; arg_value := ListValue (stringValues exts) |} ]
             /\ getFileGroupExtensions f = Ok (Some exts))
        /\ (length (dir_arguments d) <> 1 ->
            getFileGroupExtensions f = Throw (AssertionError AssertFilesArgs))).
Proof.
  intros Hv. split; [|split]; intros d Hd.
  - pose proof (validated_field_directive f DIRECTIVE_REF d
                  ltac:(simpl; tauto) Hv Hd) as Hok.
    apply DIRECTIVE_REF_validate_Ok in Hok as [Hne HF].
    unfold referencesField. rewrite Hd. split.
    + intros Hlen. apply length_one in Hlen as [[name value] Ha].
      rewrite Ha in HF |- *. inversion HF as [|? ? [Hn [s Hs]] _]; subst.
      simpl in Hn, Hs. subst. exists s. split; reflexivity.
    + intros Hlen. destruct (length_not_one _ Hne Hlen) as [a [b [l ->]]].
      reflexivity.
  - pose proof (validated_field_directive f DIRECTIVE_FILE d
                  ltac:(simpl; tauto) Hv Hd) as Hok.
    apply DIRECTIVE_FILE_validate_Ok in Hok as [Hne HF].
    unfold getFileExtension. rewrite Hd. split.
    + intros Hlen. apply length_one in Hlen as [[name value] Ha].
      rewrite Ha in HF |- *. inversion HF as [|? ? [Hn [s Hs]] _]; subst.
      simpl in Hn, Hs. subst. exists s. split; reflexivity.
    + intros Hlen. destruct (length_not_one _ Hne Hlen) as [a [b [l ->]]].
      reflexivity.
  - pose proof (validated_field_directive f DIRECTIVE_FILES_GROUP d
                  ltac:(simpl; tauto) Hv Hd) as Hok.
    apply DIRECTIVE_FILES_GROUP_validate_Ok in Hok as [Hne HF].
    unfold getFileGroupExtensions. rewrite Hd. split.
    + intros Hlen. apply length_one in Hlen as [[name value] Ha].
      rewrite Ha in HF |- *. inversion HF as [|? ? [Hn [exts Hs]] _]; subst.
      simpl in Hn, Hs. subst. exists exts. split; [reflexivity|].
      cbn [arg_value arg_name String.eqb]. simpl assert_ok. cbn [bind].
      now rewrite mapM_stringValues.
    + intros Hlen. destruct (length_not_one _ Hne Hlen) as [a [b [l ->]]].
      reflexivity.
Qed.

Lemma X5_field_directive_values_witness :
  (exists s,
     dir_arguments (MoreExamples.file "dds")
     = [ {| arg_name := "ext"; arg_value := StringValue s |} ]
     /\ getFileExtension MoreExamples.Icon = Ok (Some s))
  /\ (exists exts,
        dir_arguments (MoreExamples.files ["png"; "jpg"])
        = [ {| arg_name := "ext"; arg_value := ListValue (stringValues exts) |} ]
        /\ getFileGroupExtensions MoreExamples.Icon = Ok (Some exts)).
Proof.
  split.
  - exact (proj1 (proj1 (proj2 (X5_field_directive_values MoreExamples.Icon eq_refl))
                   (MoreExamples.file "dds") eq_refl) eq_refl).
  - exact (proj1 (proj2 (proj2 (X5_field_directive_values MoreExamples.Icon eq_refl))
                   (MoreExamples.files ["png"; "jpg"]) eq_refl) eq_refl).
Defined.

(** A node validated against one specification has only directives of the
    name of the specification. *)
Lemma validated_single_spec {N : Type} `{HasDirectives N} (node : N) spec :
  validateDirectives node [spec] = Ok tt ->
  Forall (fun d => dir_name d = NAME spec /\ validate spec d = Ok tt)
         (directives node).
Proof.
  intros Hv. unfold validateDirectives in Hv. rewrite forEach_Ok in Hv.
  eapply Forall_impl; [|exact Hv]. intros d. cbn [find].
  destruct (String.eqb_spec (NAME spec) (dir_name d)) as [E|_]; [auto | discriminate].
Qed.

Lemma findDirective_None_name {N : Type} `{HasDirectives N} (node : N) name :
  findDirective node name = None ->
  Forall (fun d => dir_name d <> name) (directives node).
Proof.
  unfold findDirective. intros Hf. apply Forall_forall. intros d Hd E.
  apply (find_none _ _ Hf) in Hd. apply String.eqb_neq in Hd. contradiction.
Qed.

(** X6. On a table whose directives are validated: without a [tags]
    directive the table has no directive at all and its tags are empty;
    with one, the tags are read back in the order written, and there is at
    least one, when the directive has one argument, and the reading fails
    its assertion when it has more.  The tags of a table that is read are
    the tags read by [getTags]. *)
Theorem X6_table_tags (node : ObjectTypeDefinitionNode) :
  validateDirectives node [DIRECTIVE_TABLE_TAGS] = Ok tt ->
  (findDirective node (NAME DIRECTIVE_TABLE_TAGS) = None ->
     obj_directives node = [] /\ getTags node = Ok [])
  /\ (forall d, findDirective node (NAME DIRECTIVE_TABLE_TAGS) = Some d ->
        (length (dir_arguments d) = 1 ->
           exists tags,
             tags <> []
             /\ dir_arguments d
                = [ {| arg_name := "list";
                       arg_value := ListValue (stringValues tags) |} ]
             /\ getTags node = Ok tags)
        /\ (length (dir_arguments d) <> 1 ->
            getTags node = Throw (AssertionError AssertTagsArgs)))
  /\ (forall ctx t, readTable ctx node = Ok t -> getTags node = Ok (tbl_tags t)).
Proof.
  intros Hv. split; [|split].
  - intros Hnone. unfold getTags. rewrite Hnone. split; [|reflexivity].
    pose proof (validated_single_spec node _ Hv) as Hall.
    pose proof (findDirective_None_name node _ Hnone) as Hno.
    change (directives node) with (obj_directives node) in Hall, Hno.
    destruct (obj_directives node) as [|d ds]; [reflexivity|].
    inversion Hall as [|? ? [Hn _] _]; inversion Hno as [|? ? Hn' _]; subst.
    contradiction.
  - intros d Hd.
    destruct (validated_directive node _ _ d Hv Hd) as [[spec [Hfind Hok]] Hname].
    rewrite Hname in Hfind. simpl in Hfind. injection Hfind as <-.
    apply DIRECTIVE_TABLE_TAGS_validate_Ok in Hok as [Hne HF].
    unfold getTags. rewrite Hd. split.
    + intros Hlen. apply length_one in Hlen as [[name value] Ha].
      rewrite Ha in HF |- *. inversion HF as [|? ? [Hn [tags [Ht Hs]]] _]; subst.
      simpl in Hn, Hs. subst. exists tags. split; [exact Ht|].
      split; [reflexivity|]. cbn [arg_value arg_name]. simpl assert_ok. cbn [bind].
      apply mapM_stringValues.
    + intros Hlen. destruct (length_not_one _ Hne Hlen) as [a [b [l ->]]].
      reflexivity.
  - intros ctx t Ht. unfold readTable in Ht.
    apply bind_Ok in Ht as [[] [_ Ht]]. apply bind_Ok in Ht as [tags [Htags Ht]].
    apply bind_Ok in Ht as [columns [_ Ht]]. injection Ht as <-. exact Htags.
Qed.

Lemma X6_table_tags_witness :
  exists tags,
    tags <> []
    /\ dir_arguments (MoreExamples.tags ["core"; "item"])
       = [ {| arg_name := "list"; arg_value := ListValue (stringValues tags) |} ]
    /\ getTags MoreExamples.Tagged = Ok tags.
Proof.
  exact (proj1 (proj1 (proj2 (X6_table_tags MoreExamples.Tagged eq_refl))
                 (MoreExamples.tags ["core"; "item"]) eq_refl) eq_refl).
Defined.

(** ** Enumerations that are accepted *)

Lemma named_app entries entries' :
  named (entries ++ entries') = named entries ++ named entries'.
Proof.
  induction entries as [|[s|] entries IH]; simpl; rewrite ?IH; reflexivity.
Qed.

Lemma named_enumerators names : named (map enumeratorOf names) = namedValues names.
Proof.
  induction names as [|n names IH]; simpl; [reflexivity|].
  unfold enumeratorOf at 1. destruct (String.eqb n "_"); simpl; now rewrite IH.
Qed.

Lemma named_collapse enumerators :
  named (collapseEnumerators enumerators) = named enumerators.
Proof. destruct enumerators as [|[s|] [|e l]]; reflexivity. Qed.

Lemma includes_named enumerators name :
  includes enumerators name = true <-> In name (named enumerators).
Proof.
  unfold includes. induction enumerators as [|[s|] l IH]; simpl.
  - split; [discriminate | contradiction].
  - rewrite orb_true_iff, IH, String.eqb_eq. tauto.
  - exact IH.
Qed.

(** The loop over the values, when it succeeds, has met no name other than
    the placeholder twice. *)
Lemma forOf_pushEnumerator_Ok names : forall enumerators collected,
  forOf pushEnumerator names enumerators = Ok collected ->
  collected = enumerators ++ map enumeratorOf names
  /\ (NoDup (named enumerators) -> NoDup (named collected)).
Proof.
  induction names as [|n names IH]; intros acc collected H; simpl in H.
  - injection H as <-. rewrite app_nil_r. auto.
  - apply bind_Ok in H as [acc' [Hpush H]]. apply IH in H as [-> Hnd].
    unfold pushEnumerator in Hpush. cbn [map]. unfold enumeratorOf at 2.
    destruct (String.eqb n "_").
    + injection Hpush as <-. split; [now rewrite <- app_assoc|].
      intros Hacc. apply Hnd. rewrite named_app. simpl. now rewrite app_nil_r.
    + destruct (includes acc n) eqn:Hinc; [discriminate|].
      injection Hpush as <-. split; [now rewrite <- app_assoc|].
      intros Hacc. apply Hnd. rewrite named_app. simpl.
      apply NoDup_app; [exact Hacc | repeat constructor; intros [] |].
      intros a Ha [<-|[]]. apply includes_named in Ha. congruence.
Qed.

Lemma getIndexingBase_Ok e indexing :
  getIndexingBase e = Ok indexing ->
  (indexing = 0%Z \/ indexing = 1%Z)
  /\ exists d,
       findDirective e (NAME DIRECTIVE_ENUM_INDEXING) = Some d
       /\ dir_arguments d
          = [ {| arg_name := "first"; arg_value := IntValue indexing |} ].
Proof.
  unfold getIndexingBase.
  destruct (findDirective e (NAME DIRECTIVE_ENUM_INDEXING)) as [d|]; [|discriminate].
  destruct (dir_arguments d) as [|[name value] [|b l]] eqn:Ha; try discriminate.
  cbn [arg_value arg_name]. destruct value as [|first| | | | | |]; try discriminate.
  destruct (String.eqb_spec name "first") as [->|_]; [|discriminate].
  cbn [assert_ok bind].
  destruct (Z.eqb_spec first 0) as [->|H0]; cbn [orb assert_ok bind].
  - intros H. injection H as <-. split; [auto|]. exists d. split; [reflexivity | exact Ha].
  - destruct (Z.eqb_spec first 1) as [->|H1]; cbn [assert_ok bind]; [|discriminate].
    intros H. injection H as <-. split; [auto|]. exists d. split; [reflexivity | exact Ha].
Qed.

(** X7. An enumeration that is accepted keeps its name, has the indexing
    0 or 1 that its [indexing] directive gives as its one argument, has as
    enumerators the names in order with a null slot for each [_] (none
    at all when it is one [_]), and has no name twice among its
    enumerators. *)
Theorem X7_enumeration_invariants (e : EnumTypeDefinitionNode)
    (s : SchemaEnumeration) :
  parseEnumNode e = Ok s ->
  enm_name s = enum_name e
  /\ (enm_indexing s = 0%Z \/ enm_indexing s = 1%Z)
  /\ (exists d,
        findDirective e (NAME DIRECTIVE_ENUM_INDEXING) = Some d
        /\ dir_arguments d
           = [ {| arg_name := "first"; arg_value := IntValue (enm_indexing s) |} ])
  /\ enm_enumerators s = collapseEnumerators (map enumeratorOf (enum_values e))
  /\ NoDup (named (enm_enumerators s)).
Proof.
  intros H. assert (H' := H). unfold parseEnumNode in H'.
  apply bind_Ok in H' as [[] [_ H']].
  destruct (findDirective e (NAME DIRECTIVE_ENUM_INDEXING)) as [d0|] eqn:Hfd;
    [|discriminate].
  apply bind_Ok in H' as [indexing [Hi H']].
  apply bind_Ok in H' as [collected [Hc H']]. injection H' as <-.
  cbn [enm_name enm_indexing enm_enumerators].
  apply getIndexingBase_Ok in Hi as [Hi [d [Hd Ha]]].
  apply forOf_pushEnumerator_Ok in Hc as [-> Hnd]. cbn [app] in *.
  split; [reflexivity|]. split; [exact Hi|].
  split; [exists d; split; [congruence | exact Ha]|].
  split; [reflexivity|].
  rewrite named_collapse. apply Hnd. constructor.
Qed.

Lemma X7_enumeration_invariants_witness :
  enm_enumerators
    {| enm_name := "Rarity"; enm_indexing := 0;
       enm_enumerators := [Some "Normal"; Some "Magic"] |}
  = collapseEnumerators (map enumeratorOf (enum_values Examples.Rarity)).
Proof.
  exact (proj1 (proj2 (proj2 (proj2
           (X7_enumeration_invariants Examples.Rarity
              {| enm_name := "Rarity"; enm_indexing := 0;
                 enm_enumerators := [Some "Normal"; Some "Magic"] |}
              eq_refl))))).
Defined.

(** X8. An enumeration without an [indexing] directive is never
    accepted: with no directive at all it fails with the error of the
    required directive, at the enumeration; otherwise it fails with the
    error of the unknown directive, at the name of its first directive. *)
Theorem X8_enumeration_without_indexing (e : EnumTypeDefinitionNode) :
  findDirective e (NAME DIRECTIVE_ENUM_INDEXING) = None ->
  (forall s, parseEnumNode e <> Ok s)
  /\ (enum_directives e = [] ->
      parseEnumNode e
      = throwAt "`indexing` directive is required for enums." (AtEnum e))
  /\ (forall d ds, enum_directives e = d :: ds ->
        parseEnumNode e
        = throwAt (template ["Unknown directive "; quoted (dir_name d); "."])
                  (AtName (dir_name d))).
Proof.
  intros Hnone. split; [|split].
  - intros s H. unfold parseEnumNode in H. apply bind_Ok in H as [[] [_ H]].
    rewrite Hnone in H. discriminate.
  - intros Hd. unfold parseEnumNode, validateDirectives.
    change (directives e) with (enum_directives e). rewrite Hd, Hnone. reflexivity.
  - intros d ds Hd. pose proof (findDirective_None_name e _ Hnone) as Hno.
    change (directives e) with (enum_directives e) in Hno. rewrite Hd in Hno.
    inversion Hno as [|? ? Hn _]; subst.
    unfold parseEnumNode, validateDirectives.
    change (directives e) with (enum_directives e). rewrite Hd, forEach_cons.
    cbn [find]. simpl NAME.
    destruct (String.eqb_spec "indexing" (dir_name d)) as [E|_].
    + exfalso. apply Hn. now rewrite <- E.
    + reflexivity.
Qed.

Lemma X8_enumeration_without_indexing_witness :
  parseEnumNode (mkEnumType "Plain" [] ["A"; "B"])
  = throwAt "`indexing` directive is required for enums."
            (AtEnum (mkEnumType "Plain" [] ["A"; "B"])).
Proof.
  exact (proj1 (proj2 (X8_enumeration_without_indexing
                         (mkEnumType "Plain" [] ["A"; "B"]) eq_refl)) eq_refl).
Defined.

(** ** Tables that are read *)

(** What a column keeps of its field besides its type. *)
Lemma parseFieldNode_Ok_card ctx T f c :
  parseFieldNode ctx T f = Ok c ->
  col_name c = columnName (field_name f)
  /\ col_description c = field_description f
  /\ col_unique c = isUnique f
  /\ col_localized c = isLocalized f
  /\ col_until c = None.
Proof.
  unfold parseFieldNode. intros H.
  apply bind_Ok in H as [[] [_ H]]. apply bind_Ok in H as [x [_ H]].
  apply bind_Ok in H as [ft [_ H]]. apply bind_Ok in H as [cl [_ H]].
  apply bind_Ok in H as [rs [_ H]]. apply bind_Ok in H as [[] [_ H]].
  apply bind_Ok in H as [file [_ H]]. apply bind_Ok in H as [files [_ H]].
  injection H as <-. repeat split.
Qed.

Lemma duplicate_column_test (columns : list TableColumn) (name : string) :
  existsb (fun col => match col_name col with
                      | Some n => String.eqb n name
                      | None => false
                      end) columns = true
  <-> In name (named (map col_name columns)).
Proof.
  induction columns as [|c columns IH]; simpl.
  - split; [discriminate | contradiction].
  - destruct (col_name c) as [n|]; simpl.
    + rewrite orb_true_iff, IH, String.eqb_eq. tauto.
    + exact IH.
Qed.

Lemma map_col_name_app columns c :
  named (map col_name (columns ++ [c]))
  = named (map col_name columns) ++ named [col_name c].
Proof. now rewrite map_app, named_app. Qed.

(** The loop over the fields keeps the names of the columns distinct. *)
Lemma forOf_pushColumn_NoDup ctx T fields : forall columns columns',
  forOf (pushColumn ctx T) fields columns = Ok columns' ->
  NoDup (named (map col_name columns)) ->
  NoDup (named (map col_name columns')).
Proof.
  induction fields as [|f fields IH]; intros columns columns' H Hnd; simpl in H.
  - now injection H as <-.
  - apply bind_Ok in H as [columns1 [H1 H]]. apply (IH _ _ H). clear IH H.
    unfold pushColumn in H1. apply bind_Ok in H1 as [c [_ H1]].
    destruct (col_name c) as [name|] eqn:Hname.
    + destruct (existsb _ columns) eqn:Hex; [discriminate|].
      injection H1 as <-. rewrite map_col_name_app, Hname. simpl.
      apply NoDup_app; [exact Hnd | repeat constructor; intros [] |].
      intros a Ha [<-|[]]. apply duplicate_column_test in Ha. congruence.
    + injection H1 as <-. rewrite map_col_name_app, Hname. simpl.
      now rewrite app_nil_r.
Qed.

Lemma Forall2_map_eq {A B C : Type} (g : A -> C) (h : B -> C) l l' :
  Forall2 (fun a b => h b = g a) l l' -> map h l' = map g l.
Proof. induction 1; simpl; congruence. Qed.

(** X9. A table that is read has the name of its definition and one
    column for each field, in order, named like the field, or not named
    when the field is named [_]; no two of its columns have the same name,
    and no column has an [until]. *)
Theorem X9_table_invariants (ctx : Context) (node : ObjectTypeDefinitionNode)
    (t : SchemaTable) :
  readTable ctx node = Ok t ->
  tbl_name t = obj_name node
  /\ map col_name (tbl_columns t)
     = map (fun f => columnName (field_name f)) (obj_fields node)
  /\ NoDup (named (map col_name (tbl_columns t)))
  /\ Forall (fun c => col_until c = None) (tbl_columns t).
Proof.
  intros H. destruct (readTable_Ok ctx node t H) as [Hname Hcols].
  split; [exact Hname|]. split; [|split].
  - apply Forall2_map_eq. eapply Forall2_impl; [|exact Hcols].
    intros f c Hc. now apply parseFieldNode_Ok_card in Hc.
  - unfold readTable in H. apply bind_Ok in H as [[] [_ H]].
    apply bind_Ok in H as [tags [_ H]]. apply bind_Ok in H as [columns [Hc H]].
    injection H as <-. cbn [tbl_columns].
    apply (forOf_pushColumn_NoDup _ _ _ _ _ Hc). constructor.
  - clear H. induction Hcols as [|f c fs cs Hc _ IH]; constructor; [|exact IH].
    now apply parseFieldNode_Ok_card in Hc.
Qed.

Lemma X9_table_invariants_witness :
  map col_name
    [makeColumn (Examples.plain "_" (NamedType "i32")) false "i32" None None None;
     makeColumn (Examples.plain "Id" (NamedType "i32")) false "i32" None None None;
     makeColumn (Examples.plain "_" (ListType (NamedType "_"))) true "array"
       None None None;
     makeColumn (Examples.annotated "Name" (NamedType "string")
                   [MoreExamples.localized]) false "string" None None None]
  = map (fun f => columnName (field_name f)) (obj_fields MoreExamples.Tagged).
Proof.
  exact (proj1 (proj2 (X9_table_invariants Examples.noContext MoreExamples.Tagged
    {| tbl_name := "Tagged";
       tbl_columns :=
         [makeColumn (Examples.plain "_" (NamedType "i32")) false "i32"
            None None None;
          makeColumn (Examples.plain "Id" (NamedType "i32")) false "i32"
            None None None;
          makeColumn (Examples.plain "_" (ListType (NamedType "_"))) true "array"
            None None None;
          makeColumn (Examples.annotated "Name" (NamedType "string")
                        [MoreExamples.localized]) false "string" None None None];
       tbl_tags := ["core"; "item"] |} eq_refl))).
Defined.

Lemma named_columnName_In (names : list string) (name : string) :
  name <> "_" ->
  In name (named (map columnName names)) <-> In name names.
Proof.
  intros Hn. induction names as [|n names IH]; simpl; [tauto|].
  unfold columnName at 1. destruct (String.eqb_spec n "_") as [->|Hne]; simpl.
  - rewrite IH. split; [auto | intros [E|H]; [congruence | exact H]].
  - rewrite IH. tauto.
Qed.

Lemma forOf_pushColumn_names ctx T fields columns :
  forOf (pushColumn ctx T) fields [] = Ok columns ->
  map col_name columns = map columnName (map field_name fields).
Proof.
  intros H. apply forOf_pushColumn_Ok in H as [cs [-> Hcs]]. cbn [app].
  rewrite map_map. apply Forall2_map_eq. eapply Forall2_impl; [|exact Hcs].
  intros f c Hc. now apply parseFieldNode_Ok_card in Hc.
Qed.

(** X10. A field that resolves and whose name, other than [_], is the
    name of a field before it makes the table fail with the error of the
    duplicate column, at the name of the field; a field named [_] that
    resolves is always added, whatever the columns before it. *)
Theorem X10_duplicate_column (ctx : Context) (node : ObjectTypeDefinitionNode)
    (pre post : list FieldDefinitionNode) (f : FieldDefinitionNode)
    (columns : list TableColumn) (c : TableColumn) :
  validateDirectives node [DIRECTIVE_TABLE_TAGS] = Ok tt ->
  is_ok (getTags node) = true ->
  obj_fields node = pre ++ f :: post ->
  forOf (pushColumn ctx (obj_name node)) pre [] = Ok columns ->
  parseFieldNode ctx (obj_name node) f = Ok c ->
  (field_name f <> "_" -> In (field_name f) (map field_name pre) ->
     readTable ctx node
     = throwAt (template ["Duplicate column name "; quoted (field_name f); "."])
               (AtName (field_name f)))
  /\ (field_name f = "_" \/ ~ In (field_name f) (map field_name pre) ->
      forOf (pushColumn ctx (obj_name node)) (pre ++ [f]) [] = Ok (columns ++ [c])).
Proof.
  intros Hv Htags Hfields Hpre Hc.
  pose proof (forOf_pushColumn_names _ _ _ _ Hpre) as Hnames.
  pose proof (parseFieldNode_Ok_card _ _ _ _ Hc) as [Hname _].
  split.
  - intros Hne Hin. unfold readTable. rewrite Hv. cbn [bind].
    destruct (getTags node) as [tags|]; [|discriminate]. cbn [bind].
    rewrite Hfields, forOf_app, Hpre. cbn [bind forOf].
    unfold pushColumn at 1. rewrite Hc. cbn [bind]. rewrite Hname.
    unfold columnName. destruct (String.eqb_spec (field_name f) "_"); [contradiction|].
    assert (Hex : existsb (fun col => match col_name col with
                                      | Some n => String.eqb n (field_name f)
                                      | None => false
                                      end) columns = true).
    { apply duplicate_column_test. rewrite Hnames.
      now apply named_columnName_In. }
    rewrite Hex. reflexivity.
  - intros Hcase. rewrite forOf_app, Hpre. cbn [bind forOf].
    unfold pushColumn. rewrite Hc. cbn [bind]. rewrite Hname. unfold columnName.
    destruct (String.eqb_spec (field_name f) "_") as [E|Hne]; [reflexivity|].
    destruct Hcase as [E|Hnotin]; [contradiction|].
    destruct (existsb _ columns) eqn:Hex; [|reflexivity].
    apply duplicate_column_test in Hex. rewrite Hnames in Hex.
    apply (proj1 (named_columnName_In _ _ Hne)) in Hex. contradiction.
Qed.

Lemma X10_duplicate_column_witness :
  readTable Examples.noContext
    (mkObjectType "Pair" []
       [Examples.plain "Key" (NamedType "i32");
        Examples.plain "_" (NamedType "i32");
        Examples.plain "Key" (NamedType "string")])
  = throwAt (template ["Duplicate column name "; quoted "Key"; "."]) (AtName "Key").
Proof.
  refine (proj1 (X10_duplicate_column Examples.noContext
    (mkObjectType "Pair" []
       [Examples.plain "Key" (NamedType "i32");
        Examples.plain "_" (NamedType "i32");
        Examples.plain "Key" (NamedType "string")])
    [Examples.plain "Key" (NamedType "i32"); Examples.plain "_" (NamedType "i32")]
    [] (Examples.plain "Key" (NamedType "string")) _ _
    eq_refl eq_refl eq_refl eq_refl eq_refl) _ _).
  - discriminate.
  - simpl. auto.
Defined.

(** ** The run as a whole *)

Lemma parseEnumNode_Ok_name e s : parseEnumNode e = Ok s -> enm_name s = enum_name e.
Proof.
  unfold parseEnumNode. intros H. apply bind_Ok in H as [[] [_ H]].
  destruct (findDirective e (NAME DIRECTIVE_ENUM_INDEXING)); [|discriminate].
  apply bind_Ok in H as [i [_ H]]. apply bind_Ok in H as [c [_ H]].
  now injection H as <-.
Qed.

(** X11. A run that succeeds returns one table for each table definition
    and one enumeration for each enumeration definition of the documents,
    under the name of the definition and in the order of the definitions
    over all documents; no two tables and no two enumerations have the
    same name, and every definition is a table or an enumeration. *)
Theorem X11_output_order {Source : Type}
    (parse : Source -> string + DocumentNode)
    (sources : list Source) (docs : list DocumentNode) (r : SchemaFile) :
  Forall2 (fun source doc => parse source = inr doc) sources docs ->
  readSchemaSources parse sources = Ok r ->
  map tbl_name (tables r) = map obj_name (tableNodes (allDefinitions docs))
  /\ map enm_name (enumerations r)
     = map enum_name (enumNodes (allDefinitions docs))
  /\ NoDup (map tbl_name (tables r))
  /\ NoDup (map enm_name (enumerations r))
  /\ forallb supported (allDefinitions docs) = true.
Proof.
  intros Hp Hr. unfold allDefinitions.
  apply readSchemaSources_Ok in Hr as [ctx [Hctx [Hts Hes]]].
  apply (readSource_maps parse sources docs ctx Hp) in Hctx
    as [Hsup [Hndt [Hnde ->]]].
  cbn [typeDefsMap enumDefsMap] in Hts, Hes.
  unfold tableEntries, enumEntries in Hts, Hes.
  rewrite values_entriesBy in Hts. rewrite values_entriesBy in Hes.
  assert (Et : map tbl_name (tables r)
               = map obj_name (tableNodes (flat_map definitions docs))).
  { apply Forall2_map_eq. eapply Forall2_impl; [|exact Hts].
    intros n t Ht. now apply readTable_Ok in Ht. }
  assert (Ee : map enm_name (enumerations r)
               = map enum_name (enumNodes (flat_map definitions docs))).
  { apply Forall2_map_eq. eapply Forall2_impl; [|exact Hes].
    intros n e He. now apply parseEnumNode_Ok_name. }
  rewrite Et, Ee. auto.
Qed.

Lemma X11_output_order_witness :
  map tbl_name
    (tables {| tables :=
                 [ {| tbl_name := "Item";
                      tbl_columns :=
                        [makeColumn (Examples.plain "Level" (NamedType "i32"))
                           false "i32" None None None];
                      tbl_tags := [] |};
                   {| tbl_name := "i32";
                      tbl_columns :=
                        [makeColumn (Examples.plain "Value" (NamedType "bool"))
                           false "bool" None None None];
                      tbl_tags := [] |} ];
               enumerations := [] |})
  = map obj_name
      (tableNodes (allDefinitions [Examples.levelDoc; Examples.i32Doc])).
Proof.
  refine (proj1 (X11_output_order parsed [Examples.levelDoc; Examples.i32Doc]
                   [Examples.levelDoc; Examples.i32Doc] _ _ eq_refl)).
  repeat constructor.
Defined.

(** The maps after a list of definitions without an unsupported definition
    or a repeated name. *)
Lemma forOf_addDefinition_empty defs :
  forallb supported defs = true ->
  NoDup (map obj_name (tableNodes defs)) ->
  NoDup (map enum_name (enumNodes defs)) ->
  forOf addDefinition defs emptyContext
  = Ok {| typeDefsMap := tableEntries (tableNodes defs);
          enumDefsMap := enumEntries (enumNodes defs) |}.
Proof.
  intros Hs Ht He. unfold emptyContext. apply forOf_addDefinition.
  rewrite !insertable_empty. auto.
Qed.

Lemma readSchemaSources_maps_Throw {Source : Type}
    (parse : Source -> string + DocumentNode) sources e :
  forOf (readSource parse) sources emptyContext = Throw e ->
  readSchemaSources parse sources = Throw e.
Proof. intros H. rewrite readSchemaSources_mapM, H. reflexivity. Qed.

(** X12. When the sources before a source parse, the source parses, and
    the definitions of the documents, taken in order, are fine up to a
    definition of that source that is of another kind, or a table whose
    name a table before it has, or an enumeration whose name an enumeration
    before it has, the run fails at that definition: with the error of the
    unsupported definition at the definition, or with the error of the
    table, or of the enumeration, already defined, at its name.  The
    sources after that source are not parsed, and nothing is asked of
    them. *)
Theorem X12_definition_errors {Source : Type}
    (parse : Source -> string + DocumentNode)
    (before after : list Source) (source : Source)
    (docs : list DocumentNode) (doc : DocumentNode)
    (pre post : list DefinitionNode) (d : DefinitionNode) :
  Forall2 (fun source doc => parse source = inr doc) before docs ->
  parse source = inr doc ->
  definitions doc = pre ++ d :: post ->
  forallb supported (allDefinitions docs ++ pre) = true ->
  NoDup (map obj_name (tableNodes (allDefinitions docs ++ pre))) ->
  NoDup (map enum_name (enumNodes (allDefinitions docs ++ pre))) ->
  (forall kind, d = OtherDefinition kind ->
     readSchemaSources parse (before ++ source :: after)
     = throwAt "Unsupported definition." (AtDefinition d))
  /\ (forall node, d = ObjectTypeDefinition node ->
        In (obj_name node)
           (map obj_name (tableNodes (allDefinitions docs ++ pre))) ->
        readSchemaSources parse (before ++ source :: after)
        = throwAt "Table with this name has already been defined."
                  (AtName (obj_name node)))
  /\ (forall node, d = EnumTypeDefinition node ->
        In (enum_name node)
           (map enum_name (enumNodes (allDefinitions docs ++ pre))) ->
        readSchemaSources parse (before ++ source :: after)
        = throwAt "Enum with this name has already been defined."
                  (AtName (enum_name node))).
Proof.
  intros Hp Hsrc Hdefs Hs Ht He.
  set (defs := allDefinitions docs ++ pre) in *.
  assert (Hrun : forall e,
            addDefinition {| typeDefsMap := tableEntries (tableNodes defs);
                             enumDefsMap := enumEntries (enumNodes defs) |} d
            = Throw e ->
            readSchemaSources parse (before ++ source :: after) = Throw e).
  { intros e Hd. apply readSchemaSources_maps_Throw.
    pose proof (forOf_addDefinition_empty defs Hs Ht He) as Hmaps.
    unfold defs in Hmaps. rewrite forOf_app in Hmaps.
    rewrite forOf_app, (forOf_readSource parse before docs Hp).
    fold (allDefinitions docs).
    destruct (forOf addDefinition (allDefinitions docs) emptyContext)
      as [maps|e'] eqn:Hdocs; [|discriminate].
    cbn [bind] in Hmaps. cbn [bind forOf]. unfold readSource at 1.
    rewrite Hsrc, Hdefs, forOf_app, Hmaps. cbn [bind forOf].
    unfold defs in Hd. now rewrite Hd. }
  split; [|split].
  - intros kind ->. apply Hrun. reflexivity.
  - intros node -> Hin. apply Hrun. cbn [addDefinition typeDefsMap].
    assert (Hhas : JsMap.has (tableEntries (tableNodes defs)) (obj_name node) = true).
    { apply JsMap_has_keys. unfold tableEntries. now rewrite keys_entriesBy. }
    now rewrite Hhas.
  - intros node -> Hin. apply Hrun. cbn [addDefinition enumDefsMap].
    assert (Hhas : JsMap.has (enumEntries (enumNodes defs)) (enum_name node) = true).
    { apply JsMap_has_keys. unfold enumEntries. now rewrite keys_entriesBy. }
    now rewrite Hhas.
Qed.

Lemma X12_definition_errors_witness :
  readSchemaSources MoreExamples.parsedOrError
    [Some Examples.itemDoc;
     Some (Examples.doc [Examples.enum "Rarity" []; Examples.table "Item" []]);
     None]
  = throwAt "Table with this name has already been defined." (AtName "Item").
Proof.
  refine (proj1 (proj2 (X12_definition_errors MoreExamples.parsedOrError
            [Some Examples.itemDoc] [None]
            (Some (Examples.doc [Examples.enum "Rarity" [];
                                 Examples.table "Item" []]))
            [Examples.itemDoc]
            (Examples.doc [Examples.enum "Rarity" []; Examples.table "Item" []])
            [Examples.enum "Rarity" []] [] (Examples.table "Item" [])
            _ eq_refl eq_refl eq_refl _ _))
          (mkObjectType "Item" [] []) eq_refl _).
  - repeat constructor.
  - simpl. constructor; [intros [] | constructor].
  - simpl. constructor; [intros [] | constructor].
  - simpl. auto.
Defined.

(** X13. When the sources before a source are read without error and the
    source itself does not parse, the run fails with the syntax error of
    that source, whatever the sources after it. *)
Theorem X13_syntax_error {Source : Type}
    (parse : Source -> string + DocumentNode)
    (pre post : list Source) (source : Source) (docs : list DocumentNode)
    (message : string) :
  Forall2 (fun source doc => parse source = inr doc) pre docs ->
  is_ok (forOf addDefinition (allDefinitions docs) emptyContext) = true ->
  parse source = inl message ->
  readSchemaSources parse (pre ++ source :: post)
  = Throw (GraphQLError message None None).
Proof.
  intros Hp Hok Hs. apply readSchemaSources_maps_Throw.
  rewrite forOf_app, (forOf_readSource parse pre docs Hp).
  unfold allDefinitions in Hok.
  destruct (forOf addDefinition (flat_map definitions docs) emptyContext)
    as [maps|]; [|discriminate].
  cbn [bind forOf]. unfold readSource at 1. now rewrite Hs.
Qed.

Lemma X13_syntax_error_witness :
  readSchemaSources
    (fun source : option DocumentNode =>
       match source with
       | Some doc => inr doc
       | None => inl "Syntax Error: Unexpected <EOF>."
       end)
    ([Some Examples.itemDoc] ++ None :: [Some Examples.baseDoc])
  = Throw (GraphQLError "Syntax Error: Unexpected <EOF>." None None).
Proof.
  refine (X13_syntax_error _ [Some Examples.itemDoc] [Some Examples.baseDoc] None
            [Examples.itemDoc] "Syntax Error: Unexpected <EOF>." _ eq_refl eq_refl).
  repeat constructor.
Defined.

(** X14. With the two maps built, the run fails with the error of the
    first table of the table map that is not read, whatever the
    enumerations; and when every table is read, with the error of the
    first enumeration of the enumeration map that is not accepted. *)
Theorem X14_first_error {Source : Type}
    (parse : Source -> string + DocumentNode) (sources : list Source)
    (ctx : Context) :
  forOf (readSource parse) sources emptyContext = Ok ctx ->
  (forall pre node post e,
     JsMap.values (typeDefsMap ctx) = pre ++ node :: post ->
     is_ok (mapM (readTable ctx) pre) = true ->
     readTable ctx node = Throw e ->
     readSchemaSources parse sources = Throw e)
  /\ (forall pre node post e,
        is_ok (mapM (readTable ctx) (JsMap.values (typeDefsMap ctx))) = true ->
        JsMap.values (enumDefsMap ctx) = pre ++ node :: post ->
        is_ok (mapM parseEnumNode pre) = true ->
        parseEnumNode node = Throw e ->
        readSchemaSources parse sources = Throw e).
Proof.
  intros Hctx. split.
  - intros pre node post e Hvals Hpre Hnode.
    rewrite readSchemaSources_mapM, Hctx. cbn [bind].
    rewrite Hvals, (mapM_first _ pre node post e Hpre Hnode). reflexivity.
  - intros pre node post e Hts Hvals Hpre Hnode.
    rewrite readSchemaSources_mapM, Hctx. cbn [bind].
    destruct (mapM (readTable ctx) _) as [ts|]; [|discriminate]. cbn [bind].
    rewrite Hvals, (mapM_first _ pre node post e Hpre Hnode). reflexivity.
Qed.

Lemma X14_first_error_witness :
  readSchemaSources parsed
    [Examples.doc [EnumTypeDefinition (mkEnumType "Plain" [] ["A"]);
                   Examples.table "Item" [Examples.plain "Kind" (NamedType "Kind")]]]
  = throwAt (template ["Can't find referenced table/enum "; quoted "Kind"; "."])
            (AtType (NamedType "Kind")).
Proof.
  exact (proj1 (X14_first_error parsed
           [Examples.doc [EnumTypeDefinition (mkEnumType "Plain" [] ["A"]);
                          Examples.table "Item"
                            [Examples.plain "Kind" (NamedType "Kind")]]]
           _ eq_refl)
         [] (mkObjectType "Item" [] [Examples.plain "Kind" (NamedType "Kind")]) []
         _ eq_refl eq_refl eq_refl).
Defined.

(** ** References of a run that succeeds *)

Lemma findReferencedField_Some def x type :
  findReferencedField def x = Ok (Some type) ->
  exists g,
    find (fun field => String.eqb (field_name field) x) (obj_fields def) = Some g
    /\ field_type g = NamedType type
    /\ isUnique g = true
    /\ ScalarTypes_has type = true.
Proof.
  unfold findReferencedField.
  destruct (find _ (obj_fields def)) as [g|] eqn:Hf; [|discriminate].
  destruct (unwrapType g) as [gt|] eqn:Hu; [|discriminate]. cbn [bind].
  destruct (ft_array gt) eqn:Ha; [discriminate|].
  destruct (isUnique g) eqn:Hq; [|discriminate]. cbn [negb].
  destruct (ScalarTypes_has (ft_name gt)) eqn:Hs; [|discriminate]. cbn [negb].
  intros H. injection H as <-. exists g.
  apply unwrapType_Ok in Hu. rewrite Ha in Hu. auto.
Qed.

Lemma parseFieldNode_classify_column ctx T f ft type r :
  parseFieldNode_classify ctx T f ft = Ok (type, Some r) -> ref_column r = None.
Proof.
  unfold parseFieldNode_classify.
  repeat match goal with
         | |- context [if ?b then _ else _] => destruct b
         end; intros H; try discriminate; now injection H as <- <-.
Qed.

(** The block of the [ref] directive, when it names a column: the column
    is a unique scalar field, not list-wrapped, of the referenced table. *)
Lemma parseFieldNode_ref_column ctx f refFieldName type references type' tn x :
  parseFieldNode_ref ctx f refFieldName (type, references)
  = Ok (type', Some {| ref_table := tn; ref_column := Some x |}) ->
  (forall r, references = Some r -> ref_column r = None) ->
  exists r def g,
    references = Some r /\ ref_table r = tn
    /\ JsMap.get (typeDefsMap ctx) tn = Some def
    /\ find (fun field => String.eqb (field_name field) x) (obj_fields def) = Some g
    /\ field_type g = NamedType type'
    /\ isUnique g = true
    /\ ScalarTypes_has type' = true.
Proof.
  intros H Hcol. unfold parseFieldNode_ref in H.
  destruct refFieldName as [y|].
  2: { injection H as _ H. specialize (Hcol _ H). discriminate. }
  destruct (truthy y).
  2: { injection H as _ H. specialize (Hcol _ H). discriminate. }
  cbn [snd] in H. destruct references as [r|]; [|discriminate].
  destruct (truthy (ref_table r)); [|discriminate]. cbn [assert_ok bind] in H.
  destruct (JsMap.get (typeDefsMap ctx) (ref_table r)) as [def|] eqn:Hg;
    [|discriminate].
  cbn [bind] in H.
  destruct (findReferencedField def y) as [[found|]|] eqn:Hf; cbn [bind] in H;
    try discriminate.
  destruct (truthy found); [|discriminate].
  injection H as <- <- <-.
  apply findReferencedField_Some in Hf as [g Hg'].
  exists r, def, g. repeat split; tauto.
Qed.

(** The references of a column that [parseFieldNode] returns. *)
Lemma parseFieldNode_Ok_references ctx T f c :
  parseFieldNode ctx T f = Ok c ->
  match col_references c with
  | None =>
      ScalarTypes_has (col_type c) = true \/ col_type c = "foreignrow"
      \/ col_type c = "array"
  | Some {| ref_table := tn; ref_column := None |} =>
      (col_type c = "row" /\ tn = T)
      \/ (col_type c = "foreignrow" /\ JsMap.has (typeDefsMap ctx) tn = true)
      \/ (col_type c = "enumrow" /\ JsMap.has (typeDefsMap ctx) tn = false
          /\ JsMap.has (enumDefsMap ctx) tn = true)
  | Some {| ref_table := tn; ref_column := Some x |} =>
      exists def g,
        JsMap.get (typeDefsMap ctx) tn = Some def
        /\ find (fun field => String.eqb (field_name field) x) (obj_fields def)
           = Some g
        /\ field_type g = NamedType (col_type c)
        /\ isUnique g = true
        /\ ScalarTypes_has (col_type c) = true
  end.
Proof.
  intros H.
  destruct (parseFieldNode_Ok_steps _ _ _ _ H)
    as [rf [ft [[type refs] [[type' refs'] [_ [_ [Hc [Hr [-> ->]]]]]]]]].
  cbn [fst snd].
  assert (Hcol : forall r, refs = Some r -> ref_column r = None).
  { intros r ->. exact (parseFieldNode_classify_column _ _ _ _ _ _ Hc). }
  destruct refs' as [[tn [x|]]|].
  - destruct (parseFieldNode_ref_column _ _ _ _ _ _ _ _ Hr Hcol)
      as [r [def [g [_ [_ Hrest]]]]].
    exists def, g. exact Hrest.
  - apply parseFieldNode_ref_Ok in Hr as [E|[x [r [_ [_ [_ E]]]]]];
      [|discriminate].
    injection E as <- <-.
    destruct (parseFieldNode_classify_references _ _ _ _ _ _ Hc)
      as [[-> [E _]]|[[-> [E Hh]]|[-> [E [Hh He]]]]]; cbn [ref_table] in E; subst.
    + left. auto.
    + right. left. auto.
    + right. right. auto.
  - apply parseFieldNode_ref_Ok in Hr as [E|[x [r [_ [_ [_ E]]]]]];
      [|discriminate].
    injection E as <- <-.
    destruct (parseFieldNode_classify_no_references _ _ _ _ _ Hc)
      as [[-> _]|[[-> _]|[_ Hs]]]; auto.
Qed.

Lemma Forall2_In_r {A B : Type} (R : A -> B -> Prop) (l : list A) (l' : list B) y :
  Forall2 R l l' -> In y l' -> exists x, In x l /\ R x y.
Proof.
  induction 1 as [|a b l l' Hab _ IH]; simpl; [contradiction|].
  intros [->|Hin].
  - exists a. auto.
  - destruct (IH Hin) as [x [Hx Hxy]]. exists x. auto.
Qed.

(** Sources that are read without error all parse. *)
Lemma forOf_readSource_parsed {Source : Type}
    (parse : Source -> string + DocumentNode) sources : forall maps ctx,
  forOf (readSource parse) sources maps = Ok ctx ->
  exists docs, Forall2 (fun source doc => parse source = inr doc) sources docs.
Proof.
  induction sources as [|s sources IH]; intros maps ctx H; simpl in H.
  - exists []. constructor.
  - apply bind_Ok in H as [maps' [Hs H]]. apply IH in H as [docs Hdocs].
    unfold readSource in Hs. destruct (parse s) as [|doc] eqn:Hp; [discriminate|].
    exists (doc :: docs). now constructor.
Qed.

(** The names in the two maps of a run that succeeds are the names of the
    tables and of the enumerations that it returns, and every column of a
    returned table is the column of a field of the definition of the
    table. *)
Lemma readSchemaSources_names {Source : Type}
    (parse : Source -> string + DocumentNode) sources r :
  readSchemaSources parse sources = Ok r ->
  exists ctx,
    forOf (readSource parse) sources emptyContext = Ok ctx
    /\ JsMap.keys (typeDefsMap ctx) = map tbl_name (tables r)
    /\ JsMap.keys (enumDefsMap ctx) = map enm_name (enumerations r)
    /\ (forall k node, JsMap.get (typeDefsMap ctx) k = Some node ->
          obj_name node = k /\ In node (JsMap.values (typeDefsMap ctx)))
    /\ (forall t c, In t (tables r) -> In c (tbl_columns t) ->
          exists f, parseFieldNode ctx (tbl_name t) f = Ok c).
Proof.
  intros Hr. pose proof Hr as Hr'.
  apply readSchemaSources_Ok in Hr' as [ctx [Hctx [Hts Hes]]].
  exists ctx. split; [exact Hctx|].
  destruct (forOf_readSource_parsed parse sources _ _ Hctx) as [docs Hp].
  pose proof Hctx as Hmaps.
  apply (readSource_maps parse sources docs ctx Hp) in Hmaps as [_ [_ [_ ->]]].
  cbn [typeDefsMap enumDefsMap] in *. unfold tableEntries, enumEntries in *.
  rewrite values_entriesBy in Hts. rewrite values_entriesBy in Hes.
  rewrite !keys_entriesBy, values_entriesBy.
  split; [|split; [|split]].
  - symmetry. apply Forall2_map_eq. eapply Forall2_impl; [|exact Hts].
    intros n t Ht. now apply readTable_Ok in Ht.
  - symmetry. apply Forall2_map_eq. eapply Forall2_impl; [|exact Hes].
    intros n e He. now apply parseEnumNode_Ok_name.
  - intros k node. generalize (tableNodes (flat_map definitions docs)).
    intros nodes. induction nodes as [|n nodes IH]; simpl; [discriminate|].
    destruct (String.eqb_spec (obj_name n) k) as [<-|_].
    + intros H. injection H as <-. auto.
    + intros H. apply IH in H. tauto.
  - intros t c Ht Hc.
    destruct (Forall2_In_r _ _ _ t Hts Ht) as [n [_ Hread]].
    apply readTable_Ok in Hread as [Hname Hcols].
    destruct (Forall2_In_r _ _ _ c Hcols Hc) as [f [_ Hf]].
    exists f. now rewrite Hname.
Qed.

Lemma parseFieldNode_classify_scalar ctx T f ft :
  ScalarTypes_has (ft_name ft) = true ->
  ft_name ft <> T ->
  parseFieldNode_classify ctx T f ft = Ok (ft_name ft, None).
Proof.
  intros Hs Hne. unfold parseFieldNode_classify.
  destruct (String.eqb_spec (ft_name ft) T) as [?|_]; [contradiction|].
  rewrite Hs. apply ScalarTypes_has_true in Hs. simpl in Hs.
  destruct Hs as [E|[E|[E|[E|[E|[]]]]]]; rewrite <- E; reflexivity.
Qed.

(** X15. In a run that succeeds, a column whose references name a column
    has a scalar type, and the table that it references is returned with a
    column of that name (not named when the name is [_]) that is unique and
    not an array, and that has the same type unless the referenced table
    is itself named like the scalar type. *)
Theorem X15_referenced_column_exists {Source : Type}
    (parse : Source -> string + DocumentNode) (sources : list Source)
    (r : SchemaFile) (t : SchemaTable) (c : TableColumn) (tn x : string) :
  readSchemaSources parse sources = Ok r ->
  In t (tables r) ->
  In c (tbl_columns t) ->
  col_references c = Some {| ref_table := tn; ref_column := Some x |} ->
  ScalarTypes_has (col_type c) = true
  /\ exists t' c',
       In t' (tables r) /\ tbl_name t' = tn
       /\ In c' (tbl_columns t') /\ col_name c' = columnName x
       /\ col_unique c' = true /\ col_array c' = false
       /\ (col_type c <> tn -> col_type c' = col_type c).
Proof.
  intros Hr Ht Hc Hrefs.
  destruct (readSchemaSources_names parse sources r Hr)
    as [ctx [Hctx [_ [_ [Hget Hcols]]]]].
  destruct (Hcols t c Ht Hc) as [f Hf].
  pose proof (parseFieldNode_Ok_references _ _ _ _ Hf) as Href.
  rewrite Hrefs in Href. destruct Href as [def [g [Hdef [Hfind [Hty [Hq Hs]]]]]].
  split; [exact Hs|].
  destruct (Hget tn def Hdef) as [Hname Hin].
  apply find_some in Hfind as [Hg Hx]. apply String.eqb_eq in Hx.
  destruct (readSchemaSources_field parse sources r ctx def g Hr Hctx Hin Hg)
    as [t' [c' [Ht' [Hn' [Hc' Hparse]]]]].
  exists t', c'. split; [exact Ht'|]. split; [congruence|]. split; [exact Hc'|].
  destruct (parseFieldNode_Ok_card _ _ _ _ Hparse) as [Hcn [_ [Hcu _]]].
  destruct (parseFieldNode_Ok _ _ _ _ Hparse) as [_ Hca].
  split; [now rewrite Hcn, Hx|]. split; [now rewrite Hcu|].
  split; [now rewrite Hca, Hty|].
  intros Hne.
  destruct (parseFieldNode_Ok_steps _ _ _ _ Hparse)
    as [rf [ft [cl [rs [_ [Hu [Hcl [Hres [Htype _]]]]]]]]].
  pose proof (unwrapType_Ok _ _ Hu) as Hft. rewrite Hty in Hft.
  assert (Hft' : ft_name ft = col_type c)
    by (destruct (ft_array ft); congruence).
  rewrite parseFieldNode_classify_scalar in Hcl; [|now rewrite Hft'|congruence].
  injection Hcl as <-.
  apply parseFieldNode_ref_no_references in Hres. subst rs. cbn [fst] in Htype.
  congruence.
Qed.

Lemma X15_referenced_column_exists_witness :
  exists r,
    readSchemaSources parsed [Examples.itemDoc; Examples.baseDoc] = Ok r
    /\ exists t' c',
         In t' (tables r) /\ tbl_name t' = "Base"
         /\ In c' (tbl_columns t') /\ col_name c' = columnName "Id"
         /\ col_unique c' = true /\ col_array c' = false
         /\ ("i32" <> "Base" -> col_type c' = "i32").
Proof.
  eexists. split; [reflexivity|].
  refine (proj2 (X15_referenced_column_exists parsed
            [Examples.itemDoc; Examples.baseDoc] _
            {| tbl_name := "Item";
               tbl_columns :=
                 [makeColumn
                    (Examples.annotated "BaseId" (ListType (NamedType "Base"))
                       [Examples.ref "Id"])
                    true "i32"
                    (Some {| ref_table := "Base"; ref_column := Some "Id" |})
                    None None];
               tbl_tags := [] |}
            (makeColumn
               (Examples.annotated "BaseId" (ListType (NamedType "Base"))
                  [Examples.ref "Id"])
               true "i32"
               (Some {| ref_table := "Base"; ref_column := Some "Id" |})
               None None)
            "Base" "Id" eq_refl _ _ eq_refl)).
  - left. reflexivity.
  - left. reflexivity.
Defined.

(** X16. In a run that succeeds, every column's type and references
    agree: a column without references has a scalar type, [foreignrow] or
    [array]; references without a column belong to a [row] column and
    name its own table, to a [foreignrow] column and name a returned
    table, or to an [enumrow] column and name a returned enumeration that
    is not also a table; references with a column belong to a column of
    scalar type and name a returned table. *)
Theorem X16_reference_targets {Source : Type}
    (parse : Source -> string + DocumentNode) (sources : list Source)
    (r : SchemaFile) (t : SchemaTable) (c : TableColumn) :
  readSchemaSources parse sources = Ok r ->
  In t (tables r) ->
  In c (tbl_columns t) ->
  match col_references c with
  | None =>
      ScalarTypes_has (col_type c) = true \/ col_type c = "foreignrow"
      \/ col_type c = "array"
  | Some {| ref_table := tn; ref_column := None |} =>
      (col_type c = "row" /\ tn = tbl_name t)
      \/ (col_type c = "foreignrow" /\ In tn (map tbl_name (tables r)))
      \/ (col_type c = "enumrow" /\ In tn (map enm_name (enumerations r))
          /\ ~ In tn (map tbl_name (tables r)))
  | Some {| ref_table := tn; ref_column := Some x |} =>
      ScalarTypes_has (col_type c) = true /\ In tn (map tbl_name (tables r))
  end.
Proof.
  intros Hr Ht Hc.
  destruct (readSchemaSources_names parse sources r Hr)
    as [ctx [Hctx [Hkt [Hke [Hget Hcols]]]]].
  destruct (Hcols t c Ht Hc) as [f Hf].
  pose proof (parseFieldNode_Ok_references _ _ _ _ Hf) as Href.
  destruct (col_references c) as [[tn [x|]]|]; [| |exact Href].
  - destruct Href as [def [g [Hdef [_ [_ [_ Hs]]]]]]. split; [exact Hs|].
    rewrite <- Hkt. apply JsMap_has_keys, JsMap_has_get. eauto.
  - rewrite <- Hkt, <- Hke.
    destruct Href as [H|[[H Hh]|[H [Hh He]]]].
    + left. exact H.
    + right. left. split; [exact H | now apply JsMap_has_keys].
    + right. right. split; [exact H|]. split; [now apply JsMap_has_keys|].
      intros Hin. apply JsMap_has_keys in Hin. congruence.
Qed.

Lemma X16_reference_targets_witness :
  ("row" = "row" /\ "Kind" = "Kind")
  \/ ("row" = "foreignrow" /\ In "Kind" ["Kind"; "Thing"])
  \/ ("row" = "enumrow" /\ In "Kind" ["Kind"] /\ ~ In "Kind" ["Kind"; "Thing"]).
Proof.
  refine (X16_reference_targets parsed Examples.kindDocs
            {| tables :=
                 [ {| tbl_name := "Kind";
                      tbl_columns :=
                        [makeColumn (Examples.plain "Next" (NamedType "Kind")) false
                           "row" (Some {| ref_table := "Kind"; ref_column := None |})
                           None None];
                      tbl_tags := [] |};
                   {| tbl_name := "Thing";
                      tbl_columns :=
                        [makeColumn (Examples.plain "Kind" (NamedType "Kind")) false
                           "foreignrow"
                           (Some {| ref_table := "Kind"; ref_column := None |})
                           None None];
                      tbl_tags := [] |} ];
               enumerations :=
                 [ {| enm_name := "Kind"; enm_indexing := 0;
                      enm_enumerators := [Some "Small"; Some "Large"] |} ] |}
            {| tbl_name := "Kind";
               tbl_columns :=
                 [makeColumn (Examples.plain "Next" (NamedType "Kind")) false
                    "row" (Some {| ref_table := "Kind"; ref_column := None |})
                    None None];
               tbl_tags := [] |}
            (makeColumn (Examples.plain "Next" (NamedType "Kind")) false
               "row" (Some {| ref_table := "Kind"; ref_column := None |})
               None None)
            eq_refl _ _).
  - left. reflexivity.
  - left. reflexivity.
Defined.

(** ** Fields without a referenced column *)

(** [parseFieldNode] when the block of the [ref] directive is skipped: the
    field has no [ref] directive or one that names the empty column. *)
Lemma parseFieldNode_skipped ctx T f refFieldName :
  referencesField f = Ok refFieldName ->
  refFieldName = None \/ refFieldName = Some EmptyString ->
  parseFieldNode ctx T f
  = (validateDirectives f FIELD_DIRECTIVES ;;;
     fieldType <- unwrapType f ;;
     classified <- parseFieldNode_classify ctx T f fieldType ;;
     finishColumn f (ft_array fieldType) (fst classified) (snd classified)).
Proof.
  intros Hr Hskip. unfold parseFieldNode, finishColumn.
  destruct (validateDirectives f FIELD_DIRECTIVES) as [[]|]; [|reflexivity].
  cbn [bind]. rewrite Hr. cbn [bind].
  destruct (unwrapType f) as [ft|]; [|reflexivity]. cbn [bind].
  destruct (parseFieldNode_classify ctx T f ft) as [[type refs]|] eqn:Hc;
    [|reflexivity].
  cbn [bind].
  assert (Hskipped : parseFieldNode_ref ctx f refFieldName (type, refs)
                     = Ok (type, refs)).
  { destruct Hskip as [-> | ->]; reflexivity. }
  rewrite Hskipped. cbn [bind fst snd].
  now rewrite (parseFieldNode_classify_type _ _ _ _ _ _ Hc).
Qed.

(** X17. A [ref] directive that names the empty column is ignored: the
    field resolves exactly as it does without a [ref] directive, to
    the type and the references of its classification, and no assertion of
    the resolution of the column is made. *)
Theorem X17_empty_ref_ignored (ctx : Context) (T : string)
    (f : FieldDefinitionNode) :
  referencesField f = Ok None \/ referencesField f = Ok (Some EmptyString) ->
  parseFieldNode ctx T f
  = (validateDirectives f FIELD_DIRECTIVES ;;;
     fieldType <- unwrapType f ;;
     classified <- parseFieldNode_classify ctx T f fieldType ;;
     finishColumn f (ft_array fieldType) (fst classified) (snd classified))
  /\ forall c, parseFieldNode ctx T f = Ok c ->
       forall r, col_references c = Some r -> ref_column r = None.
Proof.
  intros Hr.
  assert (E : parseFieldNode ctx T f
    = (validateDirectives f FIELD_DIRECTIVES ;;;
       fieldType <- unwrapType f ;;
       classified <- parseFieldNode_classify ctx T f fieldType ;;
       finishColumn f (ft_array fieldType) (fst classified) (snd classified))).
  { destruct Hr as [Hr|Hr];
      apply (parseFieldNode_skipped ctx T f _ Hr); auto. }
  split; [exact E|].
  intros c Hc r Hrefs. rewrite E in Hc.
  apply bind_Ok in Hc as [[] [_ Hc]]. apply bind_Ok in Hc as [ft [_ Hc]].
  apply bind_Ok in Hc as [[type refs] [Hcl Hc]].
  apply finishColumn_Ok in Hc as [_ [_ Hcr]]. cbn [snd] in Hcr.
  rewrite Hrefs in Hcr. subst refs.
  exact (parseFieldNode_classify_column _ _ _ _ _ _ Hcl).
Qed.

Lemma X17_empty_ref_ignored_witness :
  parseFieldNode Examples.itemContext "Item"
    (Examples.annotated "Count" (NamedType "i32") [Examples.ref EmptyString])
  = Ok (makeColumn
          (Examples.annotated "Count" (NamedType "i32") [Examples.ref EmptyString])
          false "i32" None None None).
Proof.
  exact (proj1 (X17_empty_ref_ignored Examples.itemContext "Item"
                  (Examples.annotated "Count" (NamedType "i32")
                     [Examples.ref EmptyString])
                  (or_intror eq_refl))).
Defined.

(** X18. A field without a referenced column whose base type is not the
    name of its table, [rid], [_] or a scalar name: it is a [foreignrow]
    reference when the table map has the name, an [enumrow] reference when
    only the enumeration map has it, and otherwise the field fails with
    the error of the missing table or enumeration, at its declared type. *)
Theorem X18_named_reference (ctx : Context) (T : string)
    (f : FieldDefinitionNode) (ft : FieldType) :
  validateDirectives f FIELD_DIRECTIVES = Ok tt ->
  referencesField f = Ok None \/ referencesField f = Ok (Some EmptyString) ->
  unwrapType f = Ok ft ->
  ft_name ft <> T -> ft_name ft <> "rid" -> ft_name ft <> "_" ->
  ScalarTypes_has (ft_name ft) = false ->
  (JsMap.has (typeDefsMap ctx) (ft_name ft) = true ->
     parseFieldNode ctx T f
     = finishColumn f (ft_array ft) "foreignrow"
         (Some {| ref_table := ft_name ft; ref_column := None |}))
  /\ (JsMap.has (typeDefsMap ctx) (ft_name ft) = false ->
      JsMap.has (enumDefsMap ctx) (ft_name ft) = true ->
      parseFieldNode ctx T f
      = finishColumn f (ft_array ft) "enumrow"
          (Some {| ref_table := ft_name ft; ref_column := None |}))
  /\ (JsMap.has (typeDefsMap ctx) (ft_name ft) = false ->
      JsMap.has (enumDefsMap ctx) (ft_name ft) = false ->
      parseFieldNode ctx T f
      = throwAt (template ["Can't find referenced table/enum ";
                           quoted (ft_name ft); "."])
                (AtType (field_type f))).
Proof.
  intros Hv Hr Hu HT Hrid Hph Hsc.
  assert (E : parseFieldNode ctx T f
    = (classified <- parseFieldNode_classify ctx T f ft ;;
       finishColumn f (ft_array ft) (fst classified) (snd classified))).
  { destruct Hr as [Hr|Hr];
      rewrite (parseFieldNode_skipped ctx T f _ Hr) by auto;
      rewrite Hv, Hu; reflexivity. }
  rewrite E. unfold parseFieldNode_classify.
  destruct (String.eqb_spec (ft_name ft) T) as [?|_]; [contradiction|].
  destruct (String.eqb_spec (ft_name ft) "rid") as [?|_]; [contradiction|].
  destruct (String.eqb_spec (ft_name ft) "_") as [?|_]; [contradiction|].
  cbn [andb]. rewrite Hsc. cbn [negb].
  split; [|split].
  - intros ->. reflexivity.
  - intros -> ->. reflexivity.
  - intros -> ->. reflexivity.
Qed.

Lemma X18_named_reference_witness :
  parseFieldNode Examples.itemContext "Item"
    (Examples.plain "Kind" (ListType (NamedType "Rarity")))
  = Ok (makeColumn (Examples.plain "Kind" (ListType (NamedType "Rarity")))
          true "enumrow" (Some {| ref_table := "Rarity"; ref_column := None |})
          None None)
  /\ parseFieldNode Examples.itemContext "Item"
       (Examples.plain "Owner" (NamedType "Player"))
     = throwAt (template ["Can't find referenced table/enum "; quoted "Player"; "."])
               (AtType (NamedType "Player")).
Proof.
  split.
  - refine (proj1 (proj2 (X18_named_reference Examples.itemContext "Item"
              (Examples.plain "Kind" (ListType (NamedType "Rarity")))
              {| ft_array := true; ft_name := "Rarity" |}
              eq_refl (or_introl eq_refl) eq_refl _ _ _ eq_refl))
            eq_refl eq_refl); discriminate.
  - refine (proj2 (proj2 (X18_named_reference Examples.itemContext "Item"
              (Examples.plain "Owner" (NamedType "Player"))
              {| ft_array := false; ft_name := "Player" |}
              eq_refl (or_introl eq_refl) eq_refl _ _ _ eq_refl))
            eq_refl eq_refl); discriminate.
Defined.

(** X19. A field without a referenced column whose base type is [rid] or
    a scalar name, in a table of another name, never looks at the two
    maps: [rid] gives a [foreignrow] column without references and a
    scalar name gives a column of that type without references, also when
    a table or an enumeration has that name. *)
Theorem X19_reserved_names (ctx : Context) (T : string)
    (f : FieldDefinitionNode) (ft : FieldType) :
  validateDirectives f FIELD_DIRECTIVES = Ok tt ->
  referencesField f = Ok None \/ referencesField f = Ok (Some EmptyString) ->
  unwrapType f = Ok ft ->
  ft_name ft <> T ->
  (ft_name ft = "rid" ->
     parseFieldNode ctx T f = finishColumn f (ft_array ft) "foreignrow" None)
  /\ (ScalarTypes_has (ft_name ft) = true ->
      parseFieldNode ctx T f = finishColumn f (ft_array ft) (ft_name ft) None).
Proof.
  intros Hv Hr Hu HT.
  assert (E : parseFieldNode ctx T f
    = (classified <- parseFieldNode_classify ctx T f ft ;;
       finishColumn f (ft_array ft) (fst classified) (snd classified))).
  { destruct Hr as [Hr|Hr];
      rewrite (parseFieldNode_skipped ctx T f _ Hr) by auto;
      rewrite Hv, Hu; reflexivity. }
  rewrite E. split.
  - intros Hrid. unfold parseFieldNode_classify.
    destruct (String.eqb_spec (ft_name ft) T) as [?|_]; [contradiction|].
    rewrite Hrid. reflexivity.
  - intros Hs. now rewrite (parseFieldNode_classify_scalar ctx T f ft Hs HT).
Qed.

Lemma X19_reserved_names_witness :
  parseFieldNode
    {| typeDefsMap :=
         tableEntries [mkObjectType "i32" [] []; mkObjectType "rid" [] []];
       enumDefsMap := [] |}
    "Item" (Examples.plain "Level" (NamedType "i32"))
  = Ok (makeColumn (Examples.plain "Level" (NamedType "i32"))
          false "i32" None None None)
  /\ parseFieldNode
       {| typeDefsMap :=
            tableEntries [mkObjectType "i32" [] []; mkObjectType "rid" [] []];
          enumDefsMap := [] |}
       "Item" (Examples.plain "Any" (ListType (NamedType "rid")))
     = Ok (makeColumn (Examples.plain "Any" (ListType (NamedType "rid")))
             true "foreignrow" None None None).
Proof.
  split.
  - refine (proj2 (X19_reserved_names _ "Item"
              (Examples.plain "Level" (NamedType "i32"))
              {| ft_array := false; ft_name := "i32" |}
              eq_refl (or_introl eq_refl) eq_refl _) eq_refl).
    discriminate.
  - refine (proj1 (X19_reserved_names _ "Item"
              (Examples.plain "Any" (ListType (NamedType "rid")))
              {| ft_array := true; ft_name := "rid" |}
              eq_refl (or_introl eq_refl) eq_refl _) eq_refl).
    discriminate.
Defined.

(** ** Any order of the sources *)

Lemma definitionsOf_parsed {Source : Type}
    (parse : Source -> string + DocumentNode) sources docs :
  Forall2 (fun source doc => parse source = inr doc) sources docs ->
  flat_map definitions docs = definitionsOf parse sources.
Proof.
  unfold definitionsOf. induction 1 as [|s d sources docs Hp _ IH]; simpl.
  - reflexivity.
  - now rewrite Hp, IH.
Qed.

Lemma parsed_Forall {Source : Type}
    (parse : Source -> string + DocumentNode) sources :
  Forall (fun source => exists doc, parse source = inr doc) sources
  <-> exists docs, Forall2 (fun source doc => parse source = inr doc) sources docs.
Proof.
  split.
  - induction 1 as [|s sources [d Hd] _ [docs IH]].
    + exists []. constructor.
    + exists (d :: docs). now constructor.
  - intros [docs H]. induction H; constructor; eauto.
Qed.

Lemma tableNodes_Permutation defs defs' :
  Permutation defs defs' -> Permutation (tableNodes defs) (tableNodes defs').
Proof.
  induction 1 as [|d l l' _ IH|d d' l|l l' l'' _ IH1 _ IH2].
  - constructor.
  - destruct d; simpl; auto.
  - destruct d, d'; simpl; auto. apply perm_swap.
  - now transitivity (tableNodes l').
Qed.

Lemma enumNodes_Permutation defs defs' :
  Permutation defs defs' -> Permutation (enumNodes defs) (enumNodes defs').
Proof.
  induction 1 as [|d l l' _ IH|d d' l|l l' l'' _ IH1 _ IH2].
  - constructor.
  - destruct d; simpl; auto.
  - destruct d, d'; simpl; auto. apply perm_swap.
  - now transitivity (enumNodes l').
Qed.

Lemma forallb_Permutation {A : Type} (p : A -> bool) l l' :
  Permutation l l' -> forallb p l = forallb p l'.
Proof.
  induction 1 as [|d l l' _ IH|d d' l|l l' l'' _ IH1 _ IH2]; simpl.
  - reflexivity.
  - now rewrite IH.
  - destruct (p d), (p d'); reflexivity.
  - congruence.
Qed.

(** In a map without a repeated name, a lookup finds the node of that
    name. *)
Lemma get_entriesBy_In {V : Type} (name : V -> string) (nodes : list V) k node :
  JsMap.get (entriesBy name nodes) k = Some node -> In node nodes /\ name node = k.
Proof.
  induction nodes as [|n nodes IH]; simpl; [discriminate|].
  destruct (String.eqb_spec (name n) k) as [<-|_].
  - intros H. injection H as <-. auto.
  - intros H. apply IH in H. tauto.
Qed.

Lemma get_entriesBy_Permutation {V : Type} (name : V -> string) l l' k :
  NoDup (map name l) -> Permutation l l' ->
  JsMap.get (entriesBy name l) k = JsMap.get (entriesBy name l') k.
Proof.
  intros Hnd Hp.
  assert (Hnd' : NoDup (map name l'))
    by (eapply Permutation_NoDup; [apply Permutation_map, Hp | exact Hnd]).
  destruct (JsMap.get (entriesBy name l) k) as [n|] eqn:E.
  - apply get_entriesBy_In in E as [Hin <-]. symmetry.
    apply get_entriesBy; [exact Hnd'|]. eapply Permutation_in; eauto.
  - destruct (JsMap.get (entriesBy name l') k) as [n'|] eqn:E'; [|reflexivity].
    apply get_entriesBy_In in E' as [Hin <-].
    rewrite get_entriesBy in E; [discriminate | exact Hnd |].
    eapply Permutation_in; [symmetry|]; eauto.
Qed.

Lemma mapM_Permutation {A B : Type} (f : A -> result B) l l' :
  Permutation l l' ->
  forall ys, mapM f l = Ok ys ->
  exists ys', mapM f l' = Ok ys' /\ Permutation ys ys'.
Proof.
  induction 1 as [|x l l' _ IH|x y l|l l' l'' _ IH1 _ IH2]; intros ys H.
  - exists ys. split; [exact H | reflexivity].
  - simpl in H. apply bind_Ok in H as [z [Hz H]].
    apply bind_Ok in H as [zs [Hzs H]]. injection H as <-.
    destruct (IH zs Hzs) as [zs' [Hzs' Hp]].
    exists (z :: zs'). simpl. rewrite Hz, Hzs'. split; [reflexivity | now constructor].
  - simpl in H. apply bind_Ok in H as [b [Hb H]].
    apply bind_Ok in H as [zs [H1 H]]. injection H as <-.
    apply bind_Ok in H1 as [a [Ha H1]]. apply bind_Ok in H1 as [zs' [Hzs' H1]].
    injection H1 as <-.
    exists (a :: b :: zs'). simpl. rewrite Ha, Hb, Hzs'.
    split; [reflexivity | apply perm_swap].
  - destruct (IH1 ys H) as [ys' [H' Hp]]. destruct (IH2 ys' H') as [ys'' [H'' Hp']].
    exists ys''. split; [exact H'' | now transitivity ys'].
Qed.

(** A run that succeeds also succeeds on the sources in any other order,
    and returns the same tables and enumerations up to their order. *)
Lemma readSchemaSources_Permutation {Source : Type}
    (parse : Source -> string + DocumentNode) sources sources' r :
  Permutation sources sources' ->
  readSchemaSources parse sources = Ok r ->
  exists r', readSchemaSources parse sources' = Ok r'
             /\ Permutation (tables r) (tables r')
             /\ Permutation (enumerations r) (enumerations r').
Proof.
  intros Hperm Hr. rewrite readSchemaSources_mapM in Hr.
  apply bind_Ok in Hr as [ctx [Hctx Hr]].
  destruct (forOf_readSource_parsed parse sources _ _ Hctx) as [docs Hp].
  assert (Hp' : exists docs',
            Forall2 (fun s d => parse s = inr d) sources' docs').
  { apply parsed_Forall. eapply Permutation_Forall; [exact Hperm|].
    apply parsed_Forall. eauto. }
  destruct Hp' as [docs' Hp'].
  apply (readSource_maps parse sources docs ctx Hp) in Hctx.
  rewrite (definitionsOf_parsed parse sources docs Hp) in Hctx.
  destruct Hctx as [Hs [Ht [He ->]]].
  assert (Pd : Permutation (definitionsOf parse sources)
                           (definitionsOf parse sources'))
    by (apply Permutation_flat_map; exact Hperm).
  pose proof (tableNodes_Permutation _ _ Pd) as Pt.
  pose proof (enumNodes_Permutation _ _ Pd) as Pe.
  set (ctx' := {| typeDefsMap := tableEntries (tableNodes (definitionsOf parse sources'));
                  enumDefsMap := enumEntries (enumNodes (definitionsOf parse sources')) |}).
  assert (Hctx' : forOf (readSource parse) sources' emptyContext = Ok ctx').
  { apply (readSource_maps parse sources' docs' ctx' Hp').
    rewrite (definitionsOf_parsed parse sources' docs' Hp').
    split; [now rewrite <- (forallb_Permutation supported _ _ Pd)|].
    split; [eapply Permutation_NoDup; [apply Permutation_map, Pt | exact Ht]|].
    split; [eapply Permutation_NoDup; [apply Permutation_map, Pe | exact He]|].
    reflexivity. }
  assert (Hsame : sameLookups
            {| typeDefsMap := tableEntries (tableNodes (definitionsOf parse sources));
               enumDefsMap := enumEntries (enumNodes (definitionsOf parse sources)) |}
            ctx').
  { split; intros k; cbn [typeDefsMap enumDefsMap ctx'].
    - now apply get_entriesBy_Permutation.
    - now apply get_entriesBy_Permutation. }
  cbn [typeDefsMap enumDefsMap] in Hr. unfold tableEntries, enumEntries in Hr.
  rewrite values_entriesBy in Hr.
  apply bind_Ok in Hr as [ts [Hts Hr]].
  rewrite values_entriesBy in Hr.
  apply bind_Ok in Hr as [es [Hes Hr]]. injection Hr as <-.
  destruct (mapM_Permutation _ _ _ Pt ts Hts) as [ts' [Hts' Pts]].
  destruct (mapM_Permutation _ _ _ Pe es Hes) as [es' [Hes' Pes]].
  exists {| tables := ts'; enumerations := es' |}.
  split; [|split; assumption].
  rewrite readSchemaSources_mapM, Hctx'. cbn [bind typeDefsMap enumDefsMap ctx'].
  unfold tableEntries, enumEntries. rewrite !values_entriesBy.
  rewrite (mapM_ext _ (readTable _) _
             (fun x _ => eq_sym (readTable_sameLookups _ _ x Hsame))).
  unfold tableEntries, enumEntries.
  rewrite Hts'. cbn [bind]. rewrite Hes'. reflexivity.
Qed.

(** X20. The order of the sources does not matter: the run succeeds on a
    list of sources exactly when it succeeds on the same sources in any
    other order, and then the two runs return the same tables and the
    same enumerations up to their order. *)
Theorem X20_source_order {Source : Type}
    (parse : Source -> string + DocumentNode) (sources sources' : list Source) :
  Permutation sources sources' ->
  is_ok (readSchemaSources parse sources) = is_ok (readSchemaSources parse sources')
  /\ forall r r',
       readSchemaSources parse sources = Ok r ->
       readSchemaSources parse sources' = Ok r' ->
       Permutation (tables r) (tables r')
       /\ Permutation (enumerations r) (enumerations r').
Proof.
  intros Hperm. split.
  - destruct (readSchemaSources parse sources) as [r|] eqn:E,
             (readSchemaSources parse sources') as [r'|] eqn:E'; try reflexivity.
    + destruct (readSchemaSources_Permutation parse _ _ r Hperm E) as [r' [H _]].
      congruence.
    + destruct (readSchemaSources_Permutation parse _ _ r'
                  (Permutation_sym Hperm) E') as [r [H _]].
      congruence.
  - intros r r' E E'.
    destruct (readSchemaSources_Permutation parse _ _ r Hperm E) as [r'' [H P]].
    rewrite E' in H. injection H as <-. exact P.
Qed.

Lemma X20_source_order_witness :
  is_ok (readSchemaSources parsed
           [Examples.itemDoc; Examples.baseDoc; Examples.i32Doc])
  = is_ok (readSchemaSources parsed
             [Examples.i32Doc; Examples.itemDoc; Examples.baseDoc]).
Proof.
  refine (proj1 (X20_source_order parsed
            [Examples.itemDoc; Examples.baseDoc; Examples.i32Doc]
            [Examples.i32Doc; Examples.itemDoc; Examples.baseDoc] _)).
  apply Permutation_sym.
  apply (Permutation_cons_append [Examples.itemDoc; Examples.baseDoc] Examples.i32Doc).
Defined.

(** ** Assertions that validation rules out *)

Lemma getFileGroupExtensions_validated (f : FieldDefinitionNode) :
  validateDirectives f FIELD_DIRECTIVES = Ok tt ->
  avoids AssertFilesString (getFileGroupExtensions f).
Proof.
  intros Hv. unfold getFileGroupExtensions.
  destruct (findDirective f (NAME DIRECTIVE_FILES_GROUP)) as [d|] eqn:Hd;
    [|apply avoids_Ok].
  pose proof (validated_field_directive f DIRECTIVE_FILES_GROUP d
                ltac:(simpl; tauto) Hv Hd) as Hok.
  apply DIRECTIVE_FILES_GROUP_validate_Ok in Hok as [_ HF].
  destruct (dir_arguments d) as [|a [|b l]]; try (apply avoids_other; discriminate).
  inversion HF as [|? ? [_ [exts Hs]] _]; subst. rewrite Hs.
  apply avoids_bind; [apply avoids_assert_ok; discriminate|]. intros [] _.
  rewrite mapM_stringValues. apply avoids_Ok.
Qed.

Lemma getTags_validated (node : ObjectTypeDefinitionNode) :
  validateDirectives node [DIRECTIVE_TABLE_TAGS] = Ok tt ->
  avoids AssertTagsString (getTags node).
Proof.
  intros Hv. unfold getTags.
  destruct (findDirective node (NAME DIRECTIVE_TABLE_TAGS)) as [d|] eqn:Hd;
    [|apply avoids_Ok].
  destruct (validated_directive node _ _ d Hv Hd) as [[spec [Hfind Hok]] Hname].
  rewrite Hname in Hfind. simpl in Hfind. injection Hfind as <-.
  apply DIRECTIVE_TABLE_TAGS_validate_Ok in Hok as [_ HF].
  destruct (dir_arguments d) as [|a [|b l]]; try (apply avoids_other; discriminate).
  inversion HF as [|? ? [_ [tags [_ Hs]]] _]; subst. rewrite Hs.
  apply avoids_bind; [apply avoids_assert_ok; discriminate|]. intros [] _.
  rewrite mapM_stringValues. apply avoids_Ok.
Qed.

Lemma getIndexingBase_validated (e : EnumTypeDefinitionNode) d :
  validateDirectives e [DIRECTIVE_ENUM_INDEXING] = Ok tt ->
  findDirective e (NAME DIRECTIVE_ENUM_INDEXING) = Some d ->
  avoids AssertIndexingDirective (getIndexingBase e)
  /\ avoids AssertIndexingValue (getIndexingBase e).
Proof.
  intros Hv Hd.
  destruct (validated_directive e _ _ d Hv Hd) as [[spec [Hfind Hok]] Hname].
  rewrite Hname in Hfind. simpl in Hfind. injection Hfind as <-.
  apply DIRECTIVE_ENUM_INDEXING_validate_Ok in Hok as [_ HF].
  unfold getIndexingBase. rewrite Hd.
  destruct (dir_arguments d) as [|a [|b l]];
    try (split; apply avoids_other; discriminate).
  inversion HF as [|? ? [_ Hs] _]; subst.
  destruct Hs as [Hs|Hs]; rewrite Hs; split;
    (apply avoids_bind; [apply avoids_assert_ok; discriminate|]; intros [] _;
     apply avoids_Ok).
Qed.

(** Goals [avoids site e] for one of the sites that validation rules out,
    where [e] fails other assertions only. *)
Ltac avoid_ruled_out :=
  match goal with
  | H : In _ [AssertIndexingDirective; AssertIndexingValue;
              AssertTagsString; AssertFilesString] |- _ =>
      simpl in H; destruct H as [<-|[<-|[<-|[<-|[]]]]]; avoid
  end.

Lemma parseFieldNode_ruled_out ctx T f site :
  In site [AssertIndexingDirective; AssertIndexingValue;
           AssertTagsString; AssertFilesString] ->
  avoids site (parseFieldNode ctx T f).
Proof.
  intros Hsite. unfold parseFieldNode.
  apply avoids_bind.
  { apply validateDirectives_avoids. unfold FIELD_DIRECTIVES.
    intros s Hs. simpl in *. tauto. }
  intros [] Hv. apply avoids_bind; [unfold referencesField; avoid_ruled_out|].
  intros refFieldName _. apply avoids_bind; [unfold unwrapType; avoid_ruled_out|].
  intros ft _.
  apply avoids_bind; [unfold parseFieldNode_classify; avoid_ruled_out|].
  intros cl _. apply avoids_bind; [unfold parseFieldNode_ref; avoid_ruled_out|].
  intros rs _. apply avoids_bind; [avoid_ruled_out|].
  intros [] _. apply avoids_bind; [unfold getFileExtension; avoid_ruled_out|].
  intros file _. apply avoids_bind; [|intros; apply avoids_Ok].
  simpl in Hsite. destruct Hsite as [<-|[<-|[<-|[<-|[]]]]];
    try solve [unfold getFileGroupExtensions; avoid].
  now apply getFileGroupExtensions_validated.
Qed.

Lemma readTable_ruled_out ctx node site :
  In site [AssertIndexingDirective; AssertIndexingValue;
           AssertTagsString; AssertFilesString] ->
  avoids site (readTable ctx node).
Proof.
  intros Hsite. unfold readTable. apply avoids_bind.
  { apply validateDirectives_avoids. intros s Hs. simpl in *. tauto. }
  intros [] Hv. apply avoids_bind.
  { simpl in Hsite. destruct Hsite as [<-|[<-|[<-|[<-|[]]]]];
      try solve [unfold getTags; avoid].
    now apply getTags_validated. }
  intros tags _. apply avoids_bind; [|intros; apply avoids_Ok].
  apply avoids_forOf. intros columns f _. unfold pushColumn.
  apply avoids_bind; [now apply parseFieldNode_ruled_out|]. intros c _. avoid.
Qed.

Lemma parseEnumNode_ruled_out e site :
  In site [AssertIndexingDirective; AssertIndexingValue;
           AssertTagsString; AssertFilesString] ->
  avoids site (parseEnumNode e).
Proof.
  intros Hsite. unfold parseEnumNode. apply avoids_bind.
  { apply validateDirectives_avoids. intros s Hs. simpl in *. tauto. }
  intros [] Hv.
  destruct (findDirective e (NAME DIRECTIVE_ENUM_INDEXING)) as [d|] eqn:Hd;
    [|apply avoids_throwAt].
  apply avoids_bind.
  { destruct (getIndexingBase_validated e d Hv Hd) as [H1 H2].
    simpl in Hsite. destruct Hsite as [<-|[<-|[<-|[<-|[]]]]];
      try assumption; solve [unfold getIndexingBase; rewrite Hd; avoid]. }
  intros indexing _. apply avoids_bind; [|intros; apply avoids_Ok].
  apply avoids_forOf. intros enumerators name _. unfold pushEnumerator. avoid.
Qed.

(** X21. Whatever the sources, a run never fails four of the assertions
    of the reader, because validation has ruled them out: the two of
    [getIndexingBase] on the presence of the directive and on the value 0
    or 1, and the two of [getTags] and [getFileGroupExtensions] on the
    elements of the list being strings. *)
Theorem X21_assertions_ruled_out {Source : Type}
    (parse : Source -> string + DocumentNode) (sources : list Source) :
  readSchemaSources parse sources <> Throw (AssertionError AssertIndexingDirective)
  /\ readSchemaSources parse sources <> Throw (AssertionError AssertIndexingValue)
  /\ readSchemaSources parse sources <> Throw (AssertionError AssertTagsString)
  /\ readSchemaSources parse sources <> Throw (AssertionError AssertFilesString).
Proof.
  assert (H : forall site,
            In site [AssertIndexingDirective; AssertIndexingValue;
                     AssertTagsString; AssertFilesString] ->
            avoids site (readSchemaSources parse sources)).
  { intros site Hsite. rewrite readSchemaSources_mapM.
    apply avoids_bind; [apply avoids_forOf; intros; apply readSource_avoids|].
    intros ctx _. apply avoids_bind.
    { apply avoids_mapM. intros; now apply readTable_ruled_out. }
    intros ts _. apply avoids_bind.
    { apply avoids_mapM. intros; now apply parseEnumNode_ruled_out. }
    intros; apply avoids_Ok. }
  repeat split; apply H; simpl; tauto.
Qed.

(** * Fields and runs as a whole *)

(** ** The last steps of a field *)

(** On a validated field the file extension is read when the first [file]
    directive, if there is one, has one argument. *)
Lemma getFileExtension_single (f : FieldDefinitionNode) :
  validateDirectives f FIELD_DIRECTIVES = Ok tt ->
  (forall d, findDirective f (NAME DIRECTIVE_FILE) = Some d ->
             length (dir_arguments d) = 1) ->
  exists file, getFileExtension f = Ok file.
Proof.
  intros Hv Hone. unfold getFileExtension.
  destruct (findDirective f (NAME DIRECTIVE_FILE)) as [d|] eqn:Hd; [|eauto].
  pose proof (validated_field_directive f DIRECTIVE_FILE d
                ltac:(simpl; tauto) Hv Hd) as Hok.
  apply DIRECTIVE_FILE_validate_Ok in Hok as [_ HF].
  destruct (length_one _ (Hone d eq_refl)) as [[name value] Ha].
  rewrite Ha in HF |- *. inversion HF as [|? ? [Hn [s Hs]] _]; subst.
  simpl in Hn, Hs. subst. exists (Some s). reflexivity.
Qed.

Lemma getFileGroupExtensions_single (f : FieldDefinitionNode) :
  validateDirectives f FIELD_DIRECTIVES = Ok tt ->
  (forall d, findDirective f (NAME DIRECTIVE_FILES_GROUP) = Some d ->
             length (dir_arguments d) = 1) ->
  exists files, getFileGroupExtensions f = Ok files.
Proof.
  intros Hv Hone. unfold getFileGroupExtensions.
  destruct (findDirective f (NAME DIRECTIVE_FILES_GROUP)) as [d|] eqn:Hd; [|eauto].
  pose proof (validated_field_directive f DIRECTIVE_FILES_GROUP d
                ltac:(simpl; tauto) Hv Hd) as Hok.
  apply DIRECTIVE_FILES_GROUP_validate_Ok in Hok as [_ HF].
  destruct (length_one _ (Hone d eq_refl)) as [[name value] Ha].
  rewrite Ha in HF |- *. inversion HF as [|? ? [Hn [exts Hs]] _]; subst.
  simpl in Hn, Hs. subst. exists (Some exts).
  cbn [arg_value arg_name String.eqb]. simpl assert_ok. cbn [bind].
  now rewrite mapM_stringValues.
Qed.

(** The last two steps of [parseFieldNode] give the column on a validated
    field whose first [file] and first [files] directive have one argument
    each. *)
Lemma finishColumn_single (f : FieldDefinitionNode) array type references :
  validateDirectives f FIELD_DIRECTIVES = Ok tt ->
  (forall d, findDirective f (NAME DIRECTIVE_FILE) = Some d ->
             length (dir_arguments d) = 1) ->
  (forall d, findDirective f (NAME DIRECTIVE_FILES_GROUP) = Some d ->
             length (dir_arguments d) = 1) ->
  exists file files,
    getFileExtension f = Ok file /\ getFileGroupExtensions f = Ok files
    /\ finishColumn f array type references
       = Ok (makeColumn f array type references file files).
Proof.
  intros Hv H1 H2.
  destruct (getFileExtension_single f Hv H1) as [file Hfile].
  destruct (getFileGroupExtensions_single f Hv H2) as [files Hfiles].
  exists file, files. unfold finishColumn. rewrite Hfile, Hfiles. auto.
Qed.

(** ** The placeholder type (C7) *)

(** C7, as the code has it.  In a table that is not itself named [_], a
    field declared [[_]] resolves, whenever it resolves, to a column of type
    [array] with the array flag set.  Without a [ref] directive it resolves
    exactly when its directives are accepted and its file extension and its
    group of file extensions are read; and it does resolve, to the column
    of type [array], when its directives are accepted and its first [file]
    and first [files] directive have one argument each.  A field declared
    with the bare [_] never resolves, and the error is the one of the
    placeholder type as soon as its directives are accepted and the argument
    of its [ref] directive is read. *)
Theorem C7_placeholder_type (ctx : Context) (T : string)
    (f : FieldDefinitionNode) :
  (field_type f = ListType (NamedType "_") -> T <> "_" ->
     (forall c, parseFieldNode ctx T f = Ok c ->
        col_type c = "array" /\ col_array c = true)
     /\ (findDirective f (NAME DIRECTIVE_REF) = None ->
         parseFieldNode ctx T f
         = (validateDirectives f FIELD_DIRECTIVES ;;;
            finishColumn f true "array" None))
     /\ (findDirective f (NAME DIRECTIVE_REF) = None ->
         validateDirectives f FIELD_DIRECTIVES = Ok tt ->
         (forall d, findDirective f (NAME DIRECTIVE_FILE) = Some d ->
                    length (dir_arguments d) = 1) ->
         (forall d, findDirective f (NAME DIRECTIVE_FILES_GROUP) = Some d ->
                    length (dir_arguments d) = 1) ->
         exists file files,
           getFileExtension f = Ok file
           /\ getFileGroupExtensions f = Ok files
           /\ parseFieldNode ctx T f
              = Ok (makeColumn f true "array" None file files)))
  /\ (field_type f = NamedType "_" ->
        (forall c, parseFieldNode ctx T f <> Ok c)
        /\ (validateDirectives f FIELD_DIRECTIVES = Ok tt ->
            is_ok (referencesField f) = true ->
            parseFieldNode ctx T f
            = throwAt MSG_PLACEHOLDER (AtType (NamedType "_")))).
Proof.
  split.
  - intros Hty HT.
    assert (Hcl : parseFieldNode_classify ctx T f
                    {| ft_array := true; ft_name := "_" |} = Ok ("array", None)).
    { unfold parseFieldNode_classify. cbn [ft_name ft_array].
      destruct (String.eqb_spec "_" T) as [E|_]; [congruence | reflexivity]. }
    assert (Heq : findDirective f (NAME DIRECTIVE_REF) = None ->
                  parseFieldNode ctx T f
                  = (validateDirectives f FIELD_DIRECTIVES ;;;
                     finishColumn f true "array" None)).
    { intros Hd. unfold parseFieldNode, finishColumn.
      destruct (validateDirectives f FIELD_DIRECTIVES) as [[]|e]; simpl; [|reflexivity].
      rewrite (referencesField_None f Hd), (unwrapType_list_placeholder f Hty).
      simpl. rewrite Hcl. reflexivity. }
    split; [|split].
    + intros c Hc. unfold parseFieldNode in Hc.
      apply bind_Ok in Hc as [[] [_ Hc]].
      apply bind_Ok in Hc as [x [_ Hc]].
      rewrite (unwrapType_list_placeholder f Hty) in Hc. simpl in Hc.
      rewrite Hcl in Hc. simpl in Hc.
      apply bind_Ok in Hc as [resolved [Hr Hc]].
      apply parseFieldNode_ref_no_references in Hr. subst resolved.
      simpl in Hc. apply (finishColumn_Ok f) in Hc. tauto.
    + exact Heq.
    + intros Hd Hv H1 H2.
      destruct (finishColumn_single f true "array" None Hv H1 H2)
        as [file [files [Hfile [Hfiles Hcol]]]].
      exists file, files. rewrite (Heq Hd), Hv. cbn [bind]. auto.
  - intros Hty. split.
    + intros c Hc. unfold parseFieldNode in Hc.
      apply bind_Ok in Hc as [[] [_ Hc]].
      apply bind_Ok in Hc as [x [_ Hc]].
      rewrite (unwrapType_bare_placeholder f Hty) in Hc. discriminate.
    + intros Hv Hr. unfold parseFieldNode. rewrite Hv. simpl.
      destruct (referencesField f) as [x|e]; [|discriminate]. simpl.
      now rewrite (unwrapType_bare_placeholder f Hty).
Qed.

Lemma C7_placeholder_type_witness :
  (exists file files,
     getFileExtension
       (Examples.annotated "unknown" (ListType (NamedType "_"))
          [MoreExamples.file "dds"]) = Ok file
     /\ getFileGroupExtensions
          (Examples.annotated "unknown" (ListType (NamedType "_"))
             [MoreExamples.file "dds"]) = Ok files
     /\ parseFieldNode Examples.noContext "T"
          (Examples.annotated "unknown" (ListType (NamedType "_"))
             [MoreExamples.file "dds"])
        = Ok (makeColumn
                (Examples.annotated "unknown" (ListType (NamedType "_"))
                   [MoreExamples.file "dds"])
                true "array" None file files))
  /\ parseFieldNode Examples.noContext "T"
       (Examples.plain "unknown" (NamedType "_"))
     = throwAt MSG_PLACEHOLDER (AtType (NamedType "_")).
Proof.
  split.
  - refine (proj2 (proj2 (proj1 (C7_placeholder_type Examples.noContext "T"
                            (Examples.annotated "unknown" (ListType (NamedType "_"))
                               [MoreExamples.file "dds"]))
                     eq_refl _)) eq_refl eq_refl _ _).
    + discriminate.
    + intros d Hd. injection Hd as <-. reflexivity.
    + intros d Hd. discriminate Hd.
  - exact (proj2 (proj2 (C7_placeholder_type Examples.noContext "T"
                           (Examples.plain "unknown" (NamedType "_")))
                    eq_refl) eq_refl eq_refl).
Defined.

(** The claim C7 as stated fails in two ways.  In a table that is itself
    named [_] the test against the table name comes first and the field is a
    self reference; and a field declared [[_]] whose directives are
    accepted does not resolve when its [file] directive has two
    arguments. *)
Lemma C7_counterexample :
  parseFieldNode Examples.noContext "_"
    (Examples.plain "next" (ListType (NamedType "_")))
  = Ok (makeColumn (Examples.plain "next" (ListType (NamedType "_")))
          true "row" (Some {| ref_table := "_"; ref_column := None |})
          None None)
  /\ readSchemaSources parsed
       [Examples.doc
          [Examples.table "_" [Examples.plain "next" (ListType (NamedType "_"))]]]
     = Ok {| tables :=
               [ {| tbl_name := "_";
                    tbl_columns :=
                      [makeColumn (Examples.plain "next" (ListType (NamedType "_")))
                         true "row"
                         (Some {| ref_table := "_"; ref_column := None |})
                         None None];
                    tbl_tags := [] |} ];
             enumerations := [] |}
  /\ ~ (forall (ctx : Context) (T : string) (f : FieldDefinitionNode) c,
          field_type f = ListType (NamedType "_") ->
          parseFieldNode ctx T f = Ok c -> col_type c = "array")
  /\ validateDirectives MoreExamples.TwoFiles FIELD_DIRECTIVES = Ok tt
  /\ findDirective MoreExamples.TwoFiles (NAME DIRECTIVE_REF) = None
  /\ parseFieldNode Examples.noContext "T" MoreExamples.TwoFiles
     = Throw (AssertionError AssertFileArgs)
  /\ readSchemaSources parsed
       [Examples.doc [Examples.table "T" [MoreExamples.TwoFiles]]]
     = Throw (AssertionError AssertFileArgs).
Proof.
  split; [reflexivity|]. split; [reflexivity|]. split.
  - intros H.
    specialize (H Examples.noContext "_"
                  (Examples.plain "next" (ListType (NamedType "_"))) _
                  eq_refl eq_refl).
    discriminate H.
  - repeat split; reflexivity.
Qed.

(** ** Two documents in either order *)

(** Under maps built from sources that parse, a field whose base type is
    the name of a table of the sources, other than the table of the field
    and not a reserved name, is classified as a [foreignrow] reference to
    that table. *)
Lemma foreign_reference_in_maps {Source : Type}
    (parse : Source -> string + DocumentNode) sources docs ctx T f ft defB :
  Forall2 (fun source doc => parse source = inr doc) sources docs ->
  forOf (readSource parse) sources emptyContext = Ok ctx ->
  In defB (tableNodes (flat_map definitions docs)) ->
  obj_name defB = ft_name ft ->
  T <> obj_name defB ->
  ft_name ft <> "rid" -> ft_name ft <> "_" -> ScalarTypes_has (ft_name ft) = false ->
  parseFieldNode_classify ctx T f ft
  = Ok ("foreignrow", Some {| ref_table := ft_name ft; ref_column := None |}).
Proof.
  intros Hp Hctx HB HBn Hne Hrid Hph Hsc.
  apply (readSource_maps parse sources docs ctx Hp) in Hctx as [_ [_ [_ Hmaps]]].
  assert (Hhas : JsMap.has (typeDefsMap ctx) (ft_name ft) = true).
  { apply JsMap_has_keys. rewrite Hmaps. cbn [typeDefsMap]. unfold tableEntries.
    rewrite keys_entriesBy, <- HBn. now apply in_map. }
  unfold parseFieldNode_classify.
  destruct (String.eqb_spec (ft_name ft) T) as [E|_]; [congruence|].
  destruct (String.eqb_spec (ft_name ft) "rid") as [?|_]; [contradiction|].
  destruct (String.eqb_spec (ft_name ft) "_") as [?|_]; [contradiction|].
  cbn [andb]. rewrite Hsc. cbn [negb]. now rewrite Hhas.
Qed.

(** What a field without a [ref] directive resolves to, once it is
    classified. *)
Lemma parseFieldNode_classified ctx T f ft type references :
  findDirective f (NAME DIRECTIVE_REF) = None ->
  unwrapType f = Ok ft ->
  parseFieldNode_classify ctx T f ft = Ok (type, references) ->
  parseFieldNode ctx T f
  = (validateDirectives f FIELD_DIRECTIVES ;;;
     finishColumn f (ft_array ft) type references).
Proof.
  intros Hd Hu Hcl.
  rewrite (parseFieldNode_skipped ctx T f None (referencesField_None f Hd)
             (or_introl eq_refl)).
  rewrite Hu. cbn [bind]. rewrite Hcl. reflexivity.
Qed.

(** *** The order of two documents (C6) *)

(** C6, as the code has it.  For two documents, one with a table [A] that
    has a field whose base type is [B], the other with the table [B],
    where [B] is not [rid], [_] or a scalar name.  The two maps are built
    from the documents in one order exactly when they are built in the
    other order; and under the maps built in either order, before any field
    is resolved, the field is classified as a [foreignrow] reference to
    [B].  Without a [ref] directive the field then resolves exactly when
    its directives are accepted and its file extensions are read, and it
    does resolve, to a [foreignrow] column that references [B], when its
    directives are accepted and its first [file] and first [files]
    directive have one argument each.  The reader succeeds on the two
    documents in one order exactly when it succeeds in the other order,
    with the same tables and enumerations up to their order; and whenever
    it succeeds, in either order, the table [A] of the result has the
    column of the field, which references [B]. *)
Theorem C6_document_order {Source : Type}
    (parse : Source -> string + DocumentNode) (s1 s2 : Source)
    (d1 d2 : DocumentNode) (defA defB : ObjectTypeDefinitionNode)
    (f : FieldDefinitionNode) (ft : FieldType) :
  parse s1 = inr d1 -> parse s2 = inr d2 ->
  In (ObjectTypeDefinition defA) (definitions d1) ->
  In f (obj_fields defA) ->
  unwrapType f = Ok ft ->
  In (ObjectTypeDefinition defB) (definitions d2) ->
  obj_name defB = ft_name ft ->
  ft_name ft <> "rid" -> ft_name ft <> "_" -> ScalarTypes_has (ft_name ft) = false ->
  is_ok (forOf (readSource parse) [s1; s2] emptyContext)
  = is_ok (forOf (readSource parse) [s2; s1] emptyContext)
  /\ (forall sources ctx,
        sources = [s1; s2] \/ sources = [s2; s1] ->
        forOf (readSource parse) sources emptyContext = Ok ctx ->
        parseFieldNode_classify ctx (obj_name defA) f ft
        = Ok ("foreignrow",
              Some {| ref_table := ft_name ft; ref_column := None |})
        /\ (findDirective f (NAME DIRECTIVE_REF) = None ->
            parseFieldNode ctx (obj_name defA) f
            = (validateDirectives f FIELD_DIRECTIVES ;;;
               finishColumn f (ft_array ft) "foreignrow"
                 (Some {| ref_table := ft_name ft; ref_column := None |})))
        /\ (findDirective f (NAME DIRECTIVE_REF) = None ->
            validateDirectives f FIELD_DIRECTIVES = Ok tt ->
            (forall d, findDirective f (NAME DIRECTIVE_FILE) = Some d ->
                       length (dir_arguments d) = 1) ->
            (forall d, findDirective f (NAME DIRECTIVE_FILES_GROUP) = Some d ->
                       length (dir_arguments d) = 1) ->
            exists file files,
              parseFieldNode ctx (obj_name defA) f
              = Ok (makeColumn f (ft_array ft) "foreignrow"
                      (Some {| ref_table := ft_name ft; ref_column := None |})
                      file files)))
  /\ is_ok (readSchemaSources parse [s1; s2])
     = is_ok (readSchemaSources parse [s2; s1])
  /\ (forall r r',
        readSchemaSources parse [s1; s2] = Ok r ->
        readSchemaSources parse [s2; s1] = Ok r' ->
        Permutation (tables r) (tables r')
        /\ Permutation (enumerations r) (enumerations r'))
  /\ (forall sources r,
        sources = [s1; s2] \/ sources = [s2; s1] ->
        readSchemaSources parse sources = Ok r ->
        exists ctx t c,
          forOf (readSource parse) sources emptyContext = Ok ctx
          /\ In t (tables r) /\ tbl_name t = obj_name defA
          /\ In c (tbl_columns t)
          /\ parseFieldNode ctx (obj_name defA) f = Ok c
          /\ option_map ref_table (col_references c) = Some (ft_name ft)
          /\ (findDirective f (NAME DIRECTIVE_REF) = None ->
              col_type c = "foreignrow")).
Proof.
  intros H1 H2 HA Hf Hu HB HBn Hrid Hph Hsc.
  apply tableNodes_In in HA, HB.
  assert (P12 : Forall2 (fun s d => parse s = inr d) [s1; s2] [d1; d2])
    by (repeat constructor; assumption).
  assert (P21 : Forall2 (fun s d => parse s = inr d) [s2; s1] [d2; d1])
    by (repeat constructor; assumption).
  assert (HA12 : In defA (tableNodes (flat_map definitions [d1; d2])))
    by (rewrite two_documents, tableNodes_app; apply in_or_app; auto).
  assert (HB12 : In defB (tableNodes (flat_map definitions [d1; d2])))
    by (rewrite two_documents, tableNodes_app; apply in_or_app; auto).
  assert (HA21 : In defA (tableNodes (flat_map definitions [d2; d1])))
    by (rewrite two_documents, tableNodes_app; apply in_or_app; auto).
  assert (HB21 : In defB (tableNodes (flat_map definitions [d2; d1])))
    by (rewrite two_documents, tableNodes_app; apply in_or_app; auto).
  assert (Hne12 : forall ctx,
            forOf (readSource parse) [s1; s2] emptyContext = Ok ctx ->
            obj_name defA <> obj_name defB).
  { intros ctx Hctx.
    apply (readSource_maps parse _ _ ctx P12) in Hctx as [_ [Hnd _]].
    rewrite two_documents, tableNodes_app in Hnd.
    exact (names_differ obj_name _ _ defA defB Hnd HA HB). }
  assert (Hne21 : forall ctx,
            forOf (readSource parse) [s2; s1] emptyContext = Ok ctx ->
            obj_name defA <> obj_name defB).
  { intros ctx Hctx.
    apply (readSource_maps parse _ _ ctx P21) in Hctx as [_ [Hnd _]].
    rewrite two_documents, tableNodes_app in Hnd.
    intros E. exact (names_differ obj_name _ _ defB defA Hnd HB HA (eq_sym E)). }
  assert (Hcl : forall sources ctx,
            sources = [s1; s2] \/ sources = [s2; s1] ->
            forOf (readSource parse) sources emptyContext = Ok ctx ->
            parseFieldNode_classify ctx (obj_name defA) f ft
            = Ok ("foreignrow",
                  Some {| ref_table := ft_name ft; ref_column := None |})).
  { intros sources ctx [-> | ->] Hctx.
    - exact (foreign_reference_in_maps parse [s1; s2] [d1; d2] ctx
               (obj_name defA) f ft defB P12 Hctx HB12 HBn (Hne12 ctx Hctx)
               Hrid Hph Hsc).
    - exact (foreign_reference_in_maps parse [s2; s1] [d2; d1] ctx
               (obj_name defA) f ft defB P21 Hctx HB21 HBn (Hne21 ctx Hctx)
               Hrid Hph Hsc). }
  split; [|split; [|split; [|split]]].
  - destruct (forOf (readSource parse) [s1; s2] emptyContext) as [c|e] eqn:E12,
             (forOf (readSource parse) [s2; s1] emptyContext) as [c'|e'] eqn:E21;
      try reflexivity.
    + destruct (readSource_swap parse s1 s2 d1 d2 c H1 H2 E12) as [_ [_ [E _]]].
      congruence.
    + destruct (readSource_swap parse s2 s1 d2 d1 c' H2 H1 E21) as [_ [_ [E _]]].
      congruence.
  - intros sources ctx Horder Hctx.
    pose proof (Hcl sources ctx Horder Hctx) as Hclass.
    split; [exact Hclass|]. split.
    + intros Hd. exact (parseFieldNode_classified _ _ _ _ _ _ Hd Hu Hclass).
    + intros Hd Hv Hfile Hfiles.
      destruct (finishColumn_single f (ft_array ft) "foreignrow"
                  (Some {| ref_table := ft_name ft; ref_column := None |})
                  Hv Hfile Hfiles) as [file [files [_ [_ Hcol]]]].
      exists file, files.
      rewrite (parseFieldNode_classified _ _ _ _ _ _ Hd Hu Hclass), Hv.
      exact Hcol.
  - destruct (readSchemaSources parse [s1; s2]) as [r|e] eqn:E12,
             (readSchemaSources parse [s2; s1]) as [r'|e'] eqn:E21;
      try reflexivity.
    + destruct (readSchemaSources_swap parse s1 s2 d1 d2 r H1 H2 E12) as [r' [E _]].
      congruence.
    + destruct (readSchemaSources_swap parse s2 s1 d2 d1 r' H2 H1 E21) as [r [E _]].
      congruence.
  - intros r r' E12 E21.
    destruct (readSchemaSources_swap parse s1 s2 d1 d2 r H1 H2 E12)
      as [r'' [E [Pt Pe]]].
    rewrite E21 in E. injection E as <-. auto.
  - intros sources r Horder Hr.
    pose proof Hr as Hr'.
    apply readSchemaSources_Ok in Hr' as [ctx [Hctx _]].
    assert (Hrun : exists ctx t c,
              forOf (readSource parse) sources emptyContext = Ok ctx
              /\ parseFieldNode_classify ctx (obj_name defA) f ft
                 = Ok ("foreignrow",
                       Some {| ref_table := ft_name ft; ref_column := None |})
              /\ In t (tables r) /\ tbl_name t = obj_name defA
              /\ In c (tbl_columns t)
              /\ parseFieldNode ctx (obj_name defA) f = Ok c
              /\ option_map ref_table (col_references c) = Some (ft_name ft)
              /\ (findDirective f (NAME DIRECTIVE_REF) = None ->
                  col_type c = "foreignrow")).
    { destruct Horder as [-> | ->].
      - exact (foreign_reference_in_run parse [s1; s2] [d1; d2] r defA f ft defB
                 P12 Hr HA12 Hf Hu HB12 HBn (Hne12 ctx Hctx) Hrid Hph Hsc).
      - exact (foreign_reference_in_run parse [s2; s1] [d2; d1] r defA f ft defB
                 P21 Hr HA21 Hf Hu HB21 HBn (Hne21 ctx Hctx) Hrid Hph Hsc). }
    destruct Hrun as [ctx' [t [c [E [_ Hrest]]]]].
    exists ctx', t, c. split; [exact E | exact Hrest].
Qed.

Lemma C6_document_order_witness :
  forOf (readSource parsed) [Examples.baseDoc; MoreExamples.holderDoc]
    emptyContext = Ok MoreExamples.holderContext
  /\ parseFieldNode_classify MoreExamples.holderContext "Holder"
       (Examples.plain "Base" (NamedType "Base"))
       {| ft_array := false; ft_name := "Base" |}
     = Ok ("foreignrow", Some {| ref_table := "Base"; ref_column := None |})
  /\ (exists file files,
        parseFieldNode MoreExamples.holderContext "Holder"
          (Examples.plain "Base" (NamedType "Base"))
        = Ok (makeColumn (Examples.plain "Base" (NamedType "Base")) false
                "foreignrow"
                (Some {| ref_table := "Base"; ref_column := None |})
                file files))
  /\ is_ok (readSchemaSources parsed [MoreExamples.holderDoc; Examples.baseDoc])
     = is_ok (readSchemaSources parsed [Examples.baseDoc; MoreExamples.holderDoc])
  /\ is_ok (readSchemaSources parsed [Examples.baseDoc; MoreExamples.holderDoc])
     = true.
Proof.
  pose proof (C6_document_order parsed
                MoreExamples.holderDoc Examples.baseDoc
                MoreExamples.holderDoc Examples.baseDoc
                MoreExamples.Holder Examples.Base
                (Examples.plain "Base" (NamedType "Base"))
                {| ft_array := false; ft_name := "Base" |}
                eq_refl eq_refl (or_introl eq_refl) (or_introl eq_refl) eq_refl
                (or_introl eq_refl) eq_refl
                ltac:(discriminate) ltac:(discriminate) eq_refl)
    as [_ [Hmaps [Hok _]]].
  destruct (Hmaps [Examples.baseDoc; MoreExamples.holderDoc]
              MoreExamples.holderContext (or_intror eq_refl) eq_refl)
    as [Hclass [_ Hcol]].
  split; [reflexivity|]. split; [exact Hclass|]. split.
  - apply Hcol; [reflexivity | reflexivity | discriminate | discriminate].
  - split; [exact Hok | reflexivity].
Defined.

(** The claim C6 as stated fails in two ways.  When the table [B] has the
    name of a scalar type, in both orders the field is a column of that
    scalar type without references.  And the reader does not succeed on
    every such pair of documents: a field of [A] of a type that no document
    defines makes the run fail in both orders. *)
Lemma C6_counterexample :
  readSchemaSources parsed [Examples.levelDoc; Examples.i32Doc]
  = Ok {| tables :=
            [ {| tbl_name := "Item";
                 tbl_columns :=
                   [makeColumn (Examples.plain "Level" (NamedType "i32")) false
                      "i32" None None None];
                 tbl_tags := [] |};
              {| tbl_name := "i32";
                 tbl_columns :=
                   [makeColumn (Examples.plain "Value" (NamedType "bool")) false
                      "bool" None None None];
                 tbl_tags := [] |} ];
          enumerations := [] |}
  /\ ~ (forall (d1 d2 : DocumentNode) defA defB f ft ctx,
          In (ObjectTypeDefinition defA) (definitions d1) ->
          In f (obj_fields defA) ->
          unwrapType f = Ok ft ->
          In (ObjectTypeDefinition defB) (definitions d2) ->
          obj_name defB = ft_name ft ->
          forOf (readSource parsed) [d1; d2] emptyContext = Ok ctx ->
          parseFieldNode_classify ctx (obj_name defA) f ft
          = Ok ("foreignrow",
                Some {| ref_table := ft_name ft; ref_column := None |}))
  /\ is_ok (readSchemaSources parsed [MoreExamples.ownedDoc; Examples.baseDoc])
     = false
  /\ is_ok (readSchemaSources parsed [Examples.baseDoc; MoreExamples.ownedDoc])
     = false.
Proof.
  split; [reflexivity|]. split; [|split; reflexivity].
  intros H.
  specialize (H Examples.levelDoc Examples.i32Doc
                (mkObjectType "Item" [] [Examples.plain "Level" (NamedType "i32")])
                (mkObjectType "i32" [] [Examples.plain "Value" (NamedType "bool")])
                (Examples.plain "Level" (NamedType "i32"))
                {| ft_array := false; ft_name := "i32" |}
                _ (or_introl eq_refl) (or_introl eq_refl) eq_refl
                (or_introl eq_refl) eq_refl eq_refl).
  discriminate H.
Qed.

(** ** A field that fails in a run *)






(** *** The column that a [ref] directive names (C1) *)



